(** * Clinical-text pipeline scripts: note aggregation, best-iteration
      selection and the resource logger.

    Shallow embedding of
      - [src/process_noteevents_text.py]           (module [Notes]),
      - [src-binary-classification-on-synthea/
           best_stacking_meta_learner_across_iterations.py] (module [Selector]),
      - [src/resource_logger.py]                   (module [Logger]).

    Python [str] values are lists of 8-bit code points ([list ascii], i.e.
    text restricted to Latin-1); Python [float] and numpy [float64] values
    are IEEE 754 binary64 numbers ([SpecFloat.spec_float] at precision 53);
    Python dicts whose iteration order the scripts rely on are association
    lists in insertion order; the working directory of the selector is a
    finite map from file names to files. *)

From Stdlib Require Import Ascii String ZArith DecimalString.
From Stdlib Require SpecFloat.
From stdpp Require Import base decidable option list strings sorting gmap.

Local Open Scope nat_scope.

(** ** Python strings *)

Abbreviation str := (list ascii).

(** String literals of the scripts are written ["..."] and read as [str]. *)
Coercion list_ascii_of_string : string >-> list.

Module Str.

Definition code (c : ascii) : nat := nat_of_ascii c.

(** [str.isspace] on one code point below 256 (the same class as [\s]
    of [re] on [str] patterns). *)
Definition isspace (c : ascii) : bool :=
  let n := code c in
  ((9 <=? n) && (n <=? 13)) || ((28 <=? n) && (n <=? 32))
  || (n =? 133) || (n =? 160).

Definition isdigit (c : ascii) : bool :=
  let n := code c in (48 <=? n) && (n <=? 57).

(** [str.lower] on one code point below 256. *)
Definition lower_char (c : ascii) : ascii :=
  let n := code c in
  if ((65 <=? n) && (n <=? 90))
     || ((192 <=? n) && (n <=? 222) && negb (n =? 215))
  then ascii_of_nat (n + 32) else c.

Definition lower (s : str) : str := lower_char <$> s.

Fixpoint lstrip (s : str) : str :=
  match s with
  | c :: s' => if isspace c then lstrip s' else s
  | [] => []
  end.

Definition rstrip (s : str) : str := reverse (lstrip (reverse s)).

(** [s.strip()] *)
Definition strip (s : str) : str := rstrip (lstrip s).

(** [re.sub(p+, r, s)] for a one-character class [p]: every maximal run
    of characters of the class is replaced by [r]. *)
Fixpoint sub_runs_from (p : ascii → bool) (r : str) (in_run : bool)
    (s : str) : str :=
  match s with
  | [] => []
  | c :: s' =>
      if p c
      then (if in_run then [] else r) ++ sub_runs_from p r true s'
      else c :: sub_runs_from p r false s'
  end.

Definition sub_runs (p : ascii → bool) (r : str) (s : str) : str :=
  sub_runs_from p r false s.

(** [s.replace(old, new)]: occurrences are found left to right and do
    not overlap; [skip] counts the characters of a matched occurrence
    still to be passed over. *)
Fixpoint replace_from (old new : str) (skip : nat) (s : str) : str :=
  match s with
  | [] => []
  | c :: s' =>
      match skip with
      | S k => replace_from old new k s'
      | 0 =>
          if bool_decide (old `prefix_of` s)
          then new ++ replace_from old new (length old - 1) s'
          else c :: replace_from old new 0 s'
      end
  end.

Definition replace (old new : str) (s : str) : str :=
  match old with
  | [] => new ++ mjoin ((λ c, c :: new) <$> s)
  | _ => replace_from old new 0 s
  end.

(** [sub in s] *)
Fixpoint contains (sub s : str) : bool :=
  bool_decide (sub `prefix_of` s)
  || match s with
     | [] => false
     | _ :: s' => contains sub s'
     end.

Fixpoint take_digits (s : str) : str :=
  match s with
  | c :: s' => if isdigit c then c :: take_digits s' else []
  | [] => []
  end.

(** Lexicographic order by code point, the order of [sorted] on [str]. *)
Definition le (a b : str) : Prop :=
  String.le (string_of_list_ascii a) (string_of_list_ascii b).

Global Instance le_dec : RelDecision le.
Proof. intros a b. unfold le. apply _. Defined.

End Str.

(** ** Python floats *)

Module F64.

(** A binary64 number: a signed zero, a signed infinity, NaN, or
    [(-1)^s * m * 2^e] with the mantissa [m] and the exponent [e] of its
    IEEE representation. *)
Abbreviation float := SpecFloat.spec_float.

Definition prec : Z := 53.
Definition emax : Z := 1024.

Definition nan : float := SpecFloat.S754_nan.
Definition zero : float := SpecFloat.S754_zero false.
Definition neg_zero : float := SpecFloat.S754_zero true.
Definition neg_inf : float := SpecFloat.S754_infinity true.

(** [x + y], [x - y] and [x / y], rounded to nearest, ties to even. *)
Definition add : float → float → float := SpecFloat.SFadd prec emax.
Definition sub : float → float → float := SpecFloat.SFsub prec emax.
Definition div : float → float → float := SpecFloat.SFdiv prec emax.

(** [float(z)] of an integer. *)
Definition of_Z (z : Z) : float := SpecFloat.binary_normalize prec emax z 0 false.

Definition of_nat (n : nat) : float := of_Z (Z.of_nat n).

(** [x <= y], [x < y] and [x == y]: false as soon as one side is NaN. *)
Definition leb : float → float → bool := SpecFloat.SFleb.
Definition ltb : float → float → bool := SpecFloat.SFltb.
Definition eqb : float → float → bool := SpecFloat.SFeqb.

Definition is_nan (x : float) : bool :=
  match x with
  | SpecFloat.S754_nan => true
  | _ => false
  end.

(** [m * 2^e * 10^d] rounded to the nearest integer, ties to even. *)
Definition scaled (d : nat) (m : positive) (e : Z) : N :=
  let num := (Z.pos m * 10 ^ Z.of_nat d)%Z in
  match e with
  | Zneg p =>
      let den := (2 ^ Z.pos p)%Z in
      let q := (num / den)%Z in
      let r := (num mod den)%Z in
      Z.to_N match (2 * r ?= den)%Z with
             | Lt => q
             | Gt => (q + 1)%Z
             | Eq => if Z.even q then q else (q + 1)%Z
             end
  | _ => Z.to_N (num * 2 ^ e)
  end.

(** The decimal digits of a natural number. *)
Definition digits (n : N) : str := NilZero.string_of_uint (N.to_uint n).

(** The integer [n], read as a count of units [10^-d], in fixed-point
    notation with [d] digits after the point. *)
Definition fixed (d : nat) (n : N) : str :=
  let ds := digits n in
  let ds := replicate (S d - length ds) "0"%char ++ ds in
  let k := length ds - d in
  take k ds ++ match d with
               | 0 => []
               | _ => "."%char :: drop k ds
               end.

Definition sign (s : bool) : str := if s then "-" else "".

(** [f"{x:.<d>f}"] *)
Definition format_f (d : nat) (x : float) : str :=
  match x with
  | SpecFloat.S754_nan => "nan"
  | SpecFloat.S754_infinity s => sign s ++ "inf"
  | SpecFloat.S754_zero s => sign s ++ fixed d 0
  | SpecFloat.S754_finite s m e => sign s ++ fixed d (scaled d m e)
  end.

End F64.

(** ** The note aggregator ([process_noteevents_text.py]) *)

Module Notes.

(** *** Insertion-ordered dictionaries *)

Section Dict.
Context {K V : Type} `{EqDecision K}.

(** [d[k]] when [k] is present. *)
Fixpoint get (k : K) (d : list (K * V)) : option V :=
  match d with
  | [] => None
  | (k', v) :: d' => if decide (k = k') then Some v else get k d'
  end.

(** [d[k] = f(d[k])] on a [defaultdict] whose factory yields [dflt]:
    a present key keeps its position, a new key goes last. *)
Fixpoint update (k : K) (f : V → V) (dflt : V) (d : list (K * V))
    : list (K * V) :=
  match d with
  | [] => [(k, f dflt)]
  | (k', v) :: d' =>
      if decide (k = k') then (k', f v) :: d'
      else (k', v) :: update k f dflt d'
  end.
End Dict.

(** *** Steps 1 and 2: filtering and cleaning *)

(** One row of NOTEEVENTS.csv as pandas holds it.  [None] is a missing
    cell (NaN); [CHARTTIME] is the value after
    [pd.to_datetime(..., errors='coerce')]: [Some t] for a parsed
    instant, [None] for NaT.  Identifiers are integer valued. *)
Record noteevent := Noteevent {
  SUBJECT_ID : Z;
  HADM_ID : option Z;
  CHARTTIME : option Z;
  CATEGORY : str;
  TEXT : option str
}.

Definition keep_categories : list str :=
  [ ("Discharge summary" : str); ("Nursing" : str); ("Physician" : str) ].

Definition drop_patterns : list str :=
  [ ("dictated by" : str); ("signed electronically" : str) ].

Definition clean_text (text : str) : str :=
  let text := Str.lower text in
  let text := Str.sub_runs Str.isspace " " text in
  let text := Str.sub_runs (λ c, bool_decide (c = "_"%char)) " " text in
  let text := Str.replace "**]" "" (Str.replace "[**" "" text) in
  Str.strip text.

(** A row that survived the [notna] filter. *)
Record note := Note {
  subj : Z;
  hadm : Z;
  charttime : option Z;
  category : str;
  text : str
}.

(** [notes_df[TEXT.notna() & HADM_ID.notna()]] *)
Definition drop_missing (df : list noteevent) : list note :=
  omap (λ r,
    match TEXT r, HADM_ID r with
    | Some t, Some h => Some (Note (SUBJECT_ID r) h (CHARTTIME r) (CATEGORY r) t)
    | _, _ => None
    end) df.

Definition in_keep_categories (n : note) : bool :=
  bool_decide (category n ∈ keep_categories).

(** [TEXT.str.lower().str.contains('|'.join(drop_patterns))] *)
Definition is_template (n : note) : bool :=
  existsb (λ p, Str.contains p (Str.lower (text n))) drop_patterns.

Definition clean_note (n : note) : note :=
  Note (subj n) (hadm n) (charttime n) (category n) (clean_text (text n)).

(** *** Step 3: sorting and grouping *)

(** Order of [CHARTTIME] under [sort_values]: NaT goes last. *)
Definition time_le (a b : option Z) : Prop :=
  match a, b with
  | Some x, Some y => (x ≤ y)%Z
  | _, None => True
  | None, Some _ => False
  end.

(** The order of the sort keys ['SUBJECT_ID', 'HADM_ID', 'CHARTTIME']. *)
Definition key_le (a b : note) : Prop :=
  (subj a < subj b)%Z
  ∨ (subj a = subj b
     ∧ ((hadm a < hadm b)%Z
        ∨ (hadm a = hadm b ∧ time_le (charttime a) (charttime b)))).

Global Instance time_le_dec : RelDecision time_le.
Proof. intros [x|] [y|]; simpl; apply _. Defined.

Global Instance key_le_dec : RelDecision key_le.
Proof. intros a b. unfold key_le. apply _. Defined.

(** A row goes ahead of the first row of a sorted table that is not below
    it. *)
Fixpoint insert_row (n : note) (df : list note) : list note :=
  match df with
  | [] => [n]
  | m :: df' => if decide (key_le n m) then n :: df else m :: insert_row n df'
  end.

(** [sort_values(by=['SUBJECT_ID', 'HADM_ID', 'CHARTTIME'])]: the sort on
    several columns is stable, so rows with equal keys keep the order of
    the table; the rows are inserted from the last to the first. *)
Definition sort_values (df : list note) : list note := foldr insert_row [] df.

(** The [iterrows] loop:
    [notes_grouped[subj][hadm].append(row['TEXT'])]; [int(...)] leaves
    the integer-valued identifiers as they are. *)
Definition group_step (d : list (Z * list (Z * list str))) (n : note)
    : list (Z * list (Z * list str)) :=
  update (subj n) (update (hadm n) (λ l, l ++ [text n]) []) [] d.

Definition notes_grouped (df : list note) : list (Z * list (Z * list str)) :=
  foldl group_step [] df.

(** *** Step 4: merging short notes *)

Definition min_note_len : nat := 40.

(** The body of the inner loop on one note; the state is
    [(combined, buffer)]. *)
Definition merge_step (st : list str * str) (note : str) : list str * str :=
  let '(combined, buffer) := st in
  if length note <? min_note_len
  then (combined, buffer ++ " " ++ note)
  else
    let '(combined, buffer) :=
      match buffer with
      | [] => (combined, buffer)
      | _ => (combined ++ [Str.strip buffer], [])
      end in
    (combined ++ [note], buffer).

(** The flush after the loop. *)
Definition flush (st : list str * str) : list str :=
  let '(combined, buffer) := st in
  match buffer with
  | [] => combined
  | _ => combined ++ [Str.strip buffer]
  end.

(** [combined] for one admission's [note_list]. *)
Definition merge_notes (note_list : list str) : list str :=
  flush (foldl merge_step ([], []) note_list).

(** [note_sequences]: for every patient the list of merged note lists of
    the admissions, in the order of [hadm_dict.values()]. *)
Definition note_sequences {K1 K2 : Type}
    (notes_grouped : list (K1 * list (K2 * list str)))
    : list (K1 * list (list str)) :=
  (λ e : K1 * list (K2 * list str),
     (e.1, (λ a : K2 * list str, merge_notes a.2) <$> e.2))
  <$> notes_grouped.

(** The table before it is sorted: filtered and cleaned. *)
Definition cleaned (df : list noteevent) : list note :=
  let df := drop_missing df in
  let df := filter (λ n, in_keep_categories n = true) df in
  let df := filter (λ n, is_template n = false) df in
  clean_note <$> df.

Definition grouped (df : list noteevent) : list (Z * list (Z * list str)) :=
  notes_grouped (sort_values (cleaned df)).

(** The script from the loaded table to [note_sequences]. *)
Definition process (df : list noteevent) : list (Z * list (list str)) :=
  note_sequences (grouped df).

End Notes.


(** ** The best-iteration selector
       ([best_stacking_meta_learner_across_iterations.py]) *)

Module Selector.

(** A file of the directory [BASE].  A CSV table is held as [pd.read_csv]
    returns it: named float64 columns, NaN for an empty cell.  The model
    card is kept structured; it holds the average as the number that the
    script renders with [:.4f]. *)
Inductive file :=
  | Csv (columns : list (str * list F64.float))
  | Data (content : str)
  | ModelCard (best_iter : str) (avg_macro_f1 : F64.float) (artifacts : list str).

(** The exceptions of a run: the two the script raises itself, with
    their message; those of [shutil.copy], the [FileNotFoundError] of a
    missing source (its [strerror], with the path as [filename]) and the
    [SameFileError] of a copy onto itself; and any error raised inside
    pandas (unreadable table, missing column, no valid maximum). *)
Inductive exn :=
  | FileNotFoundError (msg : str) (filename : option str)
  | ValueError (msg : str)
  | SameFileError (src dst : str)
  | PandasError.

Inductive result (A : Type) :=
  | Ok (a : A)
  | Raise (e : exn).
Arguments Ok {A} a.
Arguments Raise {A} e.

Global Instance result_ret : MRet result := λ A a, Ok a.
Global Instance result_bind : MBind result := λ A B k r,
  match r with
  | Ok a => k a
  | Raise e => Raise e
  end.

(** The directory is keyed by file name.  With [BASE = "./"], the path
    that [glob.glob] returns for a name, and that [os.path.join(BASE,
    name)] builds, is "./name". *)
Definition path (name : str) : str := "./" ++ name.

(** [fnmatch] of a name against [pre*suf]. *)
Definition glob_match (pre suf name : str) : Prop :=
  pre `prefix_of` name ∧ suf `suffix_of` drop (length pre) name.

Global Instance glob_match_dec pre suf name : Decision (glob_match pre suf name).
Proof. unfold glob_match. apply _. Defined.

(** [glob.glob]: the matching names, in the order the directory lists
    them. *)
Definition glob (pre suf : str) (fs : gmap str file) : list str :=
  filter (glob_match pre suf) (map_to_list fs).*1.

Definition sorted (l : list str) : list str := merge_sort Str.le l.

(** Step 1 *)
Definition fold_score_files (fs : gmap str file) : list str :=
  sorted (glob "stacker_best_model_folds_" ".csv" fs).

(** [df[name]] *)
Fixpoint column (name : str) (cols : list (str * list F64.float))
    : option (list F64.float) :=
  match cols with
  | [] => None
  | (n, c) :: cols' => if decide (name = n) then Some c else column name cols'
  end.

(** *** The sum of a float64 array in numpy *)

(** The eight partial sums of the unrolled loop of [pairwise_sum]. *)
Record lanes := Lanes {
  r0 : F64.float; r1 : F64.float; r2 : F64.float; r3 : F64.float;
  r4 : F64.float; r5 : F64.float; r6 : F64.float; r7 : F64.float
}.

(** The unrolled loop: as long as eight more elements are left, one is
    added to each partial sum; what is left over is returned. *)
Fixpoint add_blocks (r : lanes) (a : list F64.float) : lanes * list F64.float :=
  match a with
  | a0 :: a1 :: a2 :: a3 :: a4 :: a5 :: a6 :: a7 :: a' =>
      add_blocks
        (Lanes (F64.add (r0 r) a0) (F64.add (r1 r) a1) (F64.add (r2 r) a2)
               (F64.add (r3 r) a3) (F64.add (r4 r) a4) (F64.add (r5 r) a5)
               (F64.add (r6 r) a6) (F64.add (r7 r) a7)) a'
  | _ => (r, a)
  end.

(** [pairwise_sum] on a block of at most 128 elements: fewer than eight
    elements are added from left to right, starting from -0.0; otherwise
    the first eight start the partial sums, the unrolled loop runs, the
    partial sums are added in pairs and the elements left over are added
    to the result from left to right. *)
Definition sum_block (a : list F64.float) : F64.float :=
  match a with
  | a0 :: a1 :: a2 :: a3 :: a4 :: a5 :: a6 :: a7 :: a' =>
      let '(r, rest) := add_blocks (Lanes a0 a1 a2 a3 a4 a5 a6 a7) a' in
      foldl F64.add
        (F64.add (F64.add (F64.add (r0 r) (r1 r)) (F64.add (r2 r) (r3 r)))
                 (F64.add (F64.add (r4 r) (r5 r)) (F64.add (r6 r) (r7 r))))
        rest
  | _ => foldl F64.add F64.neg_zero a
  end.

(** [pairwise_sum]: more than 128 elements are split in two, the first
    part holding half of them rounded down to a multiple of eight; every
    split shortens the array, so [fuel] equal to its length is enough. *)
Fixpoint pairwise_sum (fuel : nat) (a : list F64.float) : F64.float :=
  match fuel with
  | S fuel' =>
      if 128 <? length a
      then
        let n2 := length a / 2 in
        let n2 := n2 - n2 mod 8 in
        F64.add (pairwise_sum fuel' (take n2 a)) (pairwise_sum fuel' (drop n2 a))
      else sum_block a
  | 0 => sum_block a
  end.

(** [a.sum()] of a one-dimensional float64 array: [np.add.reduce] adds
    the pairwise sum to its initial value, -0.0 (0.0 for an empty
    array). *)
Definition np_sum (a : list F64.float) : F64.float :=
  match a with
  | [] => F64.zero
  | _ => F64.add F64.neg_zero (pairwise_sum (length a) a)
  end.

(** *** Steps 2 and 3 *)

(** [Series.mean()] (pandas [nanmean]): the NaN cells are replaced by
    0.0, the array is summed by numpy and the sum is divided by the
    number of cells that are not NaN; the mean of no value is NaN. *)
Definition mean (col : list F64.float) : F64.float :=
  let count := length (filter (λ x, F64.is_nan x = false) col) in
  let values := (λ x, if F64.is_nan x then F64.zero else x) <$> col in
  let the_sum := np_sum values in
  if count =? 0 then F64.nan else F64.div the_sum (F64.of_nat count).

(** [pd.read_csv(file)["Macro-F1"]] *)
Definition macro_f1 (fs : gmap str file) (name : str) : result (list F64.float) :=
  match fs !! name with
  | Some (Csv cols) =>
      match column "Macro-F1" cols with
      | Some col => Ok col
      | None => Raise PandasError
      end
  | _ => Raise PandasError
  end.

(** [pd.read_csv(file)["Macro-F1"].mean()] *)
Definition avg_f1 (fs : gmap str file) (name : str) : result F64.float :=
  col ← macro_f1 fs name;
  Ok (mean col).

(** Step 2: the loop building [iteration_scores]. *)
Fixpoint iteration_scores (fs : gmap str file) (files : list str)
    : result (list (str * F64.float)) :=
  match files with
  | [] => Ok []
  | file :: files' =>
      avg ← avg_f1 fs file;
      rest ← iteration_scores fs files';
      Ok ((file, avg) :: rest)
  end.

(** The value pandas puts in the place of a NaN before it looks for a
    maximum. *)
Definition fill_neg_inf (x : F64.float) : F64.float :=
  if F64.is_nan x then F64.neg_inf else x.

(** [values.argmax()] of numpy on an array without NaN: the position of
    the first occurrence of the maximum.  [best] is the running maximum,
    found at position [pos], and [i] is the current position. *)
Fixpoint argmax_from (i pos : nat) (best : F64.float) (xs : list F64.float)
    : nat :=
  match xs with
  | [] => pos
  | x :: xs' =>
      if negb (F64.leb x best)
      then argmax_from (S i) i x xs'
      else argmax_from (S i) pos best xs'
  end.

(** [Series.idxmax()] (pandas [nanargmax]): every NaN is replaced by
    -inf, then numpy looks for the maximum; there is no result when
    every value is NaN. *)
Definition idxmax (xs : list F64.float) : option nat :=
  if forallb F64.is_nan xs then None
  else
    match fill_neg_inf <$> xs with
    | [] => None
    | x :: xs' => Some (argmax_from 1 0 x xs')
    end.

(** Step 3: [best_row], as [(best_file, best_avg_f1)]. *)
Definition best_row (scores : list (str * F64.float))
    : result (str * F64.float) :=
  match idxmax scores.*2 with
  | Some i =>
      match scores !! i with
      | Some row => Ok row
      | None => Raise PandasError
      end
  | None => Raise PandasError
  end.

(** [re.match] of [iter[0-9]+] at the start of [s]. *)
Definition match_iter (s : str) : option str :=
  if bool_decide (("iter" : str) `prefix_of` s)
  then match Str.take_digits (drop 4 s) with
       | [] => None
       | ds => Some ("iter" ++ ds)
       end
  else None.

(** [re.search(r"(iter[0-9]+)", s)], group 1. *)
Fixpoint search_iter (s : str) : option str :=
  match match_iter s with
  | Some tag => Some tag
  | None =>
      match s with
      | [] => None
      | _ :: s' => search_iter s'
      end
  end.

(** Steps 1 to 3: the winning file, its average and its iteration tag. *)
Definition select (fs : gmap str file) : result (str * F64.float * str) :=
  match fold_score_files fs with
  | [] => Raise (FileNotFoundError "No fold-score CSV files found!" None)
  | files =>
      scores ← iteration_scores fs files;
      best ← best_row scores;
      match search_iter (path best.1) with
      | None => Raise (ValueError ("Cannot extract iteration from " ++ path best.1))
      | Some best_iter => Ok (best.1, best.2, best_iter)
      end
  end.

(** *** Steps 4 and 5 *)

(** The state of a run: the directory and the copies performed so far,
    each as [(source, destination)]. *)
Record state := State {
  dir : gmap str file;
  copies : list (str * str)
}.

(** What a statement leaves behind: the state, and the exception it
    raised, if any. *)
Definition outcome : Type := state * option exn.

(** [shutil.copy(src, dst)] between two names of the directory: a
    missing source raises [FileNotFoundError], a copy of a file onto
    itself [SameFileError]. *)
Definition copy (src dst : str) (st : state) : outcome :=
  match dir st !! src with
  | None =>
      (st, Some (FileNotFoundError "No such file or directory" (Some (path src))))
  | Some f =>
      if decide (src = dst)
      then (st, Some (SameFileError (path src) (path dst)))
      else (State (<[dst := f]> (dir st)) (copies st ++ [(src, dst)]), None)
  end.

(** [if os.path.exists(src): shutil.copy(src, dst)] *)
Definition copy_if_exists (src dst : str) (st : state) : outcome :=
  if bool_decide (is_Some (dir st !! src)) then copy src dst st else (st, None).

Definition across_iterations : str := "across_iterations".

Definition new_fname (best_iter fname : str) : str :=
  Str.replace best_iter across_iterations fname.

Definition metrics_files (best_iter : str) (fs : gmap str file) : list str :=
  glob ("stacker_binary_metrics_" ++ best_iter ++ "_") ".csv" fs.

(** Step 4, the text and pickle files. *)
Definition copy_models (best_iter : str) (st : state) : outcome :=
  match copy_if_exists ("stacker_best_model_" ++ best_iter ++ ".txt")
          "stacker_best_model_across_iterations.txt" st with
  | (st, None) =>
      copy_if_exists ("stacker_best_model_" ++ best_iter ++ ".pkl")
        "stacker_best_model_across_iterations.pkl" st
  | raised => raised
  end.

(** Step 4, the loop over [metrics_files]. *)
Fixpoint copy_metrics (best_iter : str) (metrics : list str) (st : state)
    : outcome :=
  match metrics with
  | [] => (st, None)
  | f :: metrics' =>
      match copy f (new_fname best_iter f) st with
      | (st, None) => copy_metrics best_iter metrics' st
      | raised => raised
      end
  end.

Definition copy_artifacts (best_iter : str) (st : state) : outcome :=
  match copy_models best_iter st with
  | (st, None) => copy_metrics best_iter (metrics_files best_iter (dir st)) st
  | raised => raised
  end.

Definition output_model_card : str := "best-stacker-model-across-iterations.md".

(** Step 5: the artifact lines of the model card. *)
Definition card_artifacts (best_iter : str) (metrics : list str) : list str :=
  [ ("stacker_best_model_across_iterations.txt" : str);
    ("stacker_best_model_across_iterations.pkl" : str) ]
  ++ (new_fname best_iter <$> metrics).

Definition write_card (best_iter : str) (avg : F64.float) (metrics : list str)
    (st : state) : state :=
  State (<[output_model_card := ModelCard best_iter avg (card_artifacts best_iter metrics)]> (dir st))
        (copies st).

(** The script: the final state and the exception that ended it, if any. *)
Definition main (fs : gmap str file) : outcome :=
  let st := State fs [] in
  match select fs with
  | Raise e => (st, Some e)
  | Ok (best_file, best_avg_f1, best_iter) =>
      match copy_models best_iter st with
      | (st, None) =>
          let metrics := metrics_files best_iter (dir st) in
          match copy_metrics best_iter metrics st with
          | (st, None) => (write_card best_iter best_avg_f1 metrics st, None)
          | raised => raised
          end
      | raised => raised
      end
  end.

End Selector.

(** ** The resource logger ([resource_logger.py]) *)

Module Logger.

(** What one use of the context manager observes: whether the block
    under [with] raised, the two readings of [time.time()], the reading
    of [psutil.cpu_percent], whether CUDA is available and the bytes
    used on [/]. *)
Record invocation := Invocation {
  tag : str;
  block_raised : bool;
  start : F64.float;
  end_ : F64.float;
  cpu_percent : F64.float;
  cuda_is_available : bool;
  used : Z
}.

(** A record of the CSV file: the header, or a data row with its five
    fields as the strings handed to [csv.writer]. *)
Inductive record :=
  | Header
  | DataRow (tag elapsed_hr gpu_hrs cpu_pct used_gb : str).

Definition row_tag (r : record) : option str :=
  match r with
  | Header => None
  | DataRow t _ _ _ _ => Some t
  end.

Definition row (inv : invocation) : record :=
  let elapsed_hr := F64.div (F64.sub (end_ inv) (start inv)) (F64.of_Z 3600) in
  let cpu_pct := cpu_percent inv in
  let gpu_hrs := if cuda_is_available inv then elapsed_hr else F64.zero in
  let used_gb := F64.div (F64.of_Z (used inv)) (F64.of_Z 1000000000) in
  DataRow (tag inv) (F64.format_f 3 elapsed_hr) (F64.format_f 3 gpu_hrs)
    (F64.format_f 1 cpu_pct) (F64.format_f 1 used_gb).

(** [with ResourceLogger(tag): block] on the file at [LOG_PATH]: [None]
    when the file does not exist, else its records.  The generator has
    no [try]/[finally]: when the block raises, nothing after [yield]
    runs. *)
Definition ResourceLogger (inv : invocation) (log : option (list record))
    : option (list record) :=
  if block_raised inv then log
  else
    let write_header := negb (bool_decide (is_Some log)) in
    let f := default [] log in
    let f := if write_header then f ++ [Header] else f in
    Some (f ++ [row inv]).

(** Invocations one after the other. *)
Definition run (invs : list invocation) (log : option (list record))
    : option (list record) :=
  foldl (λ log inv, ResourceLogger inv log) log invs.

End Logger.

(** ** Specification vocabulary for the note aggregator *)

Module NotesSpec.
Import Notes.

Definition short (n : str) : Prop := length n < min_note_len.

Global Instance short_dec n : Decision (short n).
Proof. unfold short. apply _. Defined.

(** The buffer after the notes of [run] were appended to an empty one. *)
Definition buffer_of (run : list str) : str :=
  mjoin ((λ n : str, " " ++ n) <$> run).

(** The merge loop cuts a note list into consecutive chunks: a note that
    is long enough stands alone, a run of short notes shares a buffer. *)
Inductive chunk :=
  | Long (n : str)
  | Run (ns : list str).

Definition notes_of (c : chunk) : list str :=
  match c with
  | Long n => [n]
  | Run ns => ns
  end.

(** The output note of a chunk. *)
Definition render (c : chunk) : str :=
  match c with
  | Long n => n
  | Run ns => Str.strip (buffer_of ns)
  end.

Definition chunk_ok (c : chunk) : Prop :=
  match c with
  | Long n => min_note_len ≤ length n
  | Run ns => ns ≠ [] ∧ Forall short ns
  end.

Definition close_run (run : list str) : list chunk :=
  match run with
  | [] => []
  | _ => [Run run]
  end.

Fixpoint chunks_from (run : list str) (l : list str) : list chunk :=
  match l with
  | [] => close_run run
  | n :: l' =>
      if decide (short n) then chunks_from (run ++ [n]) l'
      else close_run run ++ Long n :: chunks_from [] l'
  end.

Definition chunks (l : list str) : list chunk := chunks_from [] l.

(** [s] contains the texts [ns] one after the other, without overlap. *)
Fixpoint in_order (ns : list str) (s : str) : Prop :=
  match ns with
  | [] => True
  | n :: ns' => ∃ p r, s = p ++ n ++ r ∧ in_order ns' r
  end.

(** No whitespace at either end. *)
Definition stripped (s : str) : Prop :=
  (∀ c, head s = Some c → Str.isspace c = false)
  ∧ (∀ c, last s = Some c → Str.isspace c = false).



(** The notes of admission [(s, h)] in a table. *)
Definition admission (s h : Z) (df : list note) : list note :=
  filter (λ n, subj n = s ∧ hadm n = h) df.

(** [notes_grouped[s][h]] *)
Definition lookup2 (s h : Z) (d : list (Z * list (Z * list str)))
    : option (list str) :=
  get s d ≫= get h.

(** Every text held in a grouped table satisfies [P]. *)
Definition texts_all (P : str → Prop) (d : list (Z * list (Z * list str)))
    : Prop :=
  Forall (λ e, Forall (λ a : Z * list str, Forall P a.2) e.2) d.

Definition long_note : str :=
  "a sufficiently long note text exceeding forty characters".

(** The grouped table of the two-note example. *)
Definition example_grouped : list (str * list (str * list str)) :=
  [ (("p1" : str), [ (("a1" : str), [("short" : str); long_note]) ]) ].

Definition example_table : list noteevent :=
  [ Noteevent 1 (Some 1%Z) (Some 0%Z) "Nursing" (Some ("short" : str));
    Noteevent 1 (Some 1%Z) (Some 1%Z) "Nursing" (Some long_note) ].

Definition example_notes : list str := [("short" : str); long_note].

(** A table whose two rows come in reverse chronological order. *)
Definition unsorted_table : list noteevent :=
  [ Noteevent 7 (Some 3%Z) (Some 20%Z) "Physician" (Some ("Second  note" : str));
    Noteevent 7 (Some 3%Z) (Some 10%Z) "Nursing" (Some ("First_note" : str)) ].

End NotesSpec.

Import NotesSpec.

(** ** Specification vocabulary for the selector *)

Module SelectorSpec.
Import Selector.

(** An iteration tag: what [iter[0-9]+] matches. *)
Definition is_tag (t : str) : Prop :=
  ∃ ds, t = "iter" ++ ds ∧ ds ≠ [] ∧ Forall (λ c, Str.isdigit c = true) ds.

(** The files of iteration [t], by the naming convention. *)
Definition belongs_to (t name : str) : Prop :=
  name = "stacker_best_model_folds_" ++ t ++ ".csv"
  ∨ name = "stacker_best_model_" ++ t ++ ".txt"
  ∨ name = "stacker_best_model_" ++ t ++ ".pkl"
  ∨ glob_match ("stacker_binary_metrics_" ++ t ++ "_") ".csv" name.

Definition txt_src (t : str) : str := "stacker_best_model_" ++ t ++ ".txt".
Definition pkl_src (t : str) : str := "stacker_best_model_" ++ t ++ ".pkl".
Definition txt_dst : str := "stacker_best_model_across_iterations.txt".
Definition pkl_dst : str := "stacker_best_model_across_iterations.pkl".
Definition metrics_pre (t : str) : str := "stacker_binary_metrics_" ++ t ++ "_".

(** The directory after a guarded copy of [src] to [dst], read off the
    initial directory [fs]. *)
Definition copied_model (fs : gmap str file) (src dst : str)
    (m : gmap str file) : gmap str file :=
  match fs !! src with
  | Some x => <[dst := x]> m
  | None => m
  end.

Definition model_copy (fs : gmap str file) (src dst : str)
    : list (str * str) :=
  match fs !! src with
  | Some _ => [(src, dst)]
  | None => []
  end.

(** Steps 1 to 3 up to the choice of the best row. *)
Definition winner (fs : gmap str file) : result (str * F64.float) :=
  scores ← iteration_scores fs (fold_score_files fs);
  best_row scores.

Definition raised (fs : gmap str file) : option exn := (main fs).2.

Definition final (fs : gmap str file) : state := (main fs).1.

(** The error condition as C5 words it. *)
Definition no_files_or_no_tag (fs : gmap str file) : Prop :=
  fold_score_files fs = []
  ∨ ∃ best avg, winner fs = Ok (best, avg) ∧ search_iter (path best) = None.

(** The arithmetic mean of a list of scores in binary64 arithmetic: the
    scores are added from left to right and the sum is divided by their
    number. *)
Definition arithmetic_mean (scores : list F64.float) : F64.float :=
  match scores with
  | [] => F64.nan
  | s :: rest => F64.div (foldl F64.add s rest) (F64.of_nat (length scores))
  end.

(** The same number, or two zeros that may differ in sign. *)
Definition same_value (x y : F64.float) : Prop :=
  x = y ∨ ∃ s s', x = SpecFloat.S754_zero s ∧ y = SpecFloat.S754_zero s'.

(** Every fold-score file is a table with a Macro-F1 column. *)
Definition readable (fs : gmap str file) : Prop :=
  ∀ f, f ∈ fold_score_files fs → ∃ col, macro_f1 fs f = Ok col.

(** Some fold-score file has a mean that [P] holds of. *)
Definition some_mean (fs : gmap str file) (P : F64.float → Prop) : Prop :=
  ∃ f col, f ∈ fold_score_files fs ∧ macro_f1 fs f = Ok col ∧ P (mean col).

(** C4 as worded: out of a non-empty set of fold-score files a file is
    chosen, and its mean is greater than or equal to that of every file. *)
Definition chooses_maximal (fs : gmap str file) : Prop :=
  fold_score_files fs ≠ [] →
  ∃ best avg, winner fs = Ok (best, avg)
    ∧ ∀ f c, f ∈ fold_score_files fs → macro_f1 fs f = Ok c →
             F64.leb (mean c) avg = true.

(** [m] is the greatest mean of the fold-score files: some file has it
    and no defined mean exceeds it. *)
Definition maximal_mean (fs : gmap str file) (m : F64.float) : Prop :=
  some_mean fs (λ x, F64.eqb x m = true)
  ∧ ∀ f c, f ∈ fold_score_files fs → macro_f1 fs f = Ok c →
           F64.is_nan (mean c) = false → F64.leb (mean c) m = true.

(** C9 as worded: the chosen file has the maximal mean and is, in sorted
    order, the first of the files that have it. *)
Definition first_of_tied_wins (fs : gmap str file) : Prop :=
  ∀ best avg m, winner fs = Ok (best, avg) → maximal_mean fs m →
    F64.eqb avg m = true
    ∧ ∀ f c, f ∈ fold_score_files fs → macro_f1 fs f = Ok c →
             F64.eqb (mean c) m = true → Str.le best f.

(** The binary64 number nearest to [m / 10^k], for [m] and [10^k] below
    [2^53]: the value of a short decimal literal. *)
Definition dec (m : Z) (k : nat) : F64.float :=
  F64.div (F64.of_Z m) (F64.of_Z (10 ^ Z.of_nat k)).

Definition scores_csv (xs : list F64.float) : file :=
  Csv [ (("Fold" : str), []); (("Macro-F1" : str), xs) ].

(** Two iterations with the same mean 0.625, artifacts of the first, and
    a metrics file of an iteration 10. *)
Definition example_dir : gmap str file :=
  <[("stacker_best_model_folds_iter1.csv" : str) := scores_csv [dec 5 1; dec 75 2]]>
  (<[("stacker_best_model_folds_iter2.csv" : str) := scores_csv [dec 625 3; dec 625 3]]>
  (<[("stacker_best_model_iter1.txt" : str) := Data "params"]>
  (<[("stacker_binary_metrics_iter1_val.csv" : str) := Data "f1,0.6"]>
  (<[("stacker_binary_metrics_iter10_val.csv" : str) := Data "f1,0.1"]> ∅)))).

(** One fold-score file whose only Macro-F1 cell is empty. *)
Definition nan_dir : gmap str file :=
  {[ ("stacker_best_model_folds_iter1.csv" : str) := scores_csv [F64.nan] ]}.

(** Two fold-score files: the score 0.5, and an empty Macro-F1 cell. *)
Definition half_nan_dir : gmap str file :=
  <[("stacker_best_model_folds_iter1.csv" : str) := scores_csv [dec 5 1]]>
  (<[("stacker_best_model_folds_iter2.csv" : str) := scores_csv [F64.nan]]> ∅).

(** One fold-score file, a table without a Macro-F1 column. *)
Definition no_column_dir : gmap str file :=
  {[ ("stacker_best_model_folds_iter1.csv" : str)
     := Csv [ (("Fold" : str), [F64.of_Z 1]); (("Accuracy" : str), [dec 9 1]) ] ]}.

(** A first fold-score file whose only Macro-F1 cell is empty, followed
    by two files whose only score is -inf. *)
Definition neg_inf_dir : gmap str file :=
  <[("stacker_best_model_folds_iter1.csv" : str) := scores_csv [F64.nan]]>
  (<[("stacker_best_model_folds_iter2.csv" : str) := scores_csv [F64.neg_inf]]>
  (<[("stacker_best_model_folds_iter3.csv" : str) := scores_csv [F64.neg_inf]]> ∅)).

(** One score 0.1 against three scores 0.1: equal as exact means, not as
    binary64 means. *)
Definition rounding_dir : gmap str file :=
  <[("stacker_best_model_folds_iter1.csv" : str) := scores_csv [dec 1 1]]>
  (<[("stacker_best_model_folds_iter2.csv" : str) :=
       scores_csv [dec 1 1; dec 1 1; dec 1 1]]> ∅).

End SelectorSpec.

Import SelectorSpec.

(** ** The statistics printed by the note aggregator *)

Module Stats.

(** [[len(adm) for subj in note_sequences.values() for adm in subj]] *)
Definition note_lengths {K : Type} (note_sequences : list (K * list (list str)))
    : list nat :=
  mjoin ((λ e : K * list (list str), length <$> e.2) <$> note_sequences).

(** [[len(v) for v in note_sequences.values()]] *)
Definition admissions_per_patient {K : Type}
    (note_sequences : list (K * list (list str))) : list nat :=
  (λ e : K * list (list str), length e.2) <$> note_sequences.

(** [np.max(a)]: [None] stands for the [ValueError] numpy raises on an
    empty array. *)
Definition np_max (a : list nat) : option nat :=
  match a with
  | [] => None
  | _ => Some (max_list a)
  end.

End Stats.

(** ** Further specification vocabulary *)

Module MoreSpec.

(** The row passes the three filters of steps 1 and 2 and belongs to
    admission [(s, h)]. *)
Definition qualifies (s h : Z) (r : Notes.noteevent) : Prop :=
  Notes.SUBJECT_ID r = s ∧ Notes.HADM_ID r = Some h
  ∧ Notes.CATEGORY r ∈ Notes.keep_categories
  ∧ ∃ t, Notes.TEXT r = Some t
       ∧ Forall (λ p, Str.contains p (Str.lower t) = false) Notes.drop_patterns.

Global Instance qualifies_dec s h r : Decision (qualifies s h r).
Proof.
  unfold qualifies. destruct (Notes.TEXT r) as [t|].
  - destruct (decide (Forall (λ p, Str.contains p (Str.lower t) = false)
                        Notes.drop_patterns)) as [Ht|Ht].
    + destruct (decide (Notes.SUBJECT_ID r = s ∧ Notes.HADM_ID r = Some h
                        ∧ Notes.CATEGORY r ∈ Notes.keep_categories)) as [H|H].
      * left. destruct H as (? & ? & ?). eauto 10.
      * right. intros (? & ? & ? & _). tauto.
    + right. intros (_ & _ & _ & t' & [= <-] & ?). tauto.
  - right. intros (_ & _ & _ & t' & [=] & _).
Defined.

(** The cleaned texts of the qualifying rows of admission [(s, h)], in
    table order. *)
Definition admitted_texts (s h : Z) (df : list Notes.noteevent) : list str :=
  omap (λ r, Notes.clean_text <$> Notes.TEXT r) (filter (qualifies s h) df).

(** Every patient of a grouped table has an admission and every
    admission a note. *)
Definition filled (d : list (Z * list (Z * list str))) : Prop :=
  Forall (λ e, e.2 ≠ [] ∧ Forall (λ a : Z * list str, a.2 ≠ []) e.2) d.

(** The number of notes held in a grouped table. *)
Definition size2 (d : list (Z * list (Z * list str))) : nat :=
  sum_list_with (λ e, sum_list_with (λ a : Z * list str, length a.2) e.2) d.

(** [" ".join(l)] *)
Fixpoint sep_join (l : list str) : str :=
  match l with
  | [] => []
  | [n] => n
  | n :: l' => n ++ " " ++ sep_join l'
  end.

(** A table whose first row has no parseable timestamp. *)
Definition undated_table : list Notes.noteevent :=
  [ Notes.Noteevent 7 (Some 3%Z) None "Nursing" (Some ("Undated note" : str));
    Notes.Noteevent 7 (Some 3%Z) (Some 10%Z) "Nursing" (Some ("Dated note" : str)) ].

(** Two rows with the same sort key. *)
Definition same_key (a b : Notes.note) : Prop :=
  Notes.key_le a b ∧ Notes.key_le b a.

(** The name of the fold-score file of iteration [t]. *)
Definition folds_name (t : str) : str :=
  "stacker_best_model_folds_" ++ t ++ ".csv".

(** The names a run of the selector may create or overwrite. *)
Definition is_destination (name : str) : Prop :=
  name = txt_dst ∨ name = pkl_dst ∨ name = Selector.output_model_card
  ∨ ("stacker_binary_metrics_across_iterations" : str) `prefix_of` name.

(** Two uses of the resource logger, the block of the first raising
    after two hours, the second taking half an hour. *)
Definition raising_invs : list Logger.invocation :=
  [ Logger.Invocation "clinicalbert_lstm" true (F64.of_Z 0) (F64.of_Z 7200)
      (dec 125 1) true 5000000000;
    Logger.Invocation "stacker" false (F64.of_Z 7200) (F64.of_Z 9000)
      (F64.of_Z 40) false 6000000000 ].

(** Two uses of the resource logger whose blocks return: two hours with
    CUDA, then half an hour without. *)
Definition returning_invs : list Logger.invocation :=
  [ Logger.Invocation "clinicalbert_lstm" false (F64.of_Z 0) (F64.of_Z 7200)
      (dec 125 1) true 5000000000;
    Logger.Invocation "stacker" false (F64.of_Z 7200) (F64.of_Z 9000)
      (F64.of_Z 40) false 6000000000 ].

(** C8 as worded: run one after the other without a log file, the
    invocations leave a file that holds one header record followed by one
    data record per invocation, the i-th carrying the i-th tag. *)
Definition one_row_per_invocation (invs : list Logger.invocation) : Prop :=
  ∃ rows, Logger.run invs None = Some (Logger.Header :: rows)
    ∧ Logger.row_tag <$> rows = Some <$> (Logger.tag <$> invs).

(** The invocations of the resource logger whose block returned. *)
Definition completed (invs : list Logger.invocation) : list Logger.invocation :=
  filter (λ inv, Logger.block_raised inv = false) invs.

(** The alphabet of a cleaned text: the only whitespace is the space,
    there is no underscore, and no letter that [lower] would change. *)
Definition clean_char (c : ascii) : Prop :=
  (Str.isspace c = true → c = " "%char) ∧ c ≠ "_"%char ∧ Str.lower_char c = c.

End MoreSpec.

Import MoreSpec.

(** ** The embedded functions on small inputs *)

Example clean_text_ex :
  Notes.clean_text "  Pt seen by [**Doctor**]  ___ on
Ward_B " = ("pt seen by doctor   on ward b" : str).
Proof. vm_compute. reflexivity. Qed.

Example replace_ex : Str.replace "aa" "X" "aaaaa" = ("XXa" : str).
Proof. vm_compute. reflexivity. Qed.

Example replace_empty_ex : Str.replace "" "-" "abc" = ("-a-b-c-" : str).
Proof. vm_compute. reflexivity. Qed.

Example merge_notes_ex :
  Notes.merge_notes
    [ ("a" : str); ("b" : str); long_note; long_note; ("c" : str) ]
  = [ ("a b" : str); long_note; long_note; ("c" : str) ].
Proof. vm_compute. reflexivity. Qed.

Example search_iter_ex :
  Selector.search_iter (Selector.path "stacker_best_model_folds_iter12.csv")
  = Some ("iter12" : str).
Proof. vm_compute. reflexivity. Qed.

Example search_iter_none_ex :
  Selector.search_iter (Selector.path "stacker_best_model_folds_iter.csv") = None.
Proof. vm_compute. reflexivity. Qed.

Example idxmax_ex :
  Selector.idxmax [F64.nan; dec 5 1; dec 75 2; dec 750 3] = Some 2.
Proof. vm_compute. reflexivity. Qed.

(** A NaN is passed over unless nothing exceeds -inf. *)
Example idxmax_neg_inf_ex : Selector.idxmax [F64.nan; F64.neg_inf] = Some 0.
Proof. vm_compute. reflexivity. Qed.

(** The mean of three scores 0.1 is 0.10000000000000002. *)
Example mean_ex :
  dec 1 1 = SpecFloat.S754_finite false 7205759403792794 (-56)
  ∧ Selector.mean [dec 1 1; dec 1 1; dec 1 1]
    = SpecFloat.S754_finite false 7205759403792795 (-56).
Proof. vm_compute. split; reflexivity. Qed.

Example mean_nan_ex :
  Selector.mean [dec 5 1; F64.nan; dec 75 2] = dec 625 3
  ∧ Selector.mean [F64.nan; F64.nan] = F64.nan.
Proof. vm_compute. split; reflexivity. Qed.

(** Rounding decides the winner: the three scores 0.1 beat the single
    score 0.1. *)
Example rounding_ex :
  Selector.select rounding_dir
  = Selector.Ok (("stacker_best_model_folds_iter2.csv" : str),
                 SpecFloat.S754_finite false 7205759403792795 (-56),
                 ("iter2" : str)).
Proof. vm_compute. reflexivity. Qed.

Example format_f_ex :
  F64.format_f 3 (F64.div (F64.of_Z 1) (F64.of_Z 3600)) = ("0.000" : str)
  ∧ F64.format_f 1 (dec 3333 2) = ("33.3" : str)
  ∧ F64.format_f 4 (dec 625 3) = ("0.6250" : str)
  ∧ F64.format_f 1 (dec 25 2) = ("0.2" : str)
  ∧ F64.format_f 3 (F64.sub F64.zero (dec 1 4)) = ("-0.000" : str).
Proof. vm_compute. split_and!; reflexivity. Qed.

Example sort_values_ex :
  Notes.text <$> Notes.sort_values
    [ Notes.Note 2 1 None "Nursing" "d"; Notes.Note 1 1 (Some 5%Z) "Nursing" "a";
      Notes.Note 1 1 (Some 5%Z) "Nursing" "b"; Notes.Note 1 1 (Some 5%Z) "Nursing" "c" ]
  = [ ("a" : str); ("b" : str); ("c" : str); ("d" : str) ].
Proof. vm_compute. reflexivity. Qed.

Example new_fname_ex :
  Selector.new_fname "iter1" "stacker_binary_metrics_iter1_val.csv"
  = ("stacker_binary_metrics_across_iterations_val.csv" : str).
Proof. vm_compute. reflexivity. Qed.

(** ** Python strings: facts *)

Lemma lstrip_split (s : str) :
  ∃ a, s = a ++ Str.lstrip s ∧ Forall (λ c, Str.isspace c = true) a.
Proof.
  induction s as [|c s [a [Hs Ha]]]; simpl.
  - by exists [].
  - destruct (Str.isspace c) eqn:Hc.
    + exists (c :: a). split; [simpl; congruence | by constructor].
    + by exists [].
Qed.

Lemma lstrip_head (s : str) c :
  head (Str.lstrip s) = Some c → Str.isspace c = false.
Proof.
  induction s as [|d s IH]; simpl; [done|].
  destruct (Str.isspace d) eqn:Hd; [done|].
  simpl. by intros [= <-].
Qed.

Lemma rstrip_split (s : str) :
  ∃ b, s = Str.rstrip s ++ b ∧ Forall (λ c, Str.isspace c = true) b.
Proof.
  unfold Str.rstrip.
  destruct (lstrip_split (reverse s)) as [a [Hs Ha]].
  exists (reverse a). split.
  - rewrite <- reverse_app, <- Hs. by rewrite reverse_involutive.
  - by apply Forall_reverse.
Qed.

Lemma rstrip_last (s : str) c :
  last (Str.rstrip s) = Some c → Str.isspace c = false.
Proof.
  unfold Str.rstrip. rewrite last_reverse. apply lstrip_head.
Qed.

Lemma strip_stripped (s : str) : stripped (Str.strip s).
Proof.
  unfold Str.strip. split; intros c Hc.
  - destruct (rstrip_split (Str.lstrip s)) as [b [Hs _]].
    apply (lstrip_head s). rewrite Hs.
    destruct (Str.rstrip (Str.lstrip s)); [done|]. done.
  - by apply rstrip_last in Hc.
Qed.

(** ** Ordered containment *)

Lemma in_order_prepend ns (p s : str) : in_order ns s → in_order ns (p ++ s).
Proof.
  destruct ns as [|n ns]; simpl; [done|].
  intros (q & r & -> & Hr). exists (p ++ q), r.
  split; [by rewrite <- (assoc_L (++)) | done].
Qed.

Lemma in_order_append ns (s t : str) : in_order ns s → in_order ns (s ++ t).
Proof.
  revert s. induction ns as [|n ns IH]; simpl; [done|].
  intros s (p & r & -> & Hr). exists p, (r ++ t).
  split; [by rewrite <- !(assoc_L (++)) | by apply IH].
Qed.

Lemma in_order_app ns1 ns2 (s1 s2 : str) :
  in_order ns1 s1 → in_order ns2 s2 → in_order (ns1 ++ ns2) (s1 ++ s2).
Proof.
  revert s1. induction ns1 as [|n ns1 IH]; simpl; intros s1 H1 H2.
  - by apply in_order_prepend.
  - destruct H1 as (p & r & -> & Hr). exists p, (r ++ s2).
    split; [by rewrite <- !(assoc_L (++)) | by apply IH].
Qed.

Lemma in_order_buffer_of run : in_order run (buffer_of run).
Proof.
  induction run as [|n run IH]; simpl; [done|].
  exists (" " : str), (buffer_of run). split; [|done].
  reflexivity.
Qed.

(** A leading whitespace character of the haystack is never part of a
    stripped text. *)
Lemma in_order_drop_head ns c (s : str) :
  Forall stripped ns → Str.isspace c = true →
  in_order ns (c :: s) → in_order ns s.
Proof.
  intros Hns Hc. induction Hns as [|n ns [Hhd _] _ IH]; simpl; [done|].
  intros (p & r & Heq & Hr).
  destruct p as [|d p]; simpl in Heq.
  - destruct n as [|d n]; simpl in Heq.
    + subst r. exists [], s. split; [done | by apply IH].
    + injection Heq as -> ->.
      specialize (Hhd d eq_refl). congruence.
  - injection Heq as -> ->. by exists p, r.
Qed.

Lemma in_order_nil_inv ns : in_order ns [] → Forall (λ n, n = []) ns.
Proof.
  induction ns as [|n ns IH]; simpl; [done|].
  intros (p & r & Heq & Hr). symmetry in Heq.
  apply app_eq_nil in Heq as [-> Heq]. apply app_eq_nil in Heq as [-> ->].
  constructor; auto.
Qed.

Lemma in_order_all_nil ns (s : str) : Forall (λ n, n = []) ns → in_order ns s.
Proof.
  induction 1 as [|n ns -> _ IH]; simpl; [done|]. by exists [], s.
Qed.

(** Likewise for a trailing whitespace character. *)
Lemma in_order_drop_last ns c (s : str) :
  Forall stripped ns → Str.isspace c = true →
  in_order ns (s ++ [c]) → in_order ns s.
Proof.
  intros Hns Hc. revert s.
  induction Hns as [|n ns [_ Hlast] Hns IH]; simpl; [done|].
  intros s (p & r & Heq & Hr).
  destruct r as [|d r _] using rev_ind.
  - rewrite (right_id_L [] (++)) in Heq.
    destruct n as [|d n _] using rev_ind.
    + rewrite (right_id_L [] (++)) in Heq. subst p.
      exists s, []. split; [by rewrite !(right_id_L [] (++))|].
      by apply in_order_all_nil, in_order_nil_inv.
    + rewrite (assoc_L (++)) in Heq. apply app_inj_tail in Heq as [_ <-].
      specialize (Hlast c). rewrite last_snoc in Hlast.
      specialize (Hlast eq_refl). congruence.
  - rewrite !(assoc_L (++)) in Heq. apply app_inj_tail in Heq as [-> <-].
    exists p, r. split; [by rewrite <- (assoc_L (++)) | by apply IH].
Qed.

Lemma in_order_drop_prefix ns (a s : str) :
  Forall stripped ns → Forall (λ c, Str.isspace c = true) a →
  in_order ns (a ++ s) → in_order ns s.
Proof.
  intros Hns. induction 1 as [|c a Hc _ IH]; simpl; [done|].
  intros H. apply IH. by apply (in_order_drop_head ns c).
Qed.

Lemma in_order_drop_suffix ns (b s : str) :
  Forall stripped ns → Forall (λ c, Str.isspace c = true) b →
  in_order ns (s ++ b) → in_order ns s.
Proof.
  intros Hns. induction b as [|c b IH] using rev_ind.
  - by rewrite (right_id_L [] (++)).
  - rewrite Forall_app, Forall_singleton. intros [Hb Hc] H.
    apply IH; [done|]. apply (in_order_drop_last ns c); [done..|].
    by rewrite <- (assoc_L (++)).
Qed.

Lemma in_order_strip ns (s : str) :
  Forall stripped ns → in_order ns s → in_order ns (Str.strip s).
Proof.
  intros Hns Hs. unfold Str.strip.
  destruct (lstrip_split s) as (a & Ha & Hsp).
  destruct (rstrip_split (Str.lstrip s)) as (b & Hb & Hsp').
  apply (in_order_drop_suffix ns b); [done..|]. rewrite <- Hb.
  apply (in_order_drop_prefix ns a); [done..|]. by rewrite <- Ha.
Qed.

(** ** The merge loop as a chunking of the note list *)

Lemma buffer_of_snoc run (n : str) :
  buffer_of (run ++ [n]) = buffer_of run ++ " " ++ n.
Proof.
  unfold buffer_of. rewrite fmap_app, join_app. simpl.
  by rewrite (right_id_L [] (++)).
Qed.

Lemma flush_buffer_of combined run :
  Notes.flush (combined, buffer_of run) = combined ++ (render <$> close_run run).
Proof.
  destruct run as [|n run]; simpl; [by rewrite (right_id_L [] (++))|].
  done.
Qed.

Lemma merge_loop l combined run :
  Notes.flush (foldl Notes.merge_step (combined, buffer_of run) l)
  = combined ++ (render <$> chunks_from run l).
Proof.
  revert combined run. induction l as [|n l IH]; intros combined run.
  - apply flush_buffer_of.
  - cbn [foldl chunks_from]. unfold Notes.merge_step at 2.
    destruct (decide (short n)) as [Hn|Hn].
    + assert ((length n <? Notes.min_note_len) = true) as ->.
      { by apply Nat.ltb_lt. }
      rewrite <- buffer_of_snoc. apply IH.
    + assert ((length n <? Notes.min_note_len) = false) as ->.
      { by apply Nat.ltb_ge, Nat.nlt_ge. }
      transitivity (Notes.flush (foldl Notes.merge_step
        ((combined ++ (render <$> close_run run)) ++ [n], buffer_of []) l)).
      { do 2 f_equal. destruct run; simpl; by rewrite ?(right_id_L [] (++)). }
      rewrite IH, fmap_app. simpl. by rewrite <- !(assoc_L (++)).
Qed.

Lemma merge_notes_chunks l : Notes.merge_notes l = render <$> chunks l.
Proof. apply (merge_loop l [] []). Qed.

Lemma close_run_notes run : mjoin (notes_of <$> close_run run) = run.
Proof. destruct run; simpl; [done|]. by rewrite (right_id_L [] (++)). Qed.

Lemma chunks_from_notes run l : mjoin (notes_of <$> chunks_from run l) = run ++ l.
Proof.
  revert run. induction l as [|n l IH]; intros run; simpl.
  - by rewrite close_run_notes, (right_id_L [] (++)).
  - destruct (decide (short n)).
    + by rewrite IH, <- (assoc_L (++)).
    + rewrite fmap_app, join_app, close_run_notes, fmap_cons. simpl.
      by rewrite IH.
Qed.

Lemma close_run_ok run : Forall short run → Forall chunk_ok (close_run run).
Proof.
  destruct run as [|n run]; simpl; [done|]. intros H.
  apply Forall_singleton. by split.
Qed.

Lemma chunks_from_ok run l :
  Forall short run → Forall chunk_ok (chunks_from run l).
Proof.
  revert run. induction l as [|n l IH]; intros run Hrun; simpl.
  - by apply close_run_ok.
  - destruct (decide (short n)) as [Hn|Hn].
    + apply IH, Forall_app. by split; [|constructor].
    + apply Forall_app. split; [by apply close_run_ok|].
      constructor; [|by apply IH]. simpl. unfold short in Hn. lia.
Qed.

Lemma chunks_from_short r run :
  Forall short run → chunks_from r run = close_run (r ++ run).
Proof.
  intros H. revert r. induction H as [|n run Hn _ IH]; intros r; simpl.
  - by rewrite (right_id_L [] (++)).
  - rewrite decide_True by done. by rewrite IH, <- (assoc_L (++)).
Qed.

Lemma chunks_from_long r l (n : str) l2 :
  ¬ short n →
  chunks_from r (l ++ n :: l2) = chunks_from r (l ++ [n]) ++ chunks_from [] l2.
Proof.
  intros Hn. revert r. induction l as [|m l IH]; intros r; simpl.
  - rewrite !decide_False by done. simpl.
    by rewrite <- (assoc_L (++)).
  - destruct (decide (short m)); [apply IH|].
    by rewrite IH, <- (assoc_L (++)).
Qed.





(** A trailing run of short notes is flushed as the last output note. *)
Lemma merge_notes_trailing pre run :
  run ≠ [] → Forall short run →
  (pre = [] ∨ ∃ pre' n, pre = pre' ++ [n] ∧ ¬ short n) →
  last (Notes.merge_notes (pre ++ run)) = Some (Str.strip (buffer_of run)).
Proof.
  intros Hne Hrun Hpre. rewrite merge_notes_chunks. unfold chunks.
  assert (∃ cs, chunks_from [] (pre ++ run) = cs ++ [Run run]) as [cs ->].
  { destruct Hpre as [->|(pre' & n & -> & Hn)].
    - exists []. simpl. rewrite chunks_from_short by done.
      simpl. by destruct run.
    - exists (chunks_from [] (pre' ++ [n])).
      rewrite <- (assoc_L (++)). simpl. rewrite chunks_from_long by done.
      rewrite (chunks_from_short [] run) by done. simpl. by destruct run. }
  rewrite fmap_app. simpl. apply last_snoc.
Qed.

(** The merged notes of stripped texts contain every text, in order. *)
Lemma chunks_in_order cs :
  Forall stripped (mjoin (notes_of <$> cs)) →
  in_order (mjoin (notes_of <$> cs)) (mjoin (render <$> cs)).
Proof.
  induction cs as [|c cs IH]; simpl; [done|].
  rewrite Forall_app. intros [Hc Hcs].
  apply in_order_app; [|by apply IH].
  destruct c as [n|ns]; simpl.
  - exists [], []. by rewrite (right_id_L [] (++)).
  - apply in_order_strip; [done|]. apply in_order_buffer_of.
Qed.

Lemma merge_notes_in_order l :
  Forall stripped l → in_order l (mjoin (Notes.merge_notes l)).
Proof.
  intros Hl. rewrite merge_notes_chunks.
  pose proof (chunks_from_notes [] l) as Hn. simpl in Hn. fold (chunks l) in Hn.
  rewrite <- Hn at 1. apply chunks_in_order. by rewrite Hn.
Qed.

(** ** Dictionaries *)

Section DictFacts.
Context {K V : Type} `{EqDecision K}.
Implicit Types (d : list (K * V)) (f : V → V).

Lemma get_update_eq k f dflt d :
  Notes.get k (Notes.update k f dflt d) = Some (f (default dflt (Notes.get k d))).
Proof.
  induction d as [|[k' v] d IH]; simpl.
  - by rewrite decide_True.
  - destruct (decide (k = k')) as [->|Hne]; simpl.
    + by rewrite decide_True.
    + by rewrite decide_False.
Qed.

Lemma get_update_ne k k' f dflt d :
  k ≠ k' → Notes.get k' (Notes.update k f dflt d) = Notes.get k' d.
Proof.
  intros Hne. induction d as [|[k'' v] d IH]; simpl.
  - by rewrite decide_False.
  - destruct (decide (k = k'')) as [->|Hne']; simpl; [|by rewrite IH].
    by rewrite !decide_False.
Qed.

Lemma update_Forall (P : V → Prop) k f dflt d :
  Forall (λ e, P e.2) d → (∀ v, P v → P (f v)) → P (f dflt) →
  Forall (λ e, P e.2) (Notes.update k f dflt d).
Proof.
  intros Hd Hf Hdflt. induction Hd as [|[k' v] d Hv Hd IH]; simpl.
  - by apply Forall_singleton.
  - simpl in Hv. destruct (decide (k = k')); constructor; simpl; auto.
Qed.
End DictFacts.

(** ** Grouping *)

Lemma lookup2_group_step s h d n :
  lookup2 s h (Notes.group_step d n)
  = if decide (Notes.subj n = s ∧ Notes.hadm n = h)
    then Some (default [] (lookup2 s h d) ++ [Notes.text n])
    else lookup2 s h d.
Proof.
  unfold lookup2, Notes.group_step.
  destruct (decide (Notes.subj n = s)) as [<-|Hs].
  - rewrite get_update_eq. simpl.
    destruct (decide (Notes.hadm n = h)) as [<-|Hh].
    + rewrite get_update_eq, decide_True by done.
      by destruct (Notes.get (Notes.subj n) d).
    + rewrite get_update_ne, decide_False by tauto.
      by destruct (Notes.get (Notes.subj n) d).
  - rewrite get_update_ne, decide_False by tauto. done.
Qed.

Lemma lookup2_foldl s h l d :
  lookup2 s h (foldl Notes.group_step d l)
  = match admission s h l with
    | [] => lookup2 s h d
    | ns => Some (default [] (lookup2 s h d) ++ (Notes.text <$> ns))
    end.
Proof.
  unfold admission. revert d. induction l as [|n l IH]; intros d; simpl; [done|].
  rewrite IH, lookup2_group_step, filter_cons.
  destruct (decide (Notes.subj n = s ∧ Notes.hadm n = h)); simpl; [|done].
  destruct (filter _ l); simpl; [done|].
  by rewrite <- (assoc_L (++)).
Qed.

(** [notes_grouped[s][h]] holds the texts of the admission's rows, in the
    order of the table. *)
Lemma lookup2_notes_grouped s h l note_list :
  lookup2 s h (Notes.notes_grouped l) = Some note_list →
  note_list = Notes.text <$> admission s h l.
Proof.
  unfold Notes.notes_grouped. rewrite lookup2_foldl.
  destruct (admission s h l); [done|]. by intros [= <-].
Qed.

Lemma texts_all_foldl P l d :
  texts_all P d → Forall (λ n, P (Notes.text n)) l →
  texts_all P (foldl Notes.group_step d l).
Proof.
  intros Hd Hl. revert d Hd.
  induction Hl as [|n l Hn _ IH]; intros d Hd; simpl; [done|].
  apply IH. unfold Notes.group_step.
  apply (update_Forall (λ v : list (Z * list str), Forall (λ a, Forall P a.2) v));
    [done| |].
  - intros v Hv.
    apply (update_Forall (λ v : list str, Forall P v)); [done| |].
    + intros w Hw. apply Forall_app. by split; [|apply Forall_singleton].
    + by apply Forall_singleton.
  - apply (update_Forall (λ v : list str, Forall P v)); [done| |].
    + intros w Hw. apply Forall_app. by split; [|apply Forall_singleton].
    + by apply Forall_singleton.
Qed.

Lemma texts_all_elem P d s dict h note_list :
  texts_all P d → (s, dict) ∈ d → (h, note_list) ∈ dict → Forall P note_list.
Proof.
  unfold texts_all. rewrite Forall_forall. intros Hd Hs Hh.
  specialize (Hd _ Hs). simpl in Hd. rewrite Forall_forall in Hd.
  apply (Hd _ Hh).
Qed.

(** ** The cleaned table *)

Lemma cleaned_origin df n :
  n ∈ Notes.cleaned df →
  ∃ r t, r ∈ df ∧ Notes.TEXT r = Some t
    ∧ Notes.HADM_ID r = Some (Notes.hadm n)
    ∧ Notes.SUBJECT_ID r = Notes.subj n
    ∧ Notes.CHARTTIME r = Notes.charttime n
    ∧ Notes.text n = Notes.clean_text t.
Proof.
  unfold Notes.cleaned. intros Hn.
  apply list_elem_of_fmap in Hn as (m & -> & Hm).
  apply list_elem_of_filter in Hm as [_ Hm].
  apply list_elem_of_filter in Hm as [_ Hm].
  apply list_elem_of_omap in Hm as (r & Hr & Hm).
  exists r. destruct (Notes.TEXT r) as [t|] eqn:Ht; [|done].
  destruct (Notes.HADM_ID r) as [h|] eqn:Hh; [|done].
  injection Hm as <-. exists t. by simpl.
Qed.

Lemma clean_text_stripped t : stripped (Notes.clean_text t).
Proof. apply strip_stripped. Qed.

Lemma insert_row_Permutation n df : Notes.insert_row n df ≡ₚ n :: df.
Proof.
  induction df as [|m df IH]; simpl; [done|].
  destruct (decide (Notes.key_le n m)); [done|].
  rewrite IH. apply Permutation_swap.
Qed.

Lemma sort_values_Permutation df : Notes.sort_values df ≡ₚ df.
Proof.
  induction df as [|n df IH]; simpl; [done|].
  by rewrite insert_row_Permutation, IH.
Qed.

Lemma grouped_stripped df : texts_all stripped (Notes.grouped df).
Proof.
  unfold Notes.grouped, Notes.notes_grouped.
  apply texts_all_foldl; [by constructor|].
  apply Forall_forall. intros n Hn.
  rewrite sort_values_Permutation in Hn.
  apply cleaned_origin in Hn as (r & t & _ & _ & _ & _ & _ & ->).
  apply clean_text_stripped.
Qed.

(** ** Sorting *)

Global Instance time_le_trans : Transitive Notes.time_le.
Proof. intros [x|] [y|] [z|]; simpl; try done; lia. Qed.

Global Instance time_le_total : Total Notes.time_le.
Proof. intros [x|] [y|]; simpl; auto; lia. Qed.

Global Instance key_le_trans : Transitive Notes.key_le.
Proof.
  intros a b c. unfold Notes.key_le.
  intros [?|[? [?|[? Hab]]]] [?|[? [?|[? Hbc]]]];
    try (left; lia); try (right; split; [lia|left; lia]).
  right. split; [lia|]. right. split; [lia|]. by etrans.
Qed.

Global Instance key_le_total : Total Notes.key_le.
Proof.
  intros a b. unfold Notes.key_le.
  destruct (Z.lt_trichotomy (Notes.subj a) (Notes.subj b)) as [?|[?|?]];
    [by left; left| |by right; left].
  destruct (Z.lt_trichotomy (Notes.hadm a) (Notes.hadm b)) as [?|[?|?]];
    [by left; right; split; [|left]| |by right; right; split; [|left]].
  destruct (total Notes.time_le (Notes.charttime a) (Notes.charttime b)).
  - left. right. split; [done|]. right. by split.
  - right. right. split; [done|]. right. by split.
Qed.

Lemma insert_row_sorted n df :
  StronglySorted Notes.key_le df → StronglySorted Notes.key_le (Notes.insert_row n df).
Proof.
  induction 1 as [|m df Hdf IH Hm]; simpl.
  - by repeat constructor.
  - destruct (decide (Notes.key_le n m)) as [Hnm|Hnm].
    + constructor; [by constructor|]. constructor; [done|].
      eapply Forall_impl; [exact Hm|]. intros k Hk. by etrans.
    + constructor; [done|]. rewrite insert_row_Permutation.
      constructor; [|done]. by destruct (total Notes.key_le n m).
Qed.

Lemma sort_values_sorted df : StronglySorted Notes.key_le (Notes.sort_values df).
Proof.
  induction df as [|n df IH]; simpl; [constructor|]. by apply insert_row_sorted.
Qed.

Lemma StronglySorted_filter {A} (R : relation A) (P : A → Prop)
    `{∀ x, Decision (P x)} l :
  StronglySorted R l → StronglySorted R (filter P l).
Proof.
  induction 1 as [|x l Hl IH Hx]; [constructor|].
  rewrite filter_cons. destruct (decide (P x)); [|done].
  constructor; [done|]. apply Forall_forall. intros y Hy.
  apply list_elem_of_filter in Hy as [_ Hy].
  rewrite Forall_forall in Hx. by apply Hx.
Qed.

Lemma admission_key_le s h a b :
  Notes.subj a = s ∧ Notes.hadm a = h → Notes.subj b = s ∧ Notes.hadm b = h →
  Notes.key_le a b → Notes.time_le (Notes.charttime a) (Notes.charttime b).
Proof.
  intros [Hsa Hha] [Hsb Hhb]. unfold Notes.key_le.
  intros [?|[? [?|[? H]]]]; [lia|lia|done].
Qed.

Lemma admission_sorted s h l :
  StronglySorted Notes.key_le l →
  StronglySorted Notes.time_le (Notes.charttime <$> admission s h l).
Proof.
  intros Hl. assert (Forall (λ n, Notes.subj n = s ∧ Notes.hadm n = h)
                       (admission s h l)) as Hadm.
  { apply Forall_forall. intros n Hn. by apply list_elem_of_filter in Hn as [? _]. }
  apply (StronglySorted_filter _ (λ n, Notes.subj n = s ∧ Notes.hadm n = h)) in Hl.
  fold (admission s h l) in Hl.
  induction Hl as [|n ns Hns IH Hn]; simpl; [constructor|].
  apply Forall_cons in Hadm as [Hn' Hadm].
  constructor; [by apply IH|].
  apply Forall_fmap, Forall_forall. intros m Hm. simpl.
  rewrite Forall_forall in Hn, Hadm.
  apply (admission_key_le s h); auto.
Qed.

Lemma fmap_Some_omap {A B} (f : A → option B) l :
  Forall (λ x, is_Some (f x)) l → f <$> l = Some <$> omap f l.
Proof.
  induction 1 as [|x l [y Hy] _ IH]; simpl; [done|].
  rewrite Hy. simpl. f_equal. apply IH.
Qed.

Lemma StronglySorted_Some ts :
  StronglySorted Notes.time_le (Some <$> ts) → StronglySorted Z.le ts.
Proof.
  induction ts as [|t ts IH]; simpl; [constructor|].
  intros [Hts Ht]%StronglySorted_inv. constructor; [by apply IH|].
  clear IH Hts. induction ts as [|u ts IH]; [constructor|].
  apply Forall_cons in Ht as [Hu Ht]. constructor; [exact Hu | by apply IH].
Qed.

(** ** Claims on the note aggregator *)

(** C1, as stated, fails: with minimum length 40 the merge step does not
    turn the two-note example into the single note "short a sufficiently
    long note text exceeding forty characters". *)
Lemma example_not_single_note :
  Notes.min_note_len = 40
  ∧ Notes.note_sequences example_grouped
    ≠ [ (("p1" : str),
         [ [("short a sufficiently long note text exceeding forty characters" : str)] ]) ].
Proof. split; [reflexivity | vm_compute; discriminate]. Qed.

(** C1, amended: on the two-note example the merge step yields, under
    patient "p1" and its one admission, the two notes "short" and the long
    note: the buffer holding the short fragment is flushed as a note of its
    own when the long note arrives. *)
Theorem example_two_notes :
  Notes.note_sequences example_grouped
  = [ (("p1" : str), [ [("short" : str); long_note] ]) ].
Proof. vm_compute. reflexivity. Qed.




(** C3: for every admission's note list of a note table, the merged notes
    are the rendering of a cut of the list into consecutive chunks, so
    order is kept and nothing is dropped; the concatenation of the merged
    notes contains every input text, in the original order; and a trailing
    run of short notes is flushed as the last merged note. *)
Theorem merge_keeps_every_fragment df s dict h note_list :
  (s, dict) ∈ Notes.grouped df → (h, note_list) ∈ dict →
  (∃ cs, Notes.merge_notes note_list = render <$> cs
         ∧ mjoin (notes_of <$> cs) = note_list)
  ∧ in_order note_list (mjoin (Notes.merge_notes note_list))
  ∧ ∀ pre run,
      note_list = pre ++ run → run ≠ [] → Forall short run →
      (pre = [] ∨ ∃ pre' n, pre = pre' ++ [n] ∧ ¬ short n) →
      last (Notes.merge_notes note_list) = Some (Str.strip (buffer_of run)).
Proof.
  intros Hs Hh. split_and!.
  - exists (chunks note_list).
    split; [apply merge_notes_chunks | apply (chunks_from_notes [])].
  - apply merge_notes_in_order.
    apply (texts_all_elem stripped (Notes.grouped df) s dict h); [|done..].
    apply grouped_stripped.
  - intros pre run -> Hne Hrun Hpre. by apply merge_notes_trailing.
Qed.

Lemma merge_keeps_every_fragment_witness :
  ((1%Z, [(1%Z, example_notes)]) ∈ Notes.grouped example_table
   ∧ (1%Z, example_notes) ∈ [(1%Z, example_notes)])
  ∧ (∃ cs, Notes.merge_notes example_notes = render <$> cs
           ∧ mjoin (notes_of <$> cs) = example_notes)
  ∧ in_order example_notes (mjoin (Notes.merge_notes example_notes))
  ∧ ∀ pre run,
      example_notes = pre ++ run → run ≠ [] → Forall short run →
      (pre = [] ∨ ∃ pre' n, pre = pre' ++ [n] ∧ ¬ short n) →
      last (Notes.merge_notes example_notes) = Some (Str.strip (buffer_of run)).
Proof.
  assert ((1%Z, [(1%Z, example_notes)]) ∈ Notes.grouped example_table) as H1.
  { vm_compute. apply list_elem_of_here. }
  assert ((1%Z, example_notes) ∈ [(1%Z, example_notes)]) as H2.
  { apply list_elem_of_here. }
  split; [exact (conj H1 H2)|].
  exact (merge_keeps_every_fragment example_table _ _ _ _ H1 H2).
Defined.

(** C7: for every note table in which all rows of an admission carry a
    valid timestamp, the note list of that admission holds the texts of the
    admission's cleaned rows in non-decreasing order of timestamp. *)
Theorem admission_notes_chronological df s h note_list :
  lookup2 s h (Notes.grouped df) = Some note_list →
  Forall (λ r, Notes.SUBJECT_ID r = s → Notes.HADM_ID r = Some h →
               is_Some (Notes.CHARTTIME r)) df →
  ∃ ns ts,
    ns ≡ₚ admission s h (Notes.cleaned df)
    ∧ note_list = Notes.text <$> ns
    ∧ Notes.charttime <$> ns = Some <$> ts
    ∧ StronglySorted Z.le ts.
Proof.
  intros Hget Hvalid. unfold Notes.grouped in Hget.
  apply lookup2_notes_grouped in Hget.
  set (ns := admission s h (Notes.sort_values (Notes.cleaned df))) in *.
  assert (ns ≡ₚ admission s h (Notes.cleaned df)) as Hperm.
  { unfold ns, admission. by rewrite sort_values_Permutation. }
  assert (Forall (λ n, is_Some (Notes.charttime n)) ns) as Hsome.
  { apply Forall_forall. intros n Hn. rewrite Hperm in Hn.
    apply list_elem_of_filter in Hn as [[Hs Hh] Hn].
    apply cleaned_origin in Hn as (r & t & Hr & _ & Hh' & Hs' & <- & _).
    rewrite Forall_forall in Hvalid. apply (Hvalid r Hr); congruence. }
  exists ns, (omap Notes.charttime ns).
  pose proof (fmap_Some_omap Notes.charttime ns Hsome) as Hts.
  split_and!; [done..|].
  apply StronglySorted_Some. rewrite <- Hts.
  apply admission_sorted, sort_values_sorted.
Qed.

Lemma admission_notes_chronological_witness :
  (lookup2 7 3 (Notes.grouped unsorted_table)
     = Some [("first note" : str); ("second note" : str)]
   ∧ Forall (λ r, Notes.SUBJECT_ID r = 7%Z → Notes.HADM_ID r = Some 3%Z →
                  is_Some (Notes.CHARTTIME r)) unsorted_table)
  ∧ ∃ ns ts,
      ns ≡ₚ admission 7 3 (Notes.cleaned unsorted_table)
      ∧ [("first note" : str); ("second note" : str)] = Notes.text <$> ns
      ∧ Notes.charttime <$> ns = Some <$> ts
      ∧ StronglySorted Z.le ts.
Proof.
  assert (lookup2 7 3 (Notes.grouped unsorted_table)
          = Some [("first note" : str); ("second note" : str)]) as H1.
  { vm_compute. reflexivity. }
  assert (Forall (λ r, Notes.SUBJECT_ID r = 7%Z → Notes.HADM_ID r = Some 3%Z →
                       is_Some (Notes.CHARTTIME r)) unsorted_table) as H2.
  { repeat constructor; intros _ _; simpl; eauto. }
  split; [exact (conj H1 H2)|].
  exact (admission_notes_chronological unsorted_table 7 3 _ H1 H2).
Defined.

(** ** The order of binary64 numbers *)

Ltac float_cases :=
  repeat match goal with
         | x : SpecFloat.spec_float |- _ => destruct x as [[]|[]| |[] ? ?]
         end.

Ltac compare_cases :=
  unfold F64.leb, F64.ltb, F64.eqb, SpecFloat.SFleb, SpecFloat.SFltb,
    SpecFloat.SFeqb, SpecFloat.SFcompare in *;
  repeat match goal with
         | H : context [Pos.compare_cont Eq ?a ?b] |- _ =>
             change (Pos.compare_cont Eq a b) with (a ?= b)%positive in H
         | |- context [Pos.compare_cont Eq ?a ?b] =>
             change (Pos.compare_cont Eq a b) with (a ?= b)%positive
         end;
  repeat match goal with
         | H : context [(?a ?= ?b)%Z] |- _ => destruct (Z.compare_spec a b)
         | |- context [(?a ?= ?b)%Z] => destruct (Z.compare_spec a b)
         | H : context [(?a ?= ?b)%positive] |- _ => destruct (Pos.compare_spec a b)
         | |- context [(?a ?= ?b)%positive] => destruct (Pos.compare_spec a b)
         end;
  simpl in *; try done; try lia.

Lemma leb_not_nan x y :
  F64.leb x y = true → F64.is_nan x = false ∧ F64.is_nan y = false.
Proof. intros H. by float_cases. Qed.

Lemma leb_refl x : F64.is_nan x = false → F64.leb x x = true.
Proof. intros H. float_cases; compare_cases. Qed.

Lemma leb_trans x y z :
  F64.leb x y = true → F64.leb y z = true → F64.leb x z = true.
Proof. intros H1 H2. float_cases; compare_cases. Qed.

Lemma ltb_leb x y : F64.ltb x y = true → F64.leb x y = true.
Proof. intros H. float_cases; compare_cases. Qed.

Lemma not_leb_ltb x y :
  F64.is_nan x = false → F64.is_nan y = false →
  F64.leb x y = false → F64.ltb y x = true.
Proof. intros Hx Hy H. float_cases; compare_cases. Qed.

Lemma leb_ltb_trans x y z :
  F64.leb x y = true → F64.ltb y z = true → F64.ltb x z = true.
Proof. intros H1 H2. float_cases; compare_cases. Qed.

Lemma ltb_leb_trans x y z :
  F64.ltb x y = true → F64.leb y z = true → F64.ltb x z = true.
Proof. intros H1 H2. float_cases; compare_cases. Qed.

Lemma eqb_not_ltb x y : F64.eqb x y = true → F64.ltb x y = false.
Proof.
  unfold F64.eqb, F64.ltb, SpecFloat.SFeqb, SpecFloat.SFltb.
  by destruct (SpecFloat.SFcompare x y) as [[]|].
Qed.

Lemma leb_neg_inf_inv x : F64.leb x F64.neg_inf = true → x = F64.neg_inf.
Proof. intros H. by float_cases. Qed.

(** ** The maximum search *)

Lemma fill_neg_inf_not_nan x : F64.is_nan (Selector.fill_neg_inf x) = false.
Proof. by destruct x. Qed.

Lemma fill_neg_inf_id x : F64.is_nan x = false → Selector.fill_neg_inf x = x.
Proof. by destruct x. Qed.

Lemma argmax_from_spec xs i pos best j :
  Forall (λ x, F64.is_nan x = false) xs → F64.is_nan best = false → pos < i →
  Selector.argmax_from i pos best xs = j →
  ∃ m,
    ((j = pos ∧ m = best) ∨ (i ≤ j ∧ xs !! (j - i) = Some m))
    ∧ F64.leb best m = true ∧ (pos < j → F64.ltb best m = true)
    ∧ ∀ k y, xs !! k = Some y →
             F64.leb y m = true ∧ (i + k < j → F64.ltb y m = true).
Proof.
  intros Hxs. revert i pos best.
  induction Hxs as [|x xs Hx _ IH]; intros i pos best Hbest Hpos Hj; simpl in Hj.
  - subst j. exists best. split_and!; [by left|by apply leb_refl|lia|done].
  - destruct (F64.leb x best) eqn:Hle; simpl in Hj.
    + apply IH in Hj as (m & Hm & Hbm & Hlt & Hrest); [|done|lia].
      exists m. split_and!; [|done|done|].
      * destruct Hm as [?|[? Hm]]; [by left|]. right. split; [lia|].
        by replace (j - i) with (S (j - S i)) by lia.
      * intros [|k] y Hk; simplify_eq/=.
        -- split; [by eapply leb_trans|]. intros Hij.
           eapply leb_ltb_trans; [done|]. apply Hlt. lia.
        -- destruct (Hrest k y Hk) as [? Hlt']. split; [done|].
           intros ?. apply Hlt'. lia.
    + pose proof (not_leb_ltb x best Hx Hbest Hle) as Hbx.
      apply IH in Hj as (m & Hm & Hxm & Hlt & Hrest); [|done|lia].
      exists m. split_and!.
      * right. destruct Hm as [[-> ->]|[? Hm]].
        -- split; [lia|]. by rewrite Nat.sub_diag.
        -- split; [lia|]. by replace (j - i) with (S (j - S i)) by lia.
      * apply ltb_leb. by eapply ltb_leb_trans.
      * intros _. by eapply ltb_leb_trans.
      * intros [|k] y Hk; simplify_eq/=.
        -- split; [done|]. intros ?. apply Hlt. lia.
        -- destruct (Hrest k y Hk) as [? Hlt']. split; [done|].
           intros ?. apply Hlt'. lia.
Qed.

(** [idxmax] returns the first position of a greatest value, a NaN
    counting as -inf, and fails exactly when every value is NaN. *)
Lemma idxmax_spec xs j :
  Selector.idxmax xs = Some j →
  ∃ x, xs !! j = Some x
    ∧ (∀ k y, xs !! k = Some y →
         F64.leb (Selector.fill_neg_inf y) (Selector.fill_neg_inf x) = true)
    ∧ (∀ k y, k < j → xs !! k = Some y →
         F64.ltb (Selector.fill_neg_inf y) (Selector.fill_neg_inf x) = true).
Proof.
  unfold Selector.idxmax. destruct (forallb F64.is_nan xs); [done|].
  destruct xs as [|x0 xs]; [done|]. cbn [fmap list_fmap]. intros [= Hj].
  apply argmax_from_spec in Hj as (m & Hm & Hbm & Hlt & Hrest);
    [|apply Forall_fmap, Forall_true; intros ?; apply fill_neg_inf_not_nan
     |apply fill_neg_inf_not_nan|lia].
  assert (∃ x, (x0 :: xs) !! j = Some x ∧ m = Selector.fill_neg_inf x)
    as (x & Hx & ->).
  { destruct Hm as [[-> ->]|[Hj Hm]]; [by exists x0|].
    rewrite list_lookup_fmap in Hm.
    destruct (xs !! (j - 1)) as [x|] eqn:Hx; [|done]. injection Hm as <-.
    exists x. split; [|done]. destruct j as [|j]; [lia|].
    by replace (S j - 1) with j in Hx by lia. }
  exists x. split_and!; [done| |].
  - intros [|k] y Hk; simplify_eq/=; [done|].
    apply (Hrest k). by rewrite list_lookup_fmap, Hk.
  - intros [|k] y Hkj Hk; simplify_eq/=; [by apply Hlt|].
    apply (Hrest k); [by rewrite list_lookup_fmap, Hk|lia].
Qed.

Lemma idxmax_None xs :
  Selector.idxmax xs = None ↔ Forall (λ x, F64.is_nan x = true) xs.
Proof.
  unfold Selector.idxmax.
  destruct (forallb F64.is_nan xs) eqn:Hall.
  - split; [|done]. intros _. apply Forall_forall. intros x Hx.
    rewrite forallb_forall in Hall. apply Hall. by apply list_elem_of_In.
  - split.
    + destruct xs; [done|]. done.
    + intros Hnan. assert (forallb F64.is_nan xs = true) as Heq; [|congruence].
      apply forallb_forall. intros x Hx. rewrite Forall_forall in Hnan.
      apply Hnan. by apply list_elem_of_In.
Qed.

(** ** The mean of a column *)

Lemma neg_zero_add x : F64.add F64.neg_zero x = x.
Proof. by destruct x as [[]|[]| |[] m e]. Qed.

Lemma sum_block_short a :
  length a < 8 → Selector.sum_block a = foldl F64.add F64.neg_zero a.
Proof.
  intros Hlen. do 8 (destruct a as [|? a]; [done|]). simpl in Hlen. lia.
Qed.

Lemma pairwise_sum_block fuel a :
  length a ≤ 128 → Selector.pairwise_sum fuel a = Selector.sum_block a.
Proof.
  intros Hlen. destruct fuel; simpl; [done|].
  by rewrite (proj2 (Nat.ltb_ge _ _) Hlen).
Qed.

Lemma split_point n : 128 < n → 0 < n / 2 - (n / 2) mod 8 < n.
Proof.
  intros Hn. pose proof (Nat.mod_upper_bound (n / 2) 8).
  pose proof (Nat.div_mod_eq n 2). pose proof (Nat.mod_upper_bound n 2). lia.
Qed.

(** Any fuel from the length of the array on gives the same sum. *)
Lemma pairwise_sum_fuel fuel fuel' a :
  length a ≤ fuel → length a ≤ fuel' →
  Selector.pairwise_sum fuel a = Selector.pairwise_sum fuel' a.
Proof.
  revert fuel' a. induction fuel as [|fuel IH]; intros fuel' a H1 H2.
  - rewrite !pairwise_sum_block by lia. done.
  - destruct fuel' as [|fuel']; [by rewrite !pairwise_sum_block by lia|].
    cbn [Selector.pairwise_sum]. destruct (128 <? length a) eqn:Hlong; [|done].
    apply Nat.ltb_lt in Hlong.
    pose proof (split_point (length a) Hlong) as Hn2.
    f_equal; apply IH; rewrite ?length_take, ?length_drop; lia.
Qed.

(** The pairwise sum of a long array is the sum of the pairwise sums of
    its two parts. *)
Lemma pairwise_sum_split a :
  128 < length a →
  let n2 := length a / 2 - (length a / 2) mod 8 in
  Selector.pairwise_sum (length a) a
  = F64.add (Selector.pairwise_sum (length (take n2 a)) (take n2 a))
            (Selector.pairwise_sum (length (drop n2 a)) (drop n2 a)).
Proof.
  intros Hlong n2. subst n2. pose proof (split_point (length a) Hlong) as Hn2.
  rewrite (pairwise_sum_fuel (length a) (S (length a)) a) by lia.
  cbn [Selector.pairwise_sum]. rewrite (proj2 (Nat.ltb_lt _ _) Hlong).
  f_equal; apply pairwise_sum_fuel; rewrite ?length_take, ?length_drop; lia.
Qed.

Lemma filter_not_nan_all col :
  Forall (λ x, F64.is_nan x = false) col →
  filter (λ x, F64.is_nan x = false) col = col
  ∧ (λ x, if F64.is_nan x then F64.zero else x) <$> col = col.
Proof.
  induction 1 as [|x col Hx _ [IH1 IH2]]; [done|].
  rewrite filter_cons, decide_True by done. cbn [fmap list_fmap].
  rewrite Hx. split; f_equal; [exact IH1 | exact IH2].
Qed.

(** On a column of fewer than eight scores, none missing, the mean of
    pandas is the arithmetic mean, the scores added from left to right. *)
Lemma mean_arithmetic col :
  length col < 8 → Forall (λ x, F64.is_nan x = false) col →
  Selector.mean col = arithmetic_mean col.
Proof.
  intros Hlen Hcol. unfold Selector.mean.
  destruct (filter_not_nan_all col Hcol) as [-> ->].
  destruct col as [|s rest]; [done|].
  cbn [length Nat.eqb arithmetic_mean Selector.np_sum]. f_equal.
  rewrite pairwise_sum_block, sum_block_short by (simpl in *; lia).
  rewrite neg_zero_add. cbn [foldl]. by rewrite neg_zero_add.
Qed.

Lemma mean_all_nan col :
  Forall (λ x, F64.is_nan x = true) col → Selector.mean col = F64.nan.
Proof.
  intros Hcol. unfold Selector.mean.
  assert (filter (λ x, F64.is_nan x = false) col = []) as ->; [|done].
  induction Hcol as [|x col Hx _ IH]; [done|].
  rewrite filter_cons, decide_False by congruence. exact IH.
Qed.

(** ** Steps 2 and 3 *)

Lemma avg_f1_Ok fs f a :
  Selector.avg_f1 fs f = Selector.Ok a
  ↔ ∃ col, Selector.macro_f1 fs f = Selector.Ok col ∧ a = Selector.mean col.
Proof.
  unfold Selector.avg_f1. destruct (Selector.macro_f1 fs f) as [col|e]; simpl.
  - split; [intros [= <-]; by exists col | by intros (c & [= <-] & ->)].
  - split; [done | by intros (c & ? & _)].
Qed.

Lemma iteration_scores_Ok fs files scores :
  Selector.iteration_scores fs files = Selector.Ok scores →
  scores.*1 = files
  ∧ ∀ i f a, scores !! i = Some (f, a) → Selector.avg_f1 fs f = Selector.Ok a.
Proof.
  revert scores. induction files as [|f files IH]; intros scores; simpl.
  - intros [= <-]. by split.
  - destruct (Selector.avg_f1 fs f) as [a|e] eqn:Ha; simpl; [|done].
    destruct (Selector.iteration_scores fs files) as [rest|e] eqn:Hrest;
      simpl; [|done].
    intros [= <-]. destruct (IH rest eq_refl) as [Hfst Havg].
    split; [simpl; f_equal; exact Hfst|].
    intros [|i] g b Hi; simplify_eq/=; [done|]. by apply (Havg i).
Qed.

Lemma iteration_scores_total fs files :
  (∀ f, f ∈ files → ∃ col, Selector.macro_f1 fs f = Selector.Ok col) →
  ∃ scores, Selector.iteration_scores fs files = Selector.Ok scores.
Proof.
  induction files as [|f files IH]; intros Hfiles; simpl; [by eexists|].
  destruct (Hfiles f) as [col Hcol]; [by left|].
  unfold Selector.avg_f1 at 1. rewrite Hcol. simpl.
  destruct IH as [rest ->]; [intros g Hg; apply Hfiles; by right|].
  simpl. by eexists.
Qed.

Lemma best_row_Ok scores best avg :
  Selector.best_row scores = Selector.Ok (best, avg) →
  ∃ j, scores !! j = Some (best, avg)
    ∧ (∀ k f m, scores !! k = Some (f, m) →
         F64.leb (Selector.fill_neg_inf m) (Selector.fill_neg_inf avg) = true)
    ∧ (∀ k f m, k < j → scores !! k = Some (f, m) →
         F64.ltb (Selector.fill_neg_inf m) (Selector.fill_neg_inf avg) = true).
Proof.
  unfold Selector.best_row.
  destruct (Selector.idxmax scores.*2) as [j|] eqn:Hj; [|done].
  apply idxmax_spec in Hj as (x & Hx & Hle & Hlt).
  rewrite list_lookup_fmap in Hx.
  destruct (scores !! j) as [[f a]|] eqn:Hsj; simplify_eq/=.
  intros [= -> ->]. exists j. split_and!; [done| |].
  - intros k f' m' Hk. apply (Hle k). by rewrite list_lookup_fmap, Hk.
  - intros k f' m' Hkj Hk. apply (Hlt k); [done|].
    by rewrite list_lookup_fmap, Hk.
Qed.

Lemma best_row_total scores :
  (∃ f m, (f, m) ∈ scores ∧ F64.is_nan m = false) →
  ∃ best avg, Selector.best_row scores = Selector.Ok (best, avg).
Proof.
  intros (f & m & Hf & Hm). unfold Selector.best_row.
  destruct (Selector.idxmax scores.*2) as [j|] eqn:Hj.
  - apply idxmax_spec in Hj as (x & Hx & _).
    rewrite list_lookup_fmap in Hx.
    destruct (scores !! j) as [[g a]|]; simplify_eq/=. by eexists _, _.
  - apply idxmax_None in Hj. rewrite Forall_forall in Hj.
    rewrite (Hj m) in Hm; [done|].
    apply list_elem_of_fmap. by exists (f, m).
Qed.

Lemma best_row_error scores e :
  Selector.best_row scores = Selector.Raise e → e = Selector.PandasError.
Proof.
  unfold Selector.best_row. intros H. by repeat (case_match; simplify_eq).
Qed.

Lemma scores_lookup fs files scores k f :
  Selector.iteration_scores fs files = Selector.Ok scores →
  files !! k = Some f →
  ∃ col, scores !! k = Some (f, Selector.mean col)
         ∧ Selector.macro_f1 fs f = Selector.Ok col.
Proof.
  intros Hsc Hk. apply iteration_scores_Ok in Hsc as [Hfst Havg].
  rewrite <- Hfst, list_lookup_fmap in Hk.
  destruct (scores !! k) as [[g a]|] eqn:Hsk; simplify_eq/=.
  apply Havg, avg_f1_Ok in Hsk as (col & Hcol & ->). by exists col.
Qed.

Lemma scores_elem fs files scores f c :
  Selector.iteration_scores fs files = Selector.Ok scores →
  f ∈ files → Selector.macro_f1 fs f = Selector.Ok c →
  ∃ k, files !! k = Some f ∧ scores !! k = Some (f, Selector.mean c).
Proof.
  intros Hsc [k Hk]%list_elem_of_lookup Hc.
  destruct (scores_lookup fs _ scores k f Hsc Hk) as (col & Hsk & Hcol).
  exists k. split; [done|]. congruence.
Qed.

Lemma winner_Ok fs best avg :
  winner fs = Selector.Ok (best, avg) →
  ∃ scores, Selector.iteration_scores fs (Selector.fold_score_files fs)
            = Selector.Ok scores
          ∧ Selector.best_row scores = Selector.Ok (best, avg).
Proof.
  unfold winner.
  destruct (Selector.iteration_scores fs _) as [scores|e]; simpl; [|done].
  intros H. by exists scores.
Qed.

(** The winner is a fold-score file with its mean; a NaN counting as
    -inf, no file has a greater mean and no earlier file an equal one. *)
Lemma winner_spec fs best avg :
  winner fs = Selector.Ok (best, avg) →
  ∃ j col,
    Selector.fold_score_files fs !! j = Some best
    ∧ Selector.macro_f1 fs best = Selector.Ok col ∧ avg = Selector.mean col
    ∧ (∀ k f c, Selector.fold_score_files fs !! k = Some f →
         Selector.macro_f1 fs f = Selector.Ok c →
         F64.leb (Selector.fill_neg_inf (Selector.mean c))
                 (Selector.fill_neg_inf avg) = true
         ∧ (k < j → F64.ltb (Selector.fill_neg_inf (Selector.mean c))
                            (Selector.fill_neg_inf avg) = true)).
Proof.
  intros (scores & Hsc & Hbest)%winner_Ok.
  apply best_row_Ok in Hbest as (j & Hj & Hle & Hlt).
  pose proof (iteration_scores_Ok fs _ scores Hsc) as [Hfst Havg].
  assert (Selector.fold_score_files fs !! j = Some best) as Hjb.
  { by rewrite <- Hfst, list_lookup_fmap, Hj. }
  destruct (scores_lookup fs _ scores j best Hsc Hjb) as (col & Hsj & Hcol).
  exists j, col. split_and!; [done|done|congruence|].
  intros k f c Hk Hc.
  destruct (scores_lookup fs _ scores k f Hsc Hk) as (c' & Hsk & Hc').
  assert (c' = c) as -> by congruence.
  split; [by apply (Hle k f) | intros Hkj; by apply (Hlt k f)].
Qed.

Lemma winner_total fs :
  readable fs → some_mean fs (λ m, F64.is_nan m = false) →
  ∃ best avg, winner fs = Selector.Ok (best, avg).
Proof.
  intros Hread (f0 & c0 & Hf0 & Hc0 & Hm0).
  destruct (iteration_scores_total fs _ Hread) as [scores Hsc].
  destruct (best_row_total scores) as (best & avg & Hbest).
  { destruct (scores_elem fs _ scores f0 c0 Hsc Hf0 Hc0) as (k & _ & Hk).
    exists f0, (Selector.mean c0). split; [|done].
    by eapply list_elem_of_lookup_2. }
  exists best, avg. unfold winner. by rewrite Hsc.
Qed.

(** A defined mean above -inf keeps every NaN from winning. *)
Lemma winner_not_nan fs best avg :
  winner fs = Selector.Ok (best, avg) →
  some_mean fs (λ m, F64.ltb F64.neg_inf m = true) →
  F64.is_nan avg = false.
Proof.
  intros (j & col & _ & _ & -> & Hmax)%winner_spec (f & c & Hf & Hc & Hm).
  apply list_elem_of_lookup in Hf as [k Hk].
  destruct (Hmax k f c Hk Hc) as [Hle _].
  destruct (F64.is_nan (Selector.mean col)) eqn:Hnan; [|done].
  unfold Selector.fill_neg_inf at 2 in Hle. rewrite Hnan in Hle.
  apply leb_neg_inf_inv in Hle.
  assert (F64.is_nan (Selector.mean c) = false) as Hc'.
  { by destruct (Selector.mean c). }
  rewrite fill_neg_inf_id in Hle by done. by rewrite Hle in Hm.
Qed.

Lemma winner_maximal fs best avg :
  winner fs = Selector.Ok (best, avg) → F64.is_nan avg = false →
  ∀ f c, f ∈ Selector.fold_score_files fs →
         Selector.macro_f1 fs f = Selector.Ok c →
         F64.is_nan (Selector.mean c) = false →
         F64.leb (Selector.mean c) avg = true.
Proof.
  intros (j & col & _ & _ & -> & Hmax)%winner_spec Hnan f c Hf Hc Hm.
  apply list_elem_of_lookup in Hf as [k Hk].
  destruct (Hmax k f c Hk Hc) as [Hle _].
  by rewrite !fill_neg_inf_id in Hle.
Qed.

(** ** The order of [sorted] *)

Global Instance str_le_refl : Reflexive Str.le.
Proof. intros a. unfold Str.le. reflexivity. Qed.

Global Instance str_le_trans : Transitive Str.le.
Proof. intros a b c. unfold Str.le. apply transitivity. Qed.

Global Instance str_le_total : Total Str.le.
Proof. intros a b. unfold Str.le. apply total, _. Qed.

Lemma sorted_StronglySorted l : StronglySorted Str.le (Selector.sorted l).
Proof. apply StronglySorted_merge_sort; apply _. Qed.

Lemma StronglySorted_lookup {A} (R : relation A) `{!Reflexive R} l i j x y :
  StronglySorted R l → i ≤ j → l !! i = Some x → l !! j = Some y → R x y.
Proof.
  intros Hl. revert i j. induction Hl as [|z l Hl IH Hz]; intros i j Hij Hi Hj.
  - done.
  - destruct i as [|i], j as [|j]; simplify_eq/=; [done| |lia|].
    + rewrite Forall_forall in Hz. apply Hz. by eapply list_elem_of_lookup_2.
    + apply (IH i j); [lia|done..].
Qed.

(** ** Claims on the choice of the best iteration *)

Lemma nan_dir_fold_score_files :
  Selector.fold_score_files nan_dir = [folds_name "iter1"].
Proof. vm_compute. reflexivity. Qed.

Lemma nan_dir_winner : winner nan_dir = Selector.Raise Selector.PandasError.
Proof. vm_compute. reflexivity. Qed.

Lemma no_column_dir_fold_score_files :
  Selector.fold_score_files no_column_dir = [folds_name "iter1"].
Proof. vm_compute. reflexivity. Qed.

Lemma no_column_dir_winner :
  winner no_column_dir = Selector.Raise Selector.PandasError.
Proof. vm_compute. reflexivity. Qed.

Lemma half_nan_dir_fold_score_files :
  Selector.fold_score_files half_nan_dir = [folds_name "iter1"; folds_name "iter2"].
Proof. vm_compute. reflexivity. Qed.

Lemma half_nan_dir_winner :
  winner half_nan_dir = Selector.Ok (folds_name "iter1", dec 5 1).
Proof. vm_compute. reflexivity. Qed.

(** C4, as stated, fails on three sets that are not empty.  Of the set
    holding one fold-score file whose only Macro-F1 cell is empty no file
    is chosen: the mean is NaN and the run ends in an error of pandas.
    Nor is a file chosen of the set holding one fold-score file that has
    no Macro-F1 column.  And of the two files with the score 0.5 and with
    an empty cell the first is chosen, but its mean 0.5 is not greater
    than or equal to the mean NaN of the second. *)
Lemma no_winner_without_defined_mean :
  ¬ chooses_maximal nan_dir ∧ ¬ chooses_maximal no_column_dir
  ∧ ¬ chooses_maximal half_nan_dir.
Proof.
  split_and!; intros H; destruct H as (best & avg & Hw & Hmax).
  - by rewrite nan_dir_fold_score_files.
  - rewrite nan_dir_winner in Hw. discriminate Hw.
  - by rewrite no_column_dir_fold_score_files.
  - rewrite no_column_dir_winner in Hw. discriminate Hw.
  - by rewrite half_nan_dir_fold_score_files.
  - rewrite half_nan_dir_winner in Hw. injection Hw as <- <-.
    assert (F64.leb (Selector.mean [F64.nan]) (dec 5 1) = true) as Hle.
    { apply (Hmax (folds_name "iter2")).
      - rewrite half_nan_dir_fold_score_files.
        apply list_elem_of_further, list_elem_of_here.
      - vm_compute. reflexivity. }
    vm_compute in Hle. discriminate Hle.
Qed.

(** C4, amended: for every set of fold-score files that are tables with
    a Macro-F1 column, at least one of them with a mean that is not NaN,
    the selector chooses a file of the set.  The means are the binary64
    means pandas computes (on a column of fewer than eight scores, none
    missing: the scores added from left to right, divided by their
    number).  A NaN mean counting as -inf, the mean of the chosen file is
    greater than or equal to the mean of every file of the set; it is
    itself not NaN as soon as some mean exceeds -inf, and is then greater
    than or equal to every mean that is not NaN. *)
Theorem winner_has_maximal_mean fs :
  readable fs → some_mean fs (λ m, F64.is_nan m = false) →
  ∃ best col,
    winner fs = Selector.Ok (best, Selector.mean col)
    ∧ best ∈ Selector.fold_score_files fs
    ∧ Selector.macro_f1 fs best = Selector.Ok col
    ∧ (∀ f c, f ∈ Selector.fold_score_files fs →
         Selector.macro_f1 fs f = Selector.Ok c →
         F64.leb (Selector.fill_neg_inf (Selector.mean c))
                 (Selector.fill_neg_inf (Selector.mean col)) = true
         ∧ (length c < 8 → Forall (λ x, F64.is_nan x = false) c →
            Selector.mean c = arithmetic_mean c))
    ∧ (some_mean fs (λ m, F64.ltb F64.neg_inf m = true) →
       F64.is_nan (Selector.mean col) = false)
    ∧ (F64.is_nan (Selector.mean col) = false →
       ∀ f c, f ∈ Selector.fold_score_files fs →
              Selector.macro_f1 fs f = Selector.Ok c →
              F64.is_nan (Selector.mean c) = false →
              F64.leb (Selector.mean c) (Selector.mean col) = true).
Proof.
  intros Hread Hsome.
  destruct (winner_total fs Hread Hsome) as (best & avg & Hw).
  destruct (winner_spec fs best avg Hw) as (j & col & Hj & Hcol & -> & Hmax).
  exists best, col. split_and!; [done|by eapply list_elem_of_lookup_2|done| | |].
  - intros f c [k Hk]%list_elem_of_lookup Hc.
    split; [by apply (Hmax k f c)|]. apply mean_arithmetic.
  - by apply (winner_not_nan fs best).
  - by apply (winner_maximal fs best).
Qed.

Lemma example_dir_fold_score_files :
  Selector.fold_score_files example_dir = [folds_name "iter1"; folds_name "iter2"].
Proof. vm_compute. reflexivity. Qed.

Lemma example_dir_readable : readable example_dir.
Proof.
  unfold readable. rewrite example_dir_fold_score_files. intros f Hf.
  apply elem_of_cons in Hf as [->|Hf]; [|apply elem_of_cons in Hf as [->|Hf]].
  - eexists. vm_compute. reflexivity.
  - eexists. vm_compute. reflexivity.
  - by apply not_elem_of_nil in Hf.
Qed.

Lemma example_dir_some_mean : some_mean example_dir (λ m, F64.is_nan m = false).
Proof.
  exists (folds_name "iter1"), [dec 5 1; dec 75 2]. split_and!.
  - rewrite example_dir_fold_score_files. apply list_elem_of_here.
  - vm_compute. reflexivity.
  - vm_compute. reflexivity.
Qed.

Lemma winner_has_maximal_mean_witness :
  (readable example_dir ∧ some_mean example_dir (λ m, F64.is_nan m = false))
  ∧ ∃ best col,
      winner example_dir = Selector.Ok (best, Selector.mean col)
      ∧ best ∈ Selector.fold_score_files example_dir
      ∧ Selector.macro_f1 example_dir best = Selector.Ok col
      ∧ (∀ f c, f ∈ Selector.fold_score_files example_dir →
           Selector.macro_f1 example_dir f = Selector.Ok c →
           F64.leb (Selector.fill_neg_inf (Selector.mean c))
                   (Selector.fill_neg_inf (Selector.mean col)) = true
           ∧ (length c < 8 → Forall (λ x, F64.is_nan x = false) c →
              Selector.mean c = arithmetic_mean c))
      ∧ (some_mean example_dir (λ m, F64.ltb F64.neg_inf m = true) →
         F64.is_nan (Selector.mean col) = false)
      ∧ (F64.is_nan (Selector.mean col) = false →
         ∀ f c, f ∈ Selector.fold_score_files example_dir →
                Selector.macro_f1 example_dir f = Selector.Ok c →
                F64.is_nan (Selector.mean c) = false →
                F64.leb (Selector.mean c) (Selector.mean col) = true).
Proof.
  split; [exact (conj example_dir_readable example_dir_some_mean)|].
  exact (winner_has_maximal_mean example_dir example_dir_readable
           example_dir_some_mean).
Defined.

Lemma neg_inf_dir_fold_score_files :
  Selector.fold_score_files neg_inf_dir
  = [folds_name "iter1"; folds_name "iter2"; folds_name "iter3"].
Proof. vm_compute. reflexivity. Qed.

Lemma neg_inf_dir_winner :
  winner neg_inf_dir = Selector.Ok (folds_name "iter1", F64.nan).
Proof. vm_compute. reflexivity. Qed.

Lemma neg_inf_dir_macro_f1 f c :
  f ∈ Selector.fold_score_files neg_inf_dir →
  Selector.macro_f1 neg_inf_dir f = Selector.Ok c →
  c = [F64.nan] ∨ c = [F64.neg_inf].
Proof.
  rewrite neg_inf_dir_fold_score_files. intros Hf Hc.
  apply elem_of_cons in Hf as [->|Hf];
    [|apply elem_of_cons in Hf as [->|Hf];
      [|apply elem_of_cons in Hf as [->|Hf]; [|by apply not_elem_of_nil in Hf]]];
    vm_compute in Hc; injection Hc as <-; auto.
Qed.

(** C9, as stated, fails: of three fold-score files in sorted order, the
    first with an empty Macro-F1 cell and the other two with the single
    score -inf, the greatest mean is -inf, shared by the second and the
    third file, and the selector picks the first file, whose mean is
    NaN. *)
Lemma nan_file_wins_over_tied_files : ¬ first_of_tied_wins neg_inf_dir.
Proof.
  intros H.
  destruct (H (folds_name "iter1") F64.nan F64.neg_inf neg_inf_dir_winner)
    as [Heq _]; [|discriminate Heq].
  split.
  - exists (folds_name "iter2"), [F64.neg_inf]. split_and!.
    + rewrite neg_inf_dir_fold_score_files. apply list_elem_of_further, list_elem_of_here.
    + vm_compute. reflexivity.
    + vm_compute. reflexivity.
  - intros f c Hf Hc Hnan.
    destruct (neg_inf_dir_macro_f1 f c Hf Hc) as [->| ->].
    + vm_compute in Hnan. discriminate Hnan.
    + vm_compute. reflexivity.
Qed.

Lemma ltb_neg_inf_false x : F64.ltb x F64.neg_inf = false.
Proof. by destruct x as [[]|[]| |[] m e]. Qed.

(** C9, amended: the fold-score files are visited in lexicographically
    sorted order and the selector picks one of them.  When the mean of the
    picked file is a number, it is the maximal mean (no mean that is not
    NaN exceeds it), and every file whose mean is equal to it stands at the
    position of the picked file or later, its name not below the picked
    one: of the files that tie on the maximal mean, the first in sorted
    order is picked.  The mean of the picked file is NaN only when it is
    the first file in sorted order and every mean that is not NaN is
    -inf. *)
Theorem tie_goes_to_first_sorted_name fs best avg :
  winner fs = Selector.Ok (best, avg) →
  StronglySorted Str.le (Selector.fold_score_files fs)
  ∧ ∃ j col,
      Selector.fold_score_files fs !! j = Some best
      ∧ Selector.macro_f1 fs best = Selector.Ok col ∧ avg = Selector.mean col
      ∧ (F64.is_nan avg = false →
         (∀ k f c, Selector.fold_score_files fs !! k = Some f →
                   Selector.macro_f1 fs f = Selector.Ok c →
                   F64.is_nan (Selector.mean c) = false →
                   F64.leb (Selector.mean c) avg = true)
         ∧ (∀ k f c, Selector.fold_score_files fs !! k = Some f →
                     Selector.macro_f1 fs f = Selector.Ok c →
                     F64.eqb (Selector.mean c) avg = true →
                     j ≤ k ∧ Str.le best f))
      ∧ (F64.is_nan avg = true →
         j = 0
         ∧ ∀ k f c, Selector.fold_score_files fs !! k = Some f →
                    Selector.macro_f1 fs f = Selector.Ok c →
                    F64.is_nan (Selector.mean c) = false →
                    Selector.mean c = F64.neg_inf).
Proof.
  intros Hw.
  pose proof (sorted_StronglySorted
    (Selector.glob "stacker_best_model_folds_" ".csv" fs)) as Hsorted.
  fold (Selector.fold_score_files fs) in Hsorted.
  split; [done|].
  destruct (winner_spec fs best avg Hw) as (j & col & Hj & Hcol & -> & Hmax).
  exists j, col. split_and!; [done..| |].
  - intros Hnan. split.
    + intros k f c Hk Hc Hm. destruct (Hmax k f c Hk Hc) as [Hle _].
      by rewrite !fill_neg_inf_id in Hle.
    + intros k f c Hk Hc Heq.
      assert (j ≤ k) as Hjk.
      { destruct (decide (j ≤ k)) as [|Hn]; [done|]. exfalso.
        destruct (Hmax k f c Hk Hc) as [_ Hlt].
        assert (F64.is_nan (Selector.mean c) = false) as Hm.
        { unfold F64.eqb, SpecFloat.SFeqb in Heq. by destruct (Selector.mean c). }
        rewrite !fill_neg_inf_id in Hlt by done.
        rewrite (eqb_not_ltb _ _ Heq) in Hlt. discriminate Hlt. lia. }
      split; [done|].
      by apply (StronglySorted_lookup Str.le (Selector.fold_score_files fs) j k).
  - intros Hnan.
    assert (Selector.fill_neg_inf (Selector.mean col) = F64.neg_inf) as Hfill.
    { unfold Selector.fill_neg_inf. by rewrite Hnan. }
    rewrite Hfill in Hmax. split.
    + destruct j as [|j]; [done|]. exfalso.
      destruct (lookup_lt_is_Some_2 (Selector.fold_score_files fs) 0) as [f Hf].
      { apply lookup_lt_Some in Hj. lia. }
      pose proof (winner_Ok fs _ _ Hw) as (scores & Hsc & _).
      destruct (scores_lookup fs _ scores 0 f Hsc Hf) as (c & _ & Hc).
      destruct (Hmax 0 f c Hf Hc) as [_ Hlt].
      rewrite ltb_neg_inf_false in Hlt. discriminate Hlt. lia.
    + intros k f c Hk Hc Hm. destruct (Hmax k f c Hk Hc) as [Hle _].
      rewrite fill_neg_inf_id in Hle by done. by apply leb_neg_inf_inv.
Qed.

Lemma example_dir_winner :
  winner example_dir = Selector.Ok (folds_name "iter1", dec 625 3).
Proof. vm_compute. reflexivity. Qed.

Lemma tie_goes_to_first_sorted_name_witness :
  winner example_dir = Selector.Ok (folds_name "iter1", dec 625 3)
  ∧ Selector.avg_f1 example_dir (folds_name "iter2") = Selector.Ok (dec 625 3)
  ∧ StronglySorted Str.le (Selector.fold_score_files example_dir)
  ∧ ∃ j col,
      Selector.fold_score_files example_dir !! j = Some (folds_name "iter1")
      ∧ Selector.macro_f1 example_dir (folds_name "iter1") = Selector.Ok col
      ∧ dec 625 3 = Selector.mean col
      ∧ (F64.is_nan (dec 625 3) = false →
         (∀ k f c, Selector.fold_score_files example_dir !! k = Some f →
                   Selector.macro_f1 example_dir f = Selector.Ok c →
                   F64.is_nan (Selector.mean c) = false →
                   F64.leb (Selector.mean c) (dec 625 3) = true)
         ∧ (∀ k f c, Selector.fold_score_files example_dir !! k = Some f →
                     Selector.macro_f1 example_dir f = Selector.Ok c →
                     F64.eqb (Selector.mean c) (dec 625 3) = true →
                     j ≤ k ∧ Str.le (folds_name "iter1") f))
      ∧ (F64.is_nan (dec 625 3) = true →
         j = 0
         ∧ ∀ k f c, Selector.fold_score_files example_dir !! k = Some f →
                    Selector.macro_f1 example_dir f = Selector.Ok c →
                    F64.is_nan (Selector.mean c) = false →
                    Selector.mean c = F64.neg_inf).
Proof.
  assert (Selector.avg_f1 example_dir (folds_name "iter2")
          = Selector.Ok (dec 625 3)) as H2.
  { vm_compute. reflexivity. }
  split; [exact example_dir_winner|]. split; [exact H2|].
  exact (tie_goes_to_first_sorted_name example_dir _ _ example_dir_winner).
Defined.

(** ** Iteration tags and file names *)

Lemma take_digits_digits s :
  Forall (λ c, Str.isdigit c = true) (Str.take_digits s).
Proof.
  induction s as [|c s IH]; simpl; [constructor|].
  destruct (Str.isdigit c) eqn:Hc; by constructor.
Qed.

Lemma match_iter_is_tag s t : Selector.match_iter s = Some t → is_tag t.
Proof.
  unfold Selector.match_iter. case_bool_decide; [|done].
  pose proof (take_digits_digits (drop 4 s)) as Hds.
  destruct (Str.take_digits (drop 4 s)) as [|d ds] eqn:Heq; [done|].
  intros [= <-]. by exists (d :: ds).
Qed.

Lemma search_iter_is_tag s t : Selector.search_iter s = Some t → is_tag t.
Proof.
  induction s as [|c s IH]; cbn [Selector.search_iter];
    (destruct (Selector.match_iter _) eqn:Hm;
       [intros [= <-]; by eapply match_iter_is_tag|]);
    [done | exact IH].
Qed.

(** Two tags followed by the separator agree when the names agree. *)
Lemma digits_sep_inj ds ds' (k k' : str) :
  Forall (λ c, Str.isdigit c = true) ds →
  Forall (λ c, Str.isdigit c = true) ds' →
  ds ++ "_"%char :: k = ds' ++ "_"%char :: k' → ds = ds'.
Proof.
  intros Hds. revert ds'. induction Hds as [|d ds Hd _ IH]; intros ds' Hds' Heq.
  - destruct Hds' as [|d' ds' Hd' _]; [done|].
    simpl in Heq. injection Heq as <- _. done.
  - destruct Hds' as [|d' ds' Hd' Hds']; simpl in Heq.
    + injection Heq as -> _. done.
    + injection Heq as <- Heq. f_equal. by apply IH.
Qed.

Lemma replace_from_miss old new c (s : str) :
  ¬ old `prefix_of` c :: s →
  Str.replace_from old new 0 (c :: s) = c :: Str.replace_from old new 0 s.
Proof. intros H. simpl. by rewrite bool_decide_eq_false_2. Qed.

Lemma replace_from_skip old new (a rest : str) :
  Str.replace_from old new (length a) (a ++ rest)
  = Str.replace_from old new 0 rest.
Proof.
  induction a as [|c a IH]; simpl; [|done].
  destruct rest; simpl; [done|]. done.
Qed.

Lemma replace_from_hit old new c (s rest : str) :
  old = c :: s →
  Str.replace_from old new 0 (old ++ rest)
  = new ++ Str.replace_from old new 0 rest.
Proof.
  intros ->. cbn [app Str.replace_from].
  rewrite bool_decide_eq_true_2 by (by exists rest).
  f_equal. replace (length (c :: s) - 1) with (length s) by (simpl; lia).
  apply replace_from_skip.
Qed.

Lemma replace_tag t new (rest : str) :
  is_tag t →
  Str.replace t new ("stacker_binary_metrics_" ++ t ++ rest)
  = "stacker_binary_metrics_" ++ new ++ Str.replace t new rest.
Proof.
  intros (ds & -> & _ & _).
  change (Str.replace ("iter" ++ ds) new)
    with (Str.replace_from ("iter" ++ ds) new 0).
  cbn [list_ascii_of_string app].
  do 23 (rewrite replace_from_miss by (intros [k Hk]; simplify_eq/=)).
  do 23 f_equal.
  exact (replace_from_hit ("i"%char :: "t"%char :: "e"%char :: "r"%char :: ds)
           new "i"%char ("t"%char :: "e"%char :: "r"%char :: ds) rest eq_refl).
Qed.

Lemma glob_match_prefix pre suf name :
  Selector.glob_match pre suf name → ∃ rest, name = pre ++ rest.
Proof. intros [[rest ->] _]. by exists rest. Qed.

Lemma new_fname_metrics t f :
  is_tag t →
  Selector.glob_match ("stacker_binary_metrics_" ++ t ++ "_") ".csv" f →
  ∃ rest,
    f = "stacker_binary_metrics_" ++ t ++ rest
    ∧ Selector.new_fname t f
      = "stacker_binary_metrics_" ++ Selector.across_iterations
        ++ Str.replace t Selector.across_iterations rest.
Proof.
  intros Ht [rest ->]%glob_match_prefix.
  exists ("_" ++ rest). rewrite <- !(assoc_L (++)). split; [done|].
  unfold Selector.new_fname. by apply replace_tag.
Qed.

(** Equations between file names are settled character by character. *)
Ltac name_clash H := simpl in H; simplify_eq/=.

(** A file of another iteration is neither a source nor a destination of
    step 4. *)
Lemma foreign_name_distinct t t' name :
  is_tag t → is_tag t' → t' ≠ t → belongs_to t' name →
  name ≠ "stacker_best_model_" ++ t ++ ".txt"
  ∧ name ≠ "stacker_best_model_" ++ t ++ ".pkl"
  ∧ name ≠ ("stacker_best_model_across_iterations.txt" : str)
  ∧ name ≠ ("stacker_best_model_across_iterations.pkl" : str)
  ∧ ∀ f, Selector.glob_match ("stacker_binary_metrics_" ++ t ++ "_") ".csv" f →
         name ≠ f ∧ name ≠ Selector.new_fname t f.
Proof.
  intros Ht Ht' Hne Hname.
  assert (∀ f, Selector.glob_match ("stacker_binary_metrics_" ++ t ++ "_") ".csv" f →
    ∃ r1 r2, f = "stacker_binary_metrics_" ++ t ++ "_" ++ r1
      ∧ Selector.new_fname t f = "stacker_binary_metrics_across_iterations" ++ r2)
    as Hf.
  { intros f Hm. destruct (new_fname_metrics t f Ht Hm) as (rest & _ & Hnew).
    apply glob_match_prefix in Hm as [r1 ->]. exists r1, (Str.replace t Selector.across_iterations rest).
    split; [by rewrite <- !(assoc_L (++))|]. by rewrite Hnew. }
  destruct Ht as (ds & -> & _ & Hds), Ht' as (ds' & -> & _ & Hds').
  destruct Hname as [->|[->|[->|[r ->]%glob_match_prefix]]].
  - split_and!; try (intros H; by name_clash H).
    intros f (r1 & r2 & -> & ->)%Hf. split; intros H; by name_clash H.
  - split_and!; try (intros H; by name_clash H).
    + intros H. name_clash H. by apply app_inv_tail in H as ->.
    + intros H. name_clash H. apply app_inj_2 in H as [_ H]; done.
    + intros f (r1 & r2 & -> & ->)%Hf. split; intros H; by name_clash H.
  - split_and!; try (intros H; by name_clash H).
    + intros H. name_clash H. apply app_inj_2 in H as [_ H]; done.
    + intros H. name_clash H. by apply app_inv_tail in H as ->.
    + intros f (r1 & r2 & -> & ->)%Hf. split; intros H; by name_clash H.
  - split_and!; try (intros H; by name_clash H).
    intros f (r1 & r2 & -> & ->)%Hf. split; intros H; [|by name_clash H].
    name_clash H. rewrite <- !(assoc_L (++)) in H. simpl in H.
    by apply digits_sep_inj in H as ->.
Qed.

(** ** Step 4: copies and the directory *)

Lemma elem_of_glob (pre suf : str) (fs : gmap str Selector.file) (f : str) :
  f ∈ Selector.glob pre suf fs ↔ Selector.glob_match pre suf f ∧ is_Some (fs !! f).
Proof.
  unfold Selector.glob. rewrite list_elem_of_filter, list_elem_of_fmap.
  split.
  - intros [Hm ([g x] & -> & Hgx)]. split; [done|].
    apply elem_of_map_to_list in Hgx. by exists x.
  - intros [Hm [x Hx]]. split; [done|]. exists (f, x).
    split; [done|]. by apply elem_of_map_to_list.
Qed.

(** The copy of an existing file to another name succeeds. *)
Lemma copy_Some (src dst : str) (st : Selector.state) (x : Selector.file) :
  Selector.dir st !! src = Some x → src ≠ dst →
  Selector.copy src dst st
  = (Selector.State (<[dst := x]> (Selector.dir st))
       (Selector.copies st ++ [(src, dst)]), None).
Proof.
  intros Hx Hne. unfold Selector.copy. rewrite Hx. by rewrite decide_False.
Qed.

(** The copy of a missing file raises and changes nothing. *)
Lemma copy_None (src dst : str) (st : Selector.state) :
  Selector.dir st !! src = None →
  Selector.copy src dst st
  = (st, Some (Selector.FileNotFoundError "No such file or directory"
                 (Some (Selector.path src)))).
Proof. intros Hx. unfold Selector.copy. by rewrite Hx. Qed.

Lemma tag_pkl_not_txt_dst (t : str) : pkl_src t ≠ txt_dst.
Proof.
  unfold pkl_src, txt_dst. intros H. name_clash H.
  change (t ++ ".pkl" = "across_iterations" ++ ".txt") in H.
  apply app_inj_2 in H as [_ H]; done.
Qed.

(** The model files of a tag are not the fixed names they are copied
    to. *)
Lemma model_src_not_dst (t : str) :
  is_tag t → txt_src t ≠ txt_dst ∧ pkl_src t ≠ pkl_dst.
Proof.
  intros (ds & -> & _). unfold txt_src, pkl_src, txt_dst, pkl_dst.
  split; intros H; by name_clash H.
Qed.

Lemma copy_if_exists_eq (src dst : str) (st : Selector.state) :
  src ≠ dst →
  Selector.copy_if_exists src dst st
  = (Selector.State
       (match Selector.dir st !! src with
        | Some x => <[dst := x]> (Selector.dir st)
        | None => Selector.dir st
        end)
       (Selector.copies st
        ++ match Selector.dir st !! src with
           | Some _ => [(src, dst)]
           | None => []
           end),
     None).
Proof.
  intros Hne. unfold Selector.copy_if_exists.
  destruct (Selector.dir st !! src) as [x|] eqn:Hx.
  - rewrite bool_decide_eq_true_2 by (by exists x).
    by rewrite (copy_Some src dst st x Hx Hne).
  - rewrite bool_decide_eq_false_2; [|by intros [? ?]].
    rewrite (right_id_L [] (++)). by destruct st.
Qed.

Lemma copy_models_eq (t : str) (fs : gmap str Selector.file) :
  is_tag t →
  Selector.copy_models t (Selector.State fs [])
  = (Selector.State
       (copied_model fs (pkl_src t) pkl_dst (copied_model fs (txt_src t) txt_dst fs))
       (model_copy fs (txt_src t) txt_dst ++ model_copy fs (pkl_src t) pkl_dst),
     None).
Proof.
  intros Ht. destruct (model_src_not_dst t Ht) as [Htxt Hpkl].
  unfold Selector.copy_models. fold (txt_src t) (pkl_src t) txt_dst pkl_dst.
  rewrite (copy_if_exists_eq _ _ _ Htxt), (copy_if_exists_eq _ _ _ Hpkl).
  cbn [Selector.dir Selector.copies app].
  assert ((match fs !! txt_src t with
           | Some x => <[txt_dst := x]> fs
           | None => fs
           end) !! pkl_src t = fs !! pkl_src t) as ->.
  { destruct (fs !! txt_src t); [|done].
    apply lookup_insert_ne. symmetry. apply tag_pkl_not_txt_dst. }
  done.
Qed.

Lemma copied_model_ne (fs : gmap str Selector.file) (src dst : str)
    (m : gmap str Selector.file) (name : str) :
  name ≠ dst → copied_model fs src dst m !! name = m !! name.
Proof.
  intros Hne. unfold copied_model. destruct (fs !! src); [|done].
  by apply lookup_insert_ne.
Qed.

Lemma copied_model_exists (fs : gmap str Selector.file) (src dst : str)
    (m : gmap str Selector.file) (f : str) :
  is_Some (m !! f) → is_Some (copied_model fs src dst m !! f).
Proof.
  intros Hf. unfold copied_model. destruct (fs !! src); [|done].
  rewrite lookup_insert_is_Some. destruct (decide (dst = f)); auto.
Qed.

(** The loop over [metrics_files], for sources that exist and are never
    a destination: no copy raises. *)
Lemma copy_metrics_spec (t : str) (l : list str) (st : Selector.state) :
  (∀ f, f ∈ l → is_Some (Selector.dir st !! f)) →
  (∀ f g, f ∈ l → g ∈ l → Selector.new_fname t g ≠ f) →
  (Selector.copy_metrics t l st).2 = None
  ∧ Selector.copies (Selector.copy_metrics t l st).1
    = Selector.copies st ++ ((λ f, (f, Selector.new_fname t f)) <$> l)
  ∧ (∀ name, (∀ f, f ∈ l → Selector.new_fname t f ≠ name) →
       Selector.dir (Selector.copy_metrics t l st).1 !! name
       = Selector.dir st !! name)
  ∧ (∀ f, f ∈ l → ∃ g, g ∈ l
       ∧ Selector.new_fname t g = Selector.new_fname t f
       ∧ Selector.dir (Selector.copy_metrics t l st).1 !! Selector.new_fname t f
         = Selector.dir st !! g).
Proof.
  revert st. induction l as [|f l IH]; intros st Hex Hsrc.
  - split_and!; [done|simpl; by rewrite (right_id_L [] (++))|done|].
    intros f Hf. by apply not_elem_of_nil in Hf.
  - destruct (Hex f) as [x Hx]; [by left|].
    assert (f ≠ Selector.new_fname t f) as Hfne.
    { intros Heq. apply (Hsrc f f); [by left..|done]. }
    cbn [Selector.copy_metrics]. rewrite (copy_Some _ _ _ x Hx Hfne).
    set (st1 := Selector.State (<[Selector.new_fname t f := x]> (Selector.dir st))
                  (Selector.copies st ++ [(f, Selector.new_fname t f)])).
    assert (∀ name, name ≠ Selector.new_fname t f →
                    Selector.dir st1 !! name = Selector.dir st !! name) as Hd1.
    { intros name Hname. by apply lookup_insert_ne. }
    destruct (IH st1) as (Hnone & Hcop & Hframe & Hcont).
    { intros g Hg. simpl. rewrite lookup_insert_is_Some.
      destruct (decide (Selector.new_fname t f = g)); [by left|right].
      split; [done|]. apply Hex. by right. }
    { intros g h Hg Hh. apply Hsrc; by right. }
    assert (∀ g, g ∈ f :: l → Selector.dir st1 !! g = Selector.dir st !! g) as Hsame.
    { intros g Hg. apply Hd1. intros ->.
      apply (Hsrc _ f Hg); [apply list_elem_of_here | done]. }
    split_and!.
    + done.
    + rewrite Hcop. simpl. rewrite <- (assoc_L (++)). done.
    + intros name Hname. rewrite Hframe by (intros g Hg; apply Hname; by right).
      apply Hd1. intros ->.
      apply (Hname f); [apply list_elem_of_here | done].
    + assert (∀ g, g ∈ l → ∃ h, h ∈ f :: l
          ∧ Selector.new_fname t h = Selector.new_fname t g
          ∧ Selector.dir (Selector.copy_metrics t l st1).1 !! Selector.new_fname t g
            = Selector.dir st !! h) as Htail.
      { intros g Hg. destruct (Hcont g Hg) as (h & Hh & Hnew & Hdir).
        exists h. split_and!; [by right|done|].
        rewrite Hdir. apply Hsame. by right. }
      intros g [->|Hg]%elem_of_cons; [|by apply Htail].
      destruct (decide (Selector.new_fname t f ∈ Selector.new_fname t <$> l))
        as [Hin|Hout].
      * apply list_elem_of_fmap in Hin as (g & Hfg & Hg).
        destruct (Htail g Hg) as (h & Hh & Hnew & Hdir).
        exists h. split_and!; [done|congruence|by rewrite Hfg].
      * exists f. split_and!; [by left|done|].
        rewrite Hframe.
        -- simpl. by rewrite lookup_insert_eq.
        -- intros g Hg Heq. apply Hout. rewrite <- Heq.
           by apply list_elem_of_fmap_2.
Qed.

Lemma metrics_not_model_dst (t f : str) :
  Selector.glob_match (metrics_pre t) ".csv" f →
  f ≠ txt_dst ∧ f ≠ pkl_dst ∧ f ≠ txt_src t ∧ f ≠ pkl_src t.
Proof.
  intros [r ->]%glob_match_prefix.
  unfold metrics_pre, txt_dst, pkl_dst, txt_src, pkl_src.
  split_and!; intros H; by name_clash H.
Qed.

Lemma new_fname_not_source (t f g : str) :
  is_tag t →
  Selector.glob_match (metrics_pre t) ".csv" f →
  Selector.glob_match (metrics_pre t) ".csv" g →
  Selector.new_fname t g ≠ f
  ∧ Selector.new_fname t g ≠ txt_dst ∧ Selector.new_fname t g ≠ pkl_dst
  ∧ Selector.new_fname t g ≠ Selector.output_model_card.
Proof.
  intros Ht Hf Hg.
  destruct (new_fname_metrics t g Ht Hg) as (rest & _ & ->).
  apply glob_match_prefix in Hf as [r ->].
  destruct Ht as (ds & -> & _ & _).
  unfold metrics_pre, txt_dst, pkl_dst, Selector.output_model_card,
    Selector.across_iterations.
  split_and!; intros H; by name_clash H.
Qed.

Section CopyArtifacts.
Context (fs : gmap str Selector.file) (t : str) (Ht : is_tag t).

Let st1 := (Selector.copy_models t (Selector.State fs [])).1.
Let l := Selector.metrics_files t (Selector.dir st1).
Let st2 := (Selector.copy_artifacts t (Selector.State fs [])).1.

Local Lemma st1_dir_metrics f :
  Selector.glob_match (metrics_pre t) ".csv" f → Selector.dir st1 !! f = fs !! f.
Proof.
  intros (? & ? & _)%metrics_not_model_dst. unfold st1.
  rewrite copy_models_eq by done. simpl. by rewrite !copied_model_ne.
Qed.

Local Lemma elem_of_metrics f :
  f ∈ l ↔ Selector.glob_match (metrics_pre t) ".csv" f ∧ is_Some (fs !! f).
Proof.
  unfold l, Selector.metrics_files. fold (metrics_pre t).
  rewrite elem_of_glob. split; intros [Hm Hf]; (split; [done|]).
  - by rewrite <- st1_dir_metrics.
  - by rewrite st1_dir_metrics.
Qed.

Local Lemma copy_artifacts_eq :
  Selector.copy_artifacts t (Selector.State fs []) = Selector.copy_metrics t l st1.
Proof.
  unfold l, st1, Selector.copy_artifacts. by rewrite copy_models_eq.
Qed.

Local Lemma copy_loop :
  (Selector.copy_metrics t l st1).2 = None
  ∧ Selector.copies st2
    = Selector.copies st1 ++ ((λ f, (f, Selector.new_fname t f)) <$> l)
  ∧ (∀ name, (∀ f, f ∈ l → Selector.new_fname t f ≠ name) →
       Selector.dir st2 !! name = Selector.dir st1 !! name)
  ∧ (∀ f, f ∈ l → ∃ g, g ∈ l
       ∧ Selector.new_fname t g = Selector.new_fname t f
       ∧ Selector.dir st2 !! Selector.new_fname t f = Selector.dir st1 !! g).
Proof.
  unfold st2. rewrite copy_artifacts_eq. apply copy_metrics_spec.
  - intros f [Hm Hf]%elem_of_metrics. by rewrite st1_dir_metrics.
  - intros f g [Hf _]%elem_of_metrics [Hg _]%elem_of_metrics.
    by apply new_fname_not_source.
Qed.

(** Step 4 raises nothing. *)
Lemma copy_artifacts_None :
  (Selector.copy_artifacts t (Selector.State fs [])).2 = None.
Proof. rewrite copy_artifacts_eq. apply copy_loop. Qed.

(** Every copy of step 4: the two guarded model copies and one copy per
    metrics file. *)
Lemma copies_copy_artifacts src dst :
  (src, dst) ∈ Selector.copies st2 →
  (src = txt_src t ∧ dst = txt_dst ∧ is_Some (fs !! txt_src t))
  ∨ (src = pkl_src t ∧ dst = pkl_dst ∧ is_Some (fs !! pkl_src t))
  ∨ (Selector.glob_match (metrics_pre t) ".csv" src ∧ is_Some (fs !! src)
     ∧ dst = Selector.new_fname t src).
Proof.
  destruct copy_loop as (_ & -> & _ & _). unfold st1.
  rewrite copy_models_eq by done.
  cbn [Selector.copies fst]. unfold model_copy.
  rewrite !elem_of_app. intros [[H|H]|H].
  - left. destruct (fs !! txt_src t); [|by apply not_elem_of_nil in H].
    apply list_elem_of_singleton in H as [= -> ->]. eauto.
  - right; left. destruct (fs !! pkl_src t); [|by apply not_elem_of_nil in H].
    apply list_elem_of_singleton in H as [= -> ->]. eauto.
  - right; right. apply list_elem_of_fmap in H as (f & [= -> ->] & Hf).
    apply elem_of_metrics in Hf as [? ?]. done.
Qed.

(** A name that is no destination keeps its file. *)
Lemma dir_copy_artifacts_frame name :
  name ≠ txt_dst → name ≠ pkl_dst →
  (∀ f, Selector.glob_match (metrics_pre t) ".csv" f →
        Selector.new_fname t f ≠ name) →
  Selector.dir st2 !! name = fs !! name.
Proof.
  intros H1 H2 H3. destruct copy_loop as (_ & _ & -> & _).
  - unfold st1. rewrite copy_models_eq by done. simpl.
    by rewrite !copied_model_ne.
  - intros f [Hf _]%elem_of_metrics. by apply H3.
Qed.

Lemma metrics_copied f :
  is_Some (fs !! f) → Selector.glob_match (metrics_pre t) ".csv" f →
  (f, Selector.new_fname t f) ∈ Selector.copies st2
  ∧ ∃ g, Selector.glob_match (metrics_pre t) ".csv" g
       ∧ Selector.new_fname t g = Selector.new_fname t f
       ∧ is_Some (fs !! g)
       ∧ Selector.dir st2 !! Selector.new_fname t f = fs !! g.
Proof.
  intros Hf Hm. assert (f ∈ l) as Hl by by apply elem_of_metrics.
  destruct copy_loop as (_ & Hc & _ & Hcont). split.
  - rewrite Hc. apply elem_of_app. right.
    by apply (list_elem_of_fmap_2 (λ f, (f, Selector.new_fname t f))).
  - destruct (Hcont f Hl) as (g & [Hg Hgs]%elem_of_metrics & Hnew & Hdir).
    exists g. split_and!; [done..|]. by rewrite Hdir, st1_dir_metrics.
Qed.

(** The files of the directory are still there after step 4. *)
Lemma copy_artifacts_exists f :
  is_Some (fs !! f) → is_Some (Selector.dir st2 !! f).
Proof.
  intros Hf. destruct (decide (f ∈ Selector.new_fname t <$> l)) as [Hin|Hno].
  - apply list_elem_of_fmap in Hin as (g & -> & Hg).
    destruct copy_loop as (_ & _ & _ & Hcont).
    destruct (Hcont g Hg) as (h & [Hh Hhs]%elem_of_metrics & _ & ->).
    by rewrite st1_dir_metrics.
  - destruct copy_loop as (_ & _ & -> & _).
    + unfold st1. rewrite copy_models_eq by done. simpl.
      by do 2 apply copied_model_exists.
    + intros g Hg Heq. apply Hno. rewrite <- Heq. by apply list_elem_of_fmap_2.
Qed.
End CopyArtifacts.

(** ** The run as a whole *)

Lemma select_eq fs :
  Selector.select fs
  = match Selector.fold_score_files fs with
    | [] => Selector.Raise
              (Selector.FileNotFoundError "No fold-score CSV files found!" None)
    | _ :: _ =>
        match winner fs with
        | Selector.Raise e => Selector.Raise e
        | Selector.Ok (best, avg) =>
            match Selector.search_iter (Selector.path best) with
            | None => Selector.Raise (Selector.ValueError
                        ("Cannot extract iteration from " ++ Selector.path best))
            | Some t => Selector.Ok (best, avg, t)
            end
        end
    end.
Proof.
  unfold Selector.select, winner.
  destruct (Selector.fold_score_files fs) as [|f files]; [done|].
  destruct (Selector.iteration_scores fs (f :: files)) as [scores|e]; [|done].
  simpl. destruct (Selector.best_row scores) as [[best avg]|e]; done.
Qed.

Lemma iteration_scores_error fs files e :
  Selector.iteration_scores fs files = Selector.Raise e → e = Selector.PandasError.
Proof.
  induction files as [|f files IH]; simpl; [done|].
  destruct (Selector.avg_f1 fs f) as [a|e'] eqn:Ha; simpl.
  - destruct (Selector.iteration_scores fs files) as [rest|e'']; simpl; [done|].
    intros [= <-]. by apply IH.
  - intros [= <-]. unfold Selector.avg_f1, Selector.macro_f1 in Ha.
    repeat (case_match; simplify_eq/=); done.
Qed.

Lemma winner_error fs e :
  winner fs = Selector.Raise e → e = Selector.PandasError.
Proof.
  unfold winner.
  destruct (Selector.iteration_scores fs _) as [scores|e'] eqn:Hsc; simpl.
  - apply best_row_error.
  - intros [= <-]. by eapply iteration_scores_error.
Qed.

(** The selection succeeds exactly when every fold-score file is readable
    and one of them has a mean that is not NaN. *)
Lemma winner_Ok_iff fs :
  (∃ best avg, winner fs = Selector.Ok (best, avg))
  ↔ readable fs ∧ some_mean fs (λ m, F64.is_nan m = false).
Proof.
  split.
  - intros (best & avg & (scores & Hsc & Hbest)%winner_Ok). split.
    + intros f [k Hk]%list_elem_of_lookup.
      destruct (scores_lookup fs _ scores k f Hsc Hk) as (col & _ & Hcol).
      by exists col.
    + unfold Selector.best_row in Hbest.
      destruct (Selector.idxmax scores.*2) as [j|] eqn:Hj; [|done]. clear Hbest.
      assert (¬ Forall (λ x, F64.is_nan x = true) scores.*2) as Hnot.
      { intros Hall%idxmax_None. congruence. }
      apply not_Forall_Exists in Hnot; [|apply _].
      apply Exists_exists in Hnot as (m & Hm & Hnan).
      apply list_elem_of_fmap in Hm as ([f a] & -> & Hfa). simpl in Hnan.
      apply list_elem_of_lookup in Hfa as [k Hk].
      pose proof (iteration_scores_Ok fs _ scores Hsc) as [Hfst Havg].
      assert (Selector.fold_score_files fs !! k = Some f) as Hkf.
      { by rewrite <- Hfst, list_lookup_fmap, Hk. }
      destruct (scores_lookup fs _ scores k f Hsc Hkf) as (col & Hsk & Hcol).
      exists f, col. split_and!; [by eapply list_elem_of_lookup_2|done|].
      assert (a = Selector.mean col) as <- by congruence.
      by destruct (F64.is_nan a).
  - intros [Hread Hsome]. by apply winner_total.
Qed.

Lemma main_Raise fs e :
  Selector.select fs = Selector.Raise e →
  Selector.main fs = (Selector.State fs [], Some e).
Proof. unfold Selector.main. by intros ->. Qed.

Lemma select_Ok fs best avg t :
  Selector.select fs = Selector.Ok (best, avg, t) →
  Selector.fold_score_files fs ≠ []
  ∧ winner fs = Selector.Ok (best, avg)
  ∧ Selector.search_iter (Selector.path best) = Some t.
Proof.
  rewrite select_eq.
  destruct (Selector.fold_score_files fs); [done|].
  destruct (winner fs) as [[b a]|e]; [|done].
  destruct (Selector.search_iter (Selector.path b)) eqn:Ht; [|done].
  by intros [= -> -> ->].
Qed.

Lemma select_tag fs best avg t :
  Selector.select fs = Selector.Ok (best, avg, t) → is_tag t.
Proof.
  intros (_ & _ & Htag)%select_Ok. by eapply search_iter_is_tag.
Qed.

(** After a successful selection no statement of steps 4 and 5 raises. *)
Lemma main_Ok fs best avg t :
  Selector.select fs = Selector.Ok (best, avg, t) →
  Selector.main fs
  = (Selector.write_card t avg
       (Selector.metrics_files t
          (Selector.dir (Selector.copy_models t (Selector.State fs [])).1))
       (Selector.copy_artifacts t (Selector.State fs [])).1,
     None).
Proof.
  intros Hsel. pose proof (select_tag fs _ _ _ Hsel) as Ht.
  pose proof (copy_artifacts_None fs t Ht) as Hnone.
  unfold Selector.main. rewrite Hsel.
  unfold Selector.copy_artifacts in *.
  rewrite copy_models_eq in * by done. cbn [fst snd] in *.
  destruct (Selector.copy_metrics t _ _) as [st [e|]]; [done|]. done.
Qed.

Lemma final_Ok fs best avg t :
  Selector.select fs = Selector.Ok (best, avg, t) →
  raised fs = None
  ∧ Selector.copies (final fs)
    = Selector.copies (Selector.copy_artifacts t (Selector.State fs [])).1
  ∧ Selector.dir (final fs)
    = <[Selector.output_model_card :=
          Selector.ModelCard t avg
            (Selector.card_artifacts t
               (Selector.metrics_files t
                  (Selector.dir (Selector.copy_models t (Selector.State fs [])).1)))]>
        (Selector.dir (Selector.copy_artifacts t (Selector.State fs [])).1).
Proof.
  intros Hsel. unfold raised, final. by rewrite (main_Ok fs _ _ _ Hsel).
Qed.

(** ** Claims on the errors of the selector *)

Lemma nan_dir_raised : raised nan_dir = Some Selector.PandasError.
Proof. vm_compute. reflexivity. Qed.

(** C5, as stated, fails: a directory whose only fold-score file has an
    empty Macro-F1 cell makes the run end in an error although a matching
    file exists and no winning file without a tag was found. *)
Lemma error_without_either_condition :
  ¬ (is_Some (raised nan_dir) ↔ no_files_or_no_tag nan_dir).
Proof.
  intros [H _]. destruct H as [H|(best & avg & H & _)].
  - rewrite nan_dir_raised. by eexists.
  - rewrite nan_dir_fold_score_files in H. discriminate H.
  - rewrite nan_dir_winner in H. discriminate H.
Qed.

(** C5, amended: the run raises [FileNotFoundError], with its message,
    exactly when no fold-score file matches, and [ValueError], with its
    message, exactly when a winning file was chosen and its name holds no
    iteration tag.  The only other failure is an error inside pandas, and
    it occurs exactly when files match but one of them has no readable
    Macro-F1 column or none has a mean that is not NaN; no copy raises.
    Whenever the run fails, nothing was copied and no report was
    written. *)
Theorem error_conditions fs :
  (∀ msg filename,
     raised fs = Some (Selector.FileNotFoundError msg filename)
     ↔ Selector.fold_score_files fs = []
       ∧ msg = ("No fold-score CSV files found!" : str) ∧ filename = None)
  ∧ (∀ msg, raised fs = Some (Selector.ValueError msg)
     ↔ Selector.fold_score_files fs ≠ []
       ∧ ∃ best avg, winner fs = Selector.Ok (best, avg)
           ∧ Selector.search_iter (Selector.path best) = None
           ∧ msg = "Cannot extract iteration from " ++ Selector.path best)
  ∧ (raised fs = Some Selector.PandasError
     ↔ Selector.fold_score_files fs ≠ []
       ∧ ¬ (readable fs ∧ some_mean fs (λ m, F64.is_nan m = false)))
  ∧ (∀ src dst, raised fs ≠ Some (Selector.SameFileError src dst))
  ∧ (is_Some (raised fs) → final fs = Selector.State fs []).
Proof.
  unfold raised, final. rewrite <- winner_Ok_iff.
  pose proof (select_eq fs) as Hsel.
  destruct (Selector.fold_score_files fs) as [|f0 files] eqn:Hfiles.
  { rewrite (main_Raise fs _ Hsel). cbn [fst snd]. split_and!.
    - intros msg filename. split; [by intros [= <- <-] | by intros (_ & -> & ->)].
    - intros msg. split; [done | by intros [? _]].
    - split; [done | by intros [? _]].
    - done.
    - done. }
  destruct (winner fs) as [[best avg]|e] eqn:Hw.
  - destruct (Selector.search_iter (Selector.path best)) as [t|] eqn:Ht.
    + rewrite (main_Ok fs _ _ _ Hsel). cbn [fst snd]. split_and!.
      * intros msg filename. split; [done | by intros [? _]].
      * intros msg. split; [done|].
        intros [_ (b & a & [= <- <-] & Hnone & _)]. congruence.
      * split; [done|]. intros [_ Hn]. destruct Hn. by exists best, avg.
      * done.
      * by intros [? ?].
    + rewrite (main_Raise fs _ Hsel). cbn [fst snd]. split_and!.
      * intros msg filename. split; [done | by intros [? _]].
      * intros msg. split.
        -- intros [= <-]. split; [done|]. by exists best, avg.
        -- intros [_ (b & a & [= <- <-] & _ & ->)]. done.
      * split; [done|]. intros [_ Hn]. destruct Hn. by exists best, avg.
      * done.
      * done.
  - pose proof (winner_error fs e Hw) as ->.
    rewrite (main_Raise fs _ Hsel). cbn [fst snd]. split_and!.
    + intros msg filename. split; [done | by intros [? _]].
    + intros msg. split; [done|]. by intros [_ (b & a & ? & _)].
    + split; [|done]. intros _. split; [done|]. by intros (b & a & ?).
    + done.
    + done.
Qed.

(** ** Claims on the copied artifacts *)

(** C6: once the winning tag is known, no copy of step 4 raises; every
    existing file matching stacker_binary_metrics_<tag>_*.csv is copied to
    its own name with the tag replaced by "across_iterations" (the
    destination then holds the content of a matching file with that
    destination name), and a file belonging to another iteration is
    neither source nor destination of any copy of the step and keeps its
    content. *)
Theorem metrics_copied_others_untouched fs best_file avg best_iter :
  Selector.select fs = Selector.Ok (best_file, avg, best_iter) →
  (Selector.copy_artifacts best_iter (Selector.State fs [])).2 = None
  ∧ (∀ f, is_Some (fs !! f) →
        Selector.glob_match (metrics_pre best_iter) ".csv" f →
        (f, Selector.new_fname best_iter f)
          ∈ Selector.copies (Selector.copy_artifacts best_iter (Selector.State fs [])).1
        ∧ (∃ rest, f = "stacker_binary_metrics_" ++ best_iter ++ rest
             ∧ Selector.new_fname best_iter f
               = "stacker_binary_metrics_" ++ Selector.across_iterations
                 ++ Str.replace best_iter Selector.across_iterations rest)
        ∧ ∃ g, Selector.glob_match (metrics_pre best_iter) ".csv" g
             ∧ Selector.new_fname best_iter g = Selector.new_fname best_iter f
             ∧ is_Some (fs !! g)
             ∧ Selector.dir (Selector.copy_artifacts best_iter (Selector.State fs [])).1
                 !! Selector.new_fname best_iter f = fs !! g)
  ∧ (∀ t name, is_tag t → t ≠ best_iter → belongs_to t name →
        Selector.dir (Selector.copy_artifacts best_iter (Selector.State fs [])).1
          !! name = fs !! name
        ∧ ∀ src dst,
            (src, dst) ∈ Selector.copies
                           (Selector.copy_artifacts best_iter (Selector.State fs [])).1 →
            src ≠ name ∧ dst ≠ name)
  ∧ Selector.copies (final fs)
    = Selector.copies (Selector.copy_artifacts best_iter (Selector.State fs [])).1.
Proof.
  intros Hsel. pose proof (select_tag fs _ _ _ Hsel) as Htag. split_and!.
  - by apply copy_artifacts_None.
  - intros f Hf Hm.
    destruct (metrics_copied fs best_iter Htag f Hf Hm) as [Hc Hg].
    split_and!; [done| |done].
    by apply new_fname_metrics.
  - intros t name Ht Hne Hname.
    destruct (foreign_name_distinct best_iter t name Htag Ht Hne Hname)
      as (N1 & N2 & N3 & N4 & N5).
    split.
    + apply dir_copy_artifacts_frame; [done..|].
      intros f Hf Heq. by destruct (N5 f Hf).
    + intros src dst Hc.
      apply (copies_copy_artifacts fs best_iter Htag) in Hc
        as [(-> & -> & _)|[(-> & -> & _)|(Hm & _ & ->)]];
        unfold txt_src, pkl_src, txt_dst, pkl_dst; [split; congruence..|].
      destruct (N5 src Hm). split; congruence.
  - by destruct (final_Ok fs _ _ _ Hsel) as (_ & ? & _).
Qed.

Lemma example_dir_select :
  Selector.select example_dir
  = Selector.Ok (folds_name "iter1", dec 625 3, ("iter1" : str)).
Proof. vm_compute. reflexivity. Qed.

Lemma metrics_copied_others_untouched_witness :
  Selector.select example_dir
  = Selector.Ok (folds_name "iter1", dec 625 3, ("iter1" : str))
  ∧ (is_Some (example_dir !! ("stacker_binary_metrics_iter1_val.csv" : str))
     ∧ Selector.glob_match (metrics_pre "iter1") ".csv"
         ("stacker_binary_metrics_iter1_val.csv" : str))
  ∧ (Selector.copy_artifacts "iter1" (Selector.State example_dir [])).2 = None
  ∧ (("stacker_binary_metrics_iter1_val.csv" : str),
     ("stacker_binary_metrics_across_iterations_val.csv" : str))
    ∈ Selector.copies (Selector.copy_artifacts "iter1" (Selector.State example_dir [])).1
  ∧ Selector.dir (Selector.copy_artifacts "iter1" (Selector.State example_dir [])).1
      !! ("stacker_binary_metrics_iter10_val.csv" : str)
    = example_dir !! ("stacker_binary_metrics_iter10_val.csv" : str).
Proof.
  pose proof (metrics_copied_others_untouched example_dir _ _ _ example_dir_select)
    as (Hnone & Hcopy & Hframe & _).
  assert (is_Some (example_dir !! ("stacker_binary_metrics_iter1_val.csv" : str))
          ∧ Selector.glob_match (metrics_pre "iter1") ".csv"
              ("stacker_binary_metrics_iter1_val.csv" : str)) as [H1 H2].
  { split.
    - vm_compute. eexists. reflexivity.
    - apply (bool_decide_unpack _). vm_compute. exact I. }
  split_and!; [exact example_dir_select | exact H1 | exact H2 | exact Hnone | |].
  - exact (proj1 (Hcopy _ H1 H2)).
  - refine (proj1 (Hframe "iter10" _ _ _ _)).
    + exists ("10" : str). split_and!; [done|done|by repeat constructor].
    + intros H. discriminate H.
    + do 3 right. apply (bool_decide_unpack _). vm_compute. exact I.
Defined.

Lemma model_src_distinct (t : str) :
  txt_src t ≠ pkl_src t ∧ txt_dst ≠ pkl_dst
  ∧ txt_dst ≠ Selector.output_model_card ∧ pkl_dst ≠ Selector.output_model_card.
Proof.
  unfold txt_src, pkl_src, txt_dst, pkl_dst, Selector.output_model_card.
  split_and!; intros H; name_clash H.
Qed.

(** What the run copied and left alone, read off the initial directory. *)
Lemma final_copies fs best avg t :
  Selector.select fs = Selector.Ok (best, avg, t) →
  (∀ src dst, (src, dst) ∈ Selector.copies (final fs) →
     (src = txt_src t ∧ dst = txt_dst ∧ is_Some (fs !! txt_src t))
     ∨ (src = pkl_src t ∧ dst = pkl_dst ∧ is_Some (fs !! pkl_src t))
     ∨ (Selector.glob_match (metrics_pre t) ".csv" src
        ∧ dst ≠ txt_dst ∧ dst ≠ pkl_dst))
  ∧ (∀ name, name ≠ Selector.output_model_card →
       (∀ src dst, (src, dst) ∈ Selector.copies (final fs) → dst ≠ name) →
       Selector.dir (final fs) !! name = fs !! name).
Proof.
  intros Hsel. pose proof (select_tag fs _ _ _ Hsel) as Htag.
  destruct (final_Ok fs _ _ _ Hsel) as (_ & Hc & Hd).
  assert (∀ src dst, (src, dst) ∈ Selector.copies (final fs) →
    (src = txt_src t ∧ dst = txt_dst ∧ is_Some (fs !! txt_src t))
    ∨ (src = pkl_src t ∧ dst = pkl_dst ∧ is_Some (fs !! pkl_src t))
    ∨ (Selector.glob_match (metrics_pre t) ".csv" src ∧ is_Some (fs !! src)
       ∧ dst = Selector.new_fname t src)) as Hall.
  { intros src dst H. rewrite Hc in H.
    by apply (copies_copy_artifacts fs t Htag) in H. }
  split.
  - intros src dst [?|[?|(Hm & _ & ->)]]%Hall; [tauto..|]. do 2 right.
    by destruct (new_fname_not_source t src src Htag Hm Hm) as (_ & ? & ? & _).
  - intros name Hname Hdst. rewrite Hd, lookup_insert_ne by done.
    assert (∀ src dst, (src, dst) ∈ Selector.copies
              (Selector.copy_artifacts t (Selector.State fs [])).1 → dst ≠ name)
      as Hdst'.
    { intros src dst H. apply (Hdst src). by rewrite Hc. }
    destruct (copy_metrics_spec t
      (Selector.metrics_files t
         (Selector.dir (Selector.copy_models t (Selector.State fs [])).1))
      (Selector.copy_models t (Selector.State fs [])).1) as (_ & Hcm & Hfr & _).
    { intros f [_ Hf]%elem_of_glob. done. }
    { intros f g [Hf _]%elem_of_glob [Hg _]%elem_of_glob.
      by apply new_fname_not_source. }
    unfold Selector.copy_artifacts in *.
    rewrite copy_models_eq in * by done. cbn [fst snd] in *.
    rewrite Hcm in Hdst'. cbn [Selector.copies] in Hdst'.
    rewrite Hfr.
    + cbn [Selector.dir]. unfold copied_model.
      destruct (fs !! pkl_src t) as [y|] eqn:Hy.
      * rewrite lookup_insert_ne.
        2:{ intros <-. apply (Hdst' (pkl_src t) pkl_dst); [|done].
            unfold model_copy. rewrite Hy. rewrite !elem_of_app. left. right.
            apply list_elem_of_here. }
        destruct (fs !! txt_src t) as [x|] eqn:Hx; [|done].
        rewrite lookup_insert_ne; [done|].
        intros <-. apply (Hdst' (txt_src t) txt_dst); [|done].
        unfold model_copy. rewrite Hx. rewrite !elem_of_app. left. left.
        apply list_elem_of_here.
      * destruct (fs !! txt_src t) as [x|] eqn:Hx; [|done].
        rewrite lookup_insert_ne; [done|].
        intros <-. apply (Hdst' (txt_src t) txt_dst); [|done].
        unfold model_copy. rewrite Hx. rewrite !elem_of_app. left. left.
        apply list_elem_of_here.
    + intros f Hf <-. apply (Hdst' f (Selector.new_fname t f)); [|done].
      apply elem_of_app. right.
      by apply (list_elem_of_fmap_2 (λ f, (f, Selector.new_fname t f))).
Qed.

(** C10: when the selection succeeds the run raises no error, whether or
    not the winning iteration's text and pickle files exist, although the
    copy of a missing file raises [FileNotFoundError]: a missing one is
    the source of no copy, and its destination name is left as it was.
    The report still lists both
    stacker_best_model_across_iterations.txt and
    stacker_best_model_across_iterations.pkl, ahead of the renamed metrics
    files. *)
Theorem missing_models_skipped_card_lists_both fs best_file avg best_iter :
  Selector.select fs = Selector.Ok (best_file, avg, best_iter) →
  raised fs = None
  ∧ (fs !! txt_src best_iter = None →
       (Selector.copy (txt_src best_iter) txt_dst (Selector.State fs [])).2
       = Some (Selector.FileNotFoundError "No such file or directory"
                 (Some (Selector.path (txt_src best_iter))))
       ∧ (∀ src dst, (src, dst) ∈ Selector.copies (final fs) →
                     src ≠ txt_src best_iter ∧ dst ≠ txt_dst)
       ∧ Selector.dir (final fs) !! txt_dst = fs !! txt_dst)
  ∧ (fs !! pkl_src best_iter = None →
       (Selector.copy (pkl_src best_iter) pkl_dst (Selector.State fs [])).2
       = Some (Selector.FileNotFoundError "No such file or directory"
                 (Some (Selector.path (pkl_src best_iter))))
       ∧ (∀ src dst, (src, dst) ∈ Selector.copies (final fs) →
                     src ≠ pkl_src best_iter ∧ dst ≠ pkl_dst)
       ∧ Selector.dir (final fs) !! pkl_dst = fs !! pkl_dst)
  ∧ ∃ metrics,
      Selector.dir (final fs) !! Selector.output_model_card
      = Some (Selector.ModelCard best_iter avg (txt_dst :: pkl_dst :: metrics)).
Proof.
  intros Hsel.
  destruct (final_Ok fs _ _ _ Hsel) as (Hr & _ & Hd).
  destruct (final_copies fs _ _ _ Hsel) as [Hcopies Hframe].
  destruct (model_src_distinct best_iter) as (D1 & D2 & D3 & D4).
  split_and!; [done| | |].
  - intros Hnone.
    assert (∀ src dst, (src, dst) ∈ Selector.copies (final fs) →
              src ≠ txt_src best_iter ∧ dst ≠ txt_dst) as Hno.
    { intros src dst [(_ & _ & [x Hx])|[(-> & -> & _)|(Hm & ? & _)]]%Hcopies.
      - congruence.
      - split; congruence.
      - split; [|done]. by destruct (metrics_not_model_dst best_iter src Hm) as (_ & _ & ? & _). }
    split_and!; [by rewrite copy_None|done|]. apply Hframe; [done|].
    intros src dst H. by destruct (Hno src dst H).
  - intros Hnone.
    assert (∀ src dst, (src, dst) ∈ Selector.copies (final fs) →
              src ≠ pkl_src best_iter ∧ dst ≠ pkl_dst) as Hno.
    { intros src dst [(-> & -> & _)|[(_ & _ & [x Hx])|(Hm & _ & ?)]]%Hcopies.
      - split; congruence.
      - congruence.
      - split; [|done]. by destruct (metrics_not_model_dst best_iter src Hm) as (_ & _ & _ & ?). }
    split_and!; [by rewrite copy_None|done|]. apply Hframe; [done|].
    intros src dst H. by destruct (Hno src dst H).
  - eexists. rewrite Hd, lookup_insert_eq. reflexivity.
Qed.

Lemma missing_models_skipped_card_lists_both_witness :
  Selector.select example_dir
  = Selector.Ok (folds_name "iter1", dec 625 3, ("iter1" : str))
  ∧ example_dir !! pkl_src "iter1" = None
  ∧ raised example_dir = None
  ∧ (Selector.copy (pkl_src "iter1") pkl_dst (Selector.State example_dir [])).2
    = Some (Selector.FileNotFoundError "No such file or directory"
              (Some ("./stacker_best_model_iter1.pkl" : str)))
  ∧ Selector.dir (final example_dir) !! pkl_dst = None
  ∧ ∃ metrics,
      Selector.dir (final example_dir) !! Selector.output_model_card
      = Some (Selector.ModelCard "iter1" (dec 625 3) (txt_dst :: pkl_dst :: metrics)).
Proof.
  assert (example_dir !! pkl_src "iter1" = None) as Hpkl.
  { vm_compute. reflexivity. }
  assert (example_dir !! pkl_dst = None) as Hdst.
  { vm_compute. reflexivity. }
  pose proof (missing_models_skipped_card_lists_both example_dir _ _ _
                example_dir_select) as (Hr & _ & Hskip & Hcard).
  split_and!; [exact example_dir_select | exact Hpkl | exact Hr | | | exact Hcard].
  - exact (proj1 (Hskip Hpkl)).
  - exact (eq_trans (proj2 (proj2 (Hskip Hpkl))) Hdst).
Defined.

(** ** The resource logger *)

(** Of two invocations run one after the other without a log file, the
    block of the first raises.  Nothing after [yield] runs for it, so the
    file then holds the header and one data row, that of the second tag;
    run alone, the raising invocation leaves no file at all. *)
Lemma raising_block_logs_no_row :
  Logger.run raising_invs None
  = Some [ Logger.Header;
           Logger.DataRow "stacker" "0.500" "0.000" "40.0" "6.0" ]
  ∧ Logger.run (take 1 raising_invs) None = None.
Proof. vm_compute. split; reflexivity. Qed.

(** C8, as stated, fails on two inputs.  After no invocation at all there
    is no log file, hence no header row.  And of the two invocations with
    the distinct tags "clinicalbert_lstm" and "stacker", the first of which
    has a block that raises, only the second leaves a data row: the file
    holds one data row, not two. *)
Lemma rows_missing_from_log :
  ¬ one_row_per_invocation []
  ∧ Logger.tag <$> raising_invs = [("clinicalbert_lstm" : str); ("stacker" : str)]
  ∧ ¬ one_row_per_invocation raising_invs.
Proof.
  split_and!.
  - intros (rows & H & _). discriminate H.
  - reflexivity.
  - intros (rows & H & Htags).
    rewrite (proj1 raising_block_logs_no_row) in H. injection H as <-.
    discriminate Htags.
Qed.

Lemma run_existing invs rows :
  Forall (λ inv, Logger.block_raised inv = false) invs →
  Logger.run invs (Some rows) = Some (rows ++ (Logger.row <$> invs)).
Proof.
  intros Hinvs. revert rows.
  induction Hinvs as [|inv invs Hinv _ IH]; intros rows.
  - simpl. by rewrite (right_id_L [] (++)).
  - unfold Logger.run in *. cbn [foldl]. unfold Logger.ResourceLogger at 2.
    rewrite Hinv. cbn [bool_decide default negb]. rewrite fmap_cons.
    rewrite IH. by rewrite <- (assoc_L (++)).
Qed.

(** C8, amended: starting without a log file, after N invocations run one
    after the other, every block returning normally, there is no file when
    N = 0, and when N is at least one the file holds exactly one header
    record followed by N data records, the i-th being the row of the i-th
    invocation and carrying its tag.  An invocation whose block returns
    appends its data record only when the file exists, and writes the
    header first when it does not.  What is logged for a block that raises
    is left out. *)
Theorem log_after_invocations invs :
  Forall (λ inv, Logger.block_raised inv = false) invs →
  (invs = [] → Logger.run invs None = None)
  ∧ (invs ≠ [] →
     ∃ rows,
       Logger.run invs None = Some (Logger.Header :: rows)
       ∧ rows = Logger.row <$> invs
       ∧ length rows = length invs
       ∧ Logger.row_tag <$> rows = Some <$> (Logger.tag <$> invs)
       ∧ Logger.Header ∉ rows)
  ∧ (∀ inv rows, Logger.block_raised inv = false →
       Logger.ResourceLogger inv (Some rows) = Some (rows ++ [Logger.row inv]))
  ∧ (∀ inv, Logger.block_raised inv = false →
       Logger.ResourceLogger inv None = Some [Logger.Header; Logger.row inv]).
Proof.
  intros Hinvs. split_and!.
  - by intros ->.
  - intros Hne. exists (Logger.row <$> invs). split_and!.
    + destruct Hinvs as [|inv invs Hinv Hinvs]; [done|].
      unfold Logger.run. cbn [foldl]. unfold Logger.ResourceLogger at 2.
      rewrite Hinv. by apply (run_existing invs).
    + done.
    + by rewrite length_fmap.
    + rewrite <- !list_fmap_compose. by apply list_fmap_ext.
    + intros (inv & H & _)%list_elem_of_fmap. discriminate H.
  - intros inv rows Hinv. unfold Logger.ResourceLogger. by rewrite Hinv.
  - intros inv Hinv. unfold Logger.ResourceLogger. by rewrite Hinv.
Qed.

Lemma returning_invs_rows :
  Logger.row <$> returning_invs
  = [ Logger.DataRow "clinicalbert_lstm" "2.000" "2.000" "12.5" "5.0";
      Logger.DataRow "stacker" "0.500" "0.000" "40.0" "6.0" ].
Proof. vm_compute. reflexivity. Qed.

Lemma log_after_invocations_witness :
  (Forall (λ inv, Logger.block_raised inv = false) returning_invs
   ∧ returning_invs ≠ [])
  ∧ Logger.run returning_invs None
    = Some [ Logger.Header;
             Logger.DataRow "clinicalbert_lstm" "2.000" "2.000" "12.5" "5.0";
             Logger.DataRow "stacker" "0.500" "0.000" "40.0" "6.0" ].
Proof.
  assert (Forall (λ inv, Logger.block_raised inv = false) returning_invs) as H1.
  { repeat constructor. }
  assert (returning_invs ≠ []) as H2.
  { discriminate. }
  split; [exact (conj H1 H2)|].
  destruct (proj1 (proj2 (log_after_invocations returning_invs H1)) H2)
    as (rows & Hrun & -> & _).
  exact (eq_trans Hrun
           (f_equal (λ r, Some (Logger.Header :: r)) returning_invs_rows)).
Defined.


(** * Further properties of the code *)

(** ** [clean_text] *)

Lemma lower_char_idemp c : Str.lower_char (Str.lower_char c) = Str.lower_char c.
Proof. destruct c as [[] [] [] [] [] [] [] []]; vm_compute; reflexivity. Qed.

Lemma sub_runs_from_Forall (X : ascii → Prop) p r b s :
  Forall X s → Forall X r → Forall X (Str.sub_runs_from p r b s).
Proof.
  intros Hs Hr. revert b. induction Hs as [|c s Hc Hs IH]; intros b; simpl; [done|].
  destruct (p c).
  - apply Forall_app. split; [by destruct b|apply IH].
  - constructor; [done|apply IH].
Qed.

Lemma sub_runs_from_class p r b s :
  Forall (λ c, p c = false ∨ c ∈ r) (Str.sub_runs_from p r b s).
Proof.
  revert b. induction s as [|c s IH]; intros b; simpl; [done|].
  destruct (p c) eqn:Hc.
  - apply Forall_app. split; [|apply IH].
    destruct b; [done|]. apply Forall_forall. auto.
  - constructor; [by left|apply IH].
Qed.

Lemma replace_from_Forall (X : ascii → Prop) old new k s :
  Forall X s → Forall X new → Forall X (Str.replace_from old new k s).
Proof.
  intros Hs Hnew. revert k. induction Hs as [|c s Hc Hs IH]; intros k; simpl; [done|].
  destruct k as [|k]; [|apply IH].
  case_bool_decide.
  - apply Forall_app. split; [done|apply IH].
  - constructor; [done|apply IH].
Qed.

Lemma strip_Forall (X : ascii → Prop) s : Forall X s → Forall X (Str.strip s).
Proof.
  intros Hs. unfold Str.strip.
  destruct (lstrip_split s) as (a & Ha & _).
  destruct (rstrip_split (Str.lstrip s)) as (b & Hb & _).
  rewrite Ha, Hb in Hs. by apply Forall_app in Hs as [_ [? _]%Forall_app].
Qed.

(** X1: a cleaned text has no whitespace at either end, its only
    whitespace character is the space, it holds no underscore, and it is
    in lower case. *)
Theorem clean_text_alphabet t :
  stripped (Notes.clean_text t) ∧ Forall clean_char (Notes.clean_text t).
Proof.
  split; [apply strip_stripped|].
  unfold Notes.clean_text. apply strip_Forall.
  set (s1 := Str.sub_runs Str.isspace " " (Str.lower t)).
  set (s2 := Str.sub_runs (λ c, bool_decide (c = "_"%char)) " " s1).
  assert (Forall (λ c, Str.lower_char c = c) s1) as L1.
  { apply sub_runs_from_Forall; [|by repeat constructor].
    unfold Str.lower. apply Forall_fmap, Forall_forall. intros c _.
    apply lower_char_idemp. }
  assert (Forall (λ c, Str.isspace c = true → c = " "%char) s1) as W1.
  { eapply Forall_impl; [apply sub_runs_from_class|].
    intros c [Hc|Hc] Hsp; [congruence|].
    by apply list_elem_of_singleton in Hc. }
  assert (Forall clean_char s2) as C2.
  { pose proof (sub_runs_from_class (λ c, bool_decide (c = "_"%char)) " " false s1) as U.
    pose proof (sub_runs_from_Forall (λ c, Str.lower_char c = c)
      (λ c, bool_decide (c = "_"%char)) " " false s1 L1) as L2.
    pose proof (sub_runs_from_Forall (λ c, Str.isspace c = true → c = " "%char)
      (λ c, bool_decide (c = "_"%char)) " " false s1 W1) as W2.
    fold (Str.sub_runs (λ c, bool_decide (c = "_"%char)) " " s1) in U, L2, W2.
    fold s2 in U, L2, W2.
    specialize (L2 ltac:(by repeat constructor)).
    specialize (W2 ltac:(by repeat constructor)).
    rewrite Forall_forall in U, L2, W2. apply Forall_forall. intros c Hc.
    split_and!; [by apply W2|..|by apply L2].
    destruct (U c Hc) as [Hu|Hu].
    - by apply bool_decide_eq_false in Hu.
    - apply list_elem_of_singleton in Hu as ->. done. }
  unfold Str.replace. simpl.
  by repeat apply replace_from_Forall.
Qed.

(** ** The filters of the note aggregator *)

Lemma cleaned_cons r df :
  Notes.cleaned (r :: df) = Notes.cleaned [r] ++ Notes.cleaned df.
Proof.
  unfold Notes.cleaned, Notes.drop_missing. cbn [omap list_omap].
  destruct (Notes.TEXT r) as [t|]; [|done].
  destruct (Notes.HADM_ID r) as [h|]; [|done].
  rewrite !filter_cons, !filter_nil.
  destruct (decide (Notes.in_keep_categories _ = true)); [|done].
  rewrite !filter_cons, !filter_nil.
  destruct (decide (Notes.is_template _ = false)); done.
Qed.

Lemma admitted_texts_cons s h r df :
  admitted_texts s h (r :: df) = admitted_texts s h [r] ++ admitted_texts s h df.
Proof.
  unfold admitted_texts. rewrite !filter_cons, filter_nil.
  destruct (decide (qualifies s h r)) as [Hq|Hq]; [|done].
  cbn [omap list_omap]. by destruct (Notes.clean_text <$> Notes.TEXT r).
Qed.

Lemma is_template_false n :
  Notes.is_template n = false
  ↔ Forall (λ p, Str.contains p (Str.lower (Notes.text n)) = false)
      Notes.drop_patterns.
Proof.
  unfold Notes.is_template, Notes.drop_patterns. cbn [existsb].
  rewrite !Forall_cons, Forall_nil.
  destruct (Str.contains _ _), (Str.contains _ _); simpl; split;
    try done; by intros (? & ? & _).
Qed.

Lemma admission_cleaned_one s h r :
  Notes.text <$> admission s h (Notes.cleaned [r]) = admitted_texts s h [r].
Proof.
  unfold admitted_texts, admission, Notes.cleaned, Notes.drop_missing.
  cbn [omap list_omap]. rewrite (filter_cons (qualifies s h)), filter_nil.
  destruct (decide (qualifies s h r)) as [Hq|Hq].
  - destruct Hq as (Hs & Hh & Hc & t & Ht & Hp). rewrite Ht, Hh.
    rewrite filter_cons, filter_nil, decide_True; last first.
    { unfold Notes.in_keep_categories. simpl. by apply bool_decide_eq_true. }
    rewrite filter_cons, filter_nil, decide_True by (by apply is_template_false).
    cbn [fmap list_fmap]. rewrite filter_cons, filter_nil, decide_True by done.
    cbn [omap list_omap]. by rewrite Ht.
  - destruct (Notes.TEXT r) as [t|] eqn:Ht; [|done].
    destruct (Notes.HADM_ID r) as [h'|] eqn:Hh; [|done].
    rewrite filter_cons, filter_nil.
    destruct (decide (Notes.in_keep_categories _ = true)) as [Hc|Hc]; [|done].
    rewrite filter_cons, filter_nil.
    destruct (decide (Notes.is_template _ = false)) as [Hp|Hp]; [|done].
    cbn [fmap list_fmap]. rewrite filter_cons, filter_nil.
    destruct (decide (_ ∧ _)) as [[Hs Hh']|Hn]; [|done].
    destruct Hq. simpl in *. subst. split_and!; [done..| |].
    + unfold Notes.in_keep_categories in Hc. simpl in Hc.
      by apply bool_decide_eq_true in Hc.
    + exists t. split; [done|]. by apply is_template_false in Hp.
Qed.

Lemma admission_cleaned_texts s h df :
  Notes.text <$> admission s h (Notes.cleaned df) = admitted_texts s h df.
Proof.
  induction df as [|r df IH]; [done|].
  rewrite cleaned_cons, admitted_texts_cons. unfold admission in *.
  rewrite filter_app, fmap_app, IH. f_equal. apply admission_cleaned_one.
Qed.

(** X2: the note list of an admission holds, up to the order fixed by
    the sort, exactly the cleaned texts of the rows of that admission
    that pass the three filters (text and admission present, category on
    the allow-list, no template pattern); the admission is absent from the
    grouped table exactly when no row qualifies. *)
Theorem admission_holds_qualifying_rows df s h :
  (∀ note_list, lookup2 s h (Notes.grouped df) = Some note_list →
      note_list ≠ [] ∧ note_list ≡ₚ admitted_texts s h df)
  ∧ (lookup2 s h (Notes.grouped df) = None ↔ admitted_texts s h df = []).
Proof.
  unfold Notes.grouped, Notes.notes_grouped. rewrite lookup2_foldl.
  assert (Notes.text <$> admission s h (Notes.sort_values (Notes.cleaned df))
          ≡ₚ admitted_texts s h df) as Hperm.
  { rewrite <- admission_cleaned_texts. apply fmap_Permutation.
    unfold admission. by rewrite sort_values_Permutation. }
  destruct (admission s h (Notes.sort_values (Notes.cleaned df))) as [|n ns].
  - simpl in Hperm. apply Permutation_nil_l in Hperm. split; [done|].
    by rewrite <- Hperm.
  - split.
    + intros note_list [= <-]. split; [done|]. exact Hperm.
    + split; [done|]. intros Hnil. rewrite Hnil in Hperm.
      by apply Permutation_nil_r in Hperm.
Qed.

(** ** The order of the keys of the grouped table *)

Section DictKeys.
Context {K V : Type} `{EqDecision K}.

Lemma keys_update (k : K) (f : V → V) (dflt : V) (d : list (K * V)) :
  (Notes.update k f dflt d).*1 = if decide (k ∈ d.*1) then d.*1 else d.*1 ++ [k].
Proof.
  induction d as [|[k' v] d IH].
  - cbn [Notes.update fmap list_fmap].
    destruct (decide (k ∈ [])) as [Hin|_]; [|reflexivity].
    by apply not_elem_of_nil in Hin.
  - cbn [Notes.update]. destruct (decide (k = k')) as [->|Hne].
    + cbn [fmap list_fmap fst].
      destruct (decide (k' ∈ k' :: d.*1)) as [_|Hout]; [reflexivity|].
      destruct Hout. apply list_elem_of_here.
    + rewrite !fmap_cons, IH. cbn [fst].
      destruct (decide (k ∈ d.*1)) as [Hin|Hout],
               (decide (k ∈ k' :: d.*1)) as [Hin'|Hout']; try reflexivity.
      * destruct Hout'. by apply list_elem_of_further.
      * apply elem_of_cons in Hin' as [?|?]; done.
Qed.
Lemma get_elem_of (k : K) (v : V) (d : list (K * V)) :
  NoDup d.*1 → (k, v) ∈ d → Notes.get k d = Some v.
Proof.
  induction d as [|[k' v'] d IH]; simpl; intros Hnd Hin.
  - by apply not_elem_of_nil in Hin.
  - apply NoDup_cons in Hnd as [Hk' Hnd].
    apply elem_of_cons in Hin as [[= -> ->]|Hin].
    + by rewrite decide_True.
    + rewrite decide_False; [by apply IH|].
      intros ->. apply Hk'. apply list_elem_of_fmap. by exists (k', v).
Qed.
End DictKeys.

Section SortedKeys.
Context {A V : Type} (key : A → Z) (g : A → V → V) (dflt : V).

Let step (d : list (Z * V)) (n : A) : list (Z * V) :=
  Notes.update (key n) (g n) dflt d.

(** Filling a dictionary from a list whose keys never decrease leaves
    the keys in strictly increasing order. *)
Lemma keys_foldl_sorted l :
  StronglySorted (λ a b, (key a ≤ key b)%Z) l →
  StronglySorted Z.lt (foldl step [] l).*1
  ∧ ∀ k, k ∈ (foldl step [] l).*1 → ∃ n, n ∈ l ∧ key n = k.
Proof.
  induction l as [|n l IH] using rev_ind; intros Hl.
  - split; [constructor|]. intros k Hk. by apply not_elem_of_nil in Hk.
  - apply StronglySorted_app in Hl as (Hle & Hl & _).
    destruct (IH Hl) as [Hs Hk]. rewrite foldl_snoc. unfold step at 1 3.
    rewrite keys_update.
    destruct (decide (key n ∈ (foldl step [] l).*1)) as [Hin|Hout].
    + split; [done|]. intros k (m & Hm & <-)%Hk. exists m.
      split; [|done]. apply elem_of_app. by left.
    + split.
      * apply StronglySorted_app. split_and!; [|done|by repeat constructor].
        intros k1 k2 Hk1 ->%list_elem_of_singleton.
        destruct (Hk k1 Hk1) as (m & Hm & <-).
        assert (key m ≤ key n)%Z by (apply Hle; [done|apply list_elem_of_here]).
        assert (key m ≠ key n) by (intros Heq; apply Hout; by rewrite <- Heq).
        lia.
      * intros k [Hk1| ->%list_elem_of_singleton]%elem_of_app.
        -- destruct (Hk k Hk1) as (m & Hm & <-). exists m.
           split; [|done]. apply elem_of_app. by left.
        -- exists n. split; [|done]. apply elem_of_app. right.
           apply list_elem_of_here.
Qed.
End SortedKeys.

Lemma StronglySorted_lt_NoDup (l : list Z) : StronglySorted Z.lt l → NoDup l.
Proof.
  induction 1 as [|x l _ IH Hx]; constructor; [|done].
  intros Hin. rewrite Forall_forall in Hx. specialize (Hx x Hin). lia.
Qed.

Lemma get_group_step s d n :
  Notes.get s (Notes.group_step d n)
  = if decide (Notes.subj n = s)
    then Some (Notes.update (Notes.hadm n) (λ l, l ++ [Notes.text n]) []
                 (default [] (Notes.get s d)))
    else Notes.get s d.
Proof.
  unfold Notes.group_step. destruct (decide (Notes.subj n = s)) as [<-|Hne].
  - by rewrite get_update_eq.
  - by rewrite get_update_ne.
Qed.

(** The inner dictionary of a patient is filled from the patient's rows. *)
Lemma get_foldl_group_step s l d :
  Notes.get s (foldl Notes.group_step d l)
  = match filter (λ n, Notes.subj n = s) l with
    | [] => Notes.get s d
    | ns => Some (foldl (λ inner n,
                     Notes.update (Notes.hadm n) (λ l, l ++ [Notes.text n]) [] inner)
                   (default [] (Notes.get s d)) ns)
    end.
Proof.
  revert d. induction l as [|n l IH]; intros d; simpl; [done|].
  rewrite IH, filter_cons, get_group_step.
  destruct (decide (Notes.subj n = s)) as [Heq|Hne]; [|done].
  simpl. by destruct (filter _ l).
Qed.

Lemma key_le_subj a b : Notes.key_le a b → (Notes.subj a ≤ Notes.subj b)%Z.
Proof. unfold Notes.key_le. intros [?|[? _]]; lia. Qed.

Lemma key_le_hadm a b :
  Notes.subj a = Notes.subj b → Notes.key_le a b → (Notes.hadm a ≤ Notes.hadm b)%Z.
Proof. unfold Notes.key_le. intros ? [?|[_ [?|[? _]]]]; lia. Qed.

Lemma StronglySorted_impl_in {A} (R1 R2 : relation A) l :
  (∀ a b, a ∈ l → b ∈ l → R1 a b → R2 a b) →
  StronglySorted R1 l → StronglySorted R2 l.
Proof.
  intros Himpl Hl. induction Hl as [|x l Hl IH Hx]; [constructor|].
  constructor.
  - apply IH. intros a b Ha Hb. apply Himpl; by apply list_elem_of_further.
  - apply Forall_forall. intros y Hy. rewrite Forall_forall in Hx.
    apply Himpl; [apply list_elem_of_here|by apply list_elem_of_further|auto].
Qed.

(** X3: the grouped table lists the patients in strictly increasing
    order of SUBJECT_ID and, for each patient, the admissions in strictly
    increasing order of HADM_ID; the output keeps the patients in that
    order and, having dropped the admission keys, lists each patient's
    merged note lists in that admission order. *)
Theorem grouped_keys_increasing df :
  StronglySorted Z.lt (Notes.grouped df).*1
  ∧ (∀ s hadm_dict, (s, hadm_dict) ∈ Notes.grouped df →
       StronglySorted Z.lt hadm_dict.*1)
  ∧ (Notes.process df).*1 = (Notes.grouped df).*1
  ∧ (∀ s adms, (s, adms) ∈ Notes.process df →
       ∃ hadm_dict, (s, hadm_dict) ∈ Notes.grouped df
                    ∧ adms = Notes.merge_notes <$> hadm_dict.*2).
Proof.
  pose proof (sort_values_sorted (Notes.cleaned df)) as Hsorted.
  fold (Notes.sort_values (Notes.cleaned df)) in Hsorted.
  assert (StronglySorted Z.lt (Notes.grouped df).*1) as Hkeys.
  { apply (keys_foldl_sorted Notes.subj
      (λ n, Notes.update (Notes.hadm n) (λ l, l ++ [Notes.text n]) []) []).
    eapply StronglySorted_impl_in; [|exact Hsorted].
    intros a b _ _. apply key_le_subj. }
  split_and!; [done| | |].
  2:{ unfold Notes.process, Notes.note_sequences.
      rewrite <- list_fmap_compose. by apply list_fmap_ext. }
  2:{ unfold Notes.process, Notes.note_sequences. intros s adms Hin.
      apply list_elem_of_fmap in Hin as ([s' hadm_dict] & [= -> ->] & Hin).
      exists hadm_dict. split; [done|]. simpl.
      rewrite <- list_fmap_compose. by apply list_fmap_ext. }
  intros s hadm_dict Hin.
  apply get_elem_of in Hin; [|by apply StronglySorted_lt_NoDup].
  unfold Notes.grouped, Notes.notes_grouped in Hin.
  rewrite get_foldl_group_step in Hin.
  pose proof (StronglySorted_filter Notes.key_le (λ n, Notes.subj n = s) _ Hsorted)
    as Hs.
  assert (Forall (λ n, Notes.subj n = s)
            (filter (λ n, Notes.subj n = s) (Notes.sort_values (Notes.cleaned df))))
    as Hall.
  { apply Forall_forall. intros n Hn. by apply list_elem_of_filter in Hn as [? _]. }
  destruct (filter (λ n, Notes.subj n = s) (Notes.sort_values (Notes.cleaned df)))
    as [|n ns] eqn:Hf; [done|].
  injection Hin as <-.
  refine (proj1 (keys_foldl_sorted Notes.hadm (λ n l, l ++ [Notes.text n]) []
                   (n :: ns) _)).
  eapply StronglySorted_impl_in; [|exact Hs].
  intros a b Ha Hb. rewrite Forall_forall in Hall.
  apply key_le_hadm. by rewrite (Hall a Ha), (Hall b Hb).
Qed.

(** ** How many notes the merge returns *)

Lemma join_length_ge {A} (ls : list (list A)) :
  Forall (λ x, x ≠ []) ls → length ls ≤ length (mjoin ls).
Proof.
  induction 1 as [|x ls Hx _ IH]; simpl; [done|].
  rewrite length_app. destruct x; [done|]. simpl. lia.
Qed.

Lemma chunk_ok_notes c : chunk_ok c → notes_of c ≠ [].
Proof. destruct c; simpl; [done|]. by intros [? _]. Qed.

Lemma chunks_long l :
  Forall (λ n, ¬ short n) l → chunks_from [] l = Long <$> l.
Proof.
  induction 1 as [|n l Hn _ IH]; simpl; [done|].
  rewrite decide_False by done. simpl. by rewrite IH.
Qed.

Lemma merge_notes_count_all l :
  length (Notes.merge_notes l) ≤ length l
  ∧ (Notes.merge_notes l = [] ↔ l = [])
  ∧ (Forall (λ n, Notes.min_note_len ≤ length n) l → Notes.merge_notes l = l).
Proof.
  pose proof (chunks_from_notes [] l) as Hnotes. simpl in Hnotes.
  pose proof (chunks_from_ok [] l (Forall_nil_2 _)) as Hok.
  fold (chunks l) in Hnotes, Hok.
  assert (length (chunks l) ≤ length l) as Hlen.
  { rewrite <- Hnotes at 2.
    etrans; [|apply join_length_ge]; [by rewrite length_fmap|].
    apply Forall_fmap. eapply Forall_impl; [exact Hok|].
    intros c. apply chunk_ok_notes. }
  rewrite merge_notes_chunks. split_and!.
  - by rewrite length_fmap.
  - split.
    + intros Hnil. apply fmap_nil_inv in Hnil. by rewrite Hnil in Hnotes.
    + by intros ->.
  - intros Hlong. unfold chunks. rewrite chunks_long.
    + rewrite <- list_fmap_compose. simpl. apply list_fmap_id.
    + eapply Forall_impl; [exact Hlong|]. unfold short. intros n ?. lia.
Qed.


Lemma merge_notes_count_aux l : length (Notes.merge_notes l) ≤ length l.
Proof. apply merge_notes_count_all. Qed.

Lemma merge_notes_nil l : Notes.merge_notes l = [] ↔ l = [].
Proof. apply merge_notes_count_all. Qed.

(** X4: the merge never returns more notes than it was given, returns
    none only for an empty note list, and returns the list unchanged when
    no note is shorter than the minimum length. *)
Theorem merge_notes_count l :
  length (Notes.merge_notes l) ≤ length l
  ∧ (Notes.merge_notes l = [] ↔ l = [])
  ∧ (Forall (λ n, Notes.min_note_len ≤ length n) l → Notes.merge_notes l = l).
Proof. apply merge_notes_count_all. Qed.

(** ** The statistics *)

Lemma update_not_nil {K V} `{EqDecision K} (k : K) (f : V → V) dflt d :
  Notes.update k f dflt d ≠ [].
Proof. destruct d as [|[k' v] d]; simpl; [done|]. by destruct (decide (k = k')). Qed.

Lemma filled_foldl l d : filled d → filled (foldl Notes.group_step d l).
Proof.
  revert d. induction l as [|n l IH]; intros d Hd; simpl; [done|].
  apply IH. unfold Notes.group_step, filled.
  apply (update_Forall
    (λ v : list (Z * list str), v ≠ [] ∧ Forall (λ a, a.2 ≠ []) v)); [done| |].
  - intros v [_ Hv]. split; [apply update_not_nil|].
    apply (update_Forall (λ w : list str, w ≠ [])); [done| |done].
    intros w _. by destruct w.
  - split; [apply update_not_nil|].
    apply (update_Forall (λ w : list str, w ≠ [])); [done| |done].
    intros w _. by destruct w.
Qed.

Lemma sum_update {K V} `{EqDecision K} (w : V → nat) (k : K) (f : V → V) dflt d :
  (∀ v, w (f v) = S (w v)) → w dflt = 0 →
  sum_list_with (λ e, w e.2) (Notes.update k f dflt d)
  = S (sum_list_with (λ e, w e.2) d).
Proof.
  intros Hf Hd. induction d as [|[k' v] d IH]; simpl.
  - rewrite Hf, Hd. lia.
  - destruct (decide (k = k')); simpl; [rewrite Hf|rewrite IH]; lia.
Qed.

Lemma size2_foldl l d :
  size2 (foldl Notes.group_step d l) = size2 d + length l.
Proof.
  revert d. induction l as [|n l IH]; intros d; simpl; [lia|].
  rewrite IH. unfold size2, Notes.group_step.
  rewrite (sum_update
    (λ v : list (Z * list str), sum_list_with (λ a, length a.2) v)); [lia| |done].
  intros v. apply (sum_update (λ w : list str, length w)); [|done].
  intros w. rewrite length_app. simpl. lia.
Qed.

Lemma cleaned_grouped_size df :
  size2 (Notes.grouped df) = length (Notes.cleaned df).
Proof.
  unfold Notes.grouped, Notes.notes_grouped. rewrite size2_foldl. simpl.
  by rewrite sort_values_Permutation.
Qed.

Lemma merged_lengths_sum (dict : list (Z * list str)) :
  sum_list (length <$> ((λ a : Z * list str, Notes.merge_notes a.2) <$> dict))
  ≤ sum_list_with (λ a : Z * list str, length a.2) dict.
Proof.
  induction dict as [|[h nl] dict IH]; [done|].
  rewrite !fmap_cons. cbn [sum_list_with snd id] in *.
  apply Nat.add_le_mono; [apply merge_notes_count_aux | exact IH].
Qed.

Lemma note_lengths_sum (d : list (Z * list (Z * list str))) :
  sum_list (Stats.note_lengths (Notes.note_sequences d)) ≤ size2 d.
Proof.
  unfold Stats.note_lengths, Notes.note_sequences, size2.
  induction d as [|[s dict] d IH]; [done|].
  rewrite !fmap_cons. cbn [mjoin list_join sum_list_with snd] in *.
  rewrite sum_list_with_app.
  apply Nat.add_le_mono; [apply merged_lengths_sum | exact IH].
Qed.

Lemma note_lengths_filled (d : list (Z * list (Z * list str))) :
  filled d →
  Forall (λ k, 1 ≤ k) (Stats.note_lengths (Notes.note_sequences d))
  ∧ Forall (λ k, 1 ≤ k) (Stats.admissions_per_patient (Notes.note_sequences d))
  ∧ (Stats.note_lengths (Notes.note_sequences d) = [] → d = []).
Proof.
  unfold Stats.note_lengths, Stats.admissions_per_patient, Notes.note_sequences.
  induction 1 as [|[s dict] d [Hne Hdict] _ (IH1 & IH2 & IH3)]; [done|].
  rewrite !fmap_cons. cbn [mjoin list_join fst snd] in *.
  split_and!.
  - apply Forall_app. split; [|done].
    rewrite <- list_fmap_compose. apply Forall_fmap.
    eapply Forall_impl; [exact Hdict|]. intros [h nl] Hnl. simpl in *.
    destruct (Notes.merge_notes nl) eqn:Hm; [|simpl; lia].
    exfalso. apply Hnl. by apply merge_notes_nil.
  - constructor; [|done]. rewrite length_fmap. destruct dict; [done|simpl; lia].
  - intros Hnil. apply app_eq_nil in Hnil as [Hnil _].
    apply fmap_nil_inv in Hnil. apply fmap_nil_inv in Hnil. done.
Qed.

(** X5: the statistics are taken over counts that are all at least one
    (every patient of the output has an admission and every admission a
    merged note); the merged notes are no more than the rows that passed
    the filters; and the list handed to [np.max] is empty, so that the
    script ends in numpy's error, exactly when no row passed the filters. *)
Theorem statistics_inputs df :
  Forall (λ k, 1 ≤ k) (Stats.note_lengths (Notes.process df))
  ∧ Forall (λ k, 1 ≤ k) (Stats.admissions_per_patient (Notes.process df))
  ∧ sum_list (Stats.note_lengths (Notes.process df)) ≤ length (Notes.cleaned df)
  ∧ (Stats.np_max (Stats.note_lengths (Notes.process df)) = None
     ↔ Notes.cleaned df = []).
Proof.
  assert (filled (Notes.grouped df)) as Hfilled.
  { unfold Notes.grouped, Notes.notes_grouped. apply filled_foldl. constructor. }
  destruct (note_lengths_filled _ Hfilled) as (H1 & H2 & H3).
  unfold Notes.process. split_and!; [done|done| |].
  - rewrite <- cleaned_grouped_size. apply note_lengths_sum.
  - split.
    + intros Hmax.
      assert (Stats.note_lengths (Notes.note_sequences (Notes.grouped df)) = [])
        as Hnil.
      { by destruct (Stats.note_lengths _). }
      pose proof (cleaned_grouped_size df) as Hsize.
      rewrite (H3 Hnil) in Hsize. simpl in Hsize.
      by destruct (Notes.cleaned df).
    + intros Hnil. unfold Notes.grouped. rewrite Hnil. reflexivity.
Qed.

(** ** A run of short notes *)

Lemma lstrip_id (s : str) :
  (∀ c, head s = Some c → Str.isspace c = false) → Str.lstrip s = s.
Proof. destruct s as [|c s]; simpl; [done|]. intros H. by rewrite (H c). Qed.

Lemma rstrip_id (s : str) :
  (∀ c, last s = Some c → Str.isspace c = false) → Str.rstrip s = s.
Proof.
  intros H. unfold Str.rstrip. rewrite lstrip_id; [apply reverse_involutive|].
  intros c Hc. apply H. by rewrite <- head_reverse.
Qed.

Lemma strip_id (s : str) : stripped s → Str.strip s = s.
Proof.
  intros [Hh Hl]. unfold Str.strip. rewrite lstrip_id by done. by apply rstrip_id.
Qed.

Lemma sep_join_cons (n : str) l :
  l ≠ [] → sep_join (n :: l) = n ++ " " ++ sep_join l.
Proof. by destruct l. Qed.

Lemma buffer_of_sep_join l : l ≠ [] → buffer_of l = " " ++ sep_join l.
Proof.
  induction l as [|n l IH]; [done|]. intros _.
  destruct l as [|m l]; [unfold buffer_of; simpl; by rewrite (right_id_L [] (++))|].
  rewrite sep_join_cons by done. rewrite <- IH by done. reflexivity.
Qed.

Lemma sep_join_stripped l :
  l ≠ [] → Forall (λ n, stripped n ∧ n ≠ []) l →
  stripped (sep_join l) ∧ sep_join l ≠ [].
Proof.
  induction l as [|n l IH]; [done|]. intros _ [[[Hh Hl] Hn] Hrest]%Forall_cons.
  destruct l as [|m l]; [done|].
  destruct IH as [[Hh' Hl'] Hne']; [done..|].
  rewrite sep_join_cons by done.
  split; [split|].
  - intros c. destruct n as [|d n]; [done|]. apply Hh.
  - intros c. rewrite !last_app.
    destruct (last (sep_join (m :: l))) as [e|] eqn:He.
    + intros [= <-]. by apply Hl'.
    + apply last_None in He. done.
  - by destruct n.
Qed.

(** X6: a non-empty admission whose notes are all shorter than the
    minimum length, each a non-empty text without whitespace at its ends,
    is merged into one note: the texts joined by single spaces. *)
Theorem merge_notes_short_run l :
  l ≠ [] → Forall short l → Forall (λ n, stripped n ∧ n ≠ []) l →
  Notes.merge_notes l = [sep_join l].
Proof.
  intros Hne Hshort Hl. rewrite merge_notes_chunks. unfold chunks.
  rewrite chunks_from_short by done. simpl.
  destruct l as [|n l]; [done|]. simpl. f_equal.
  rewrite (buffer_of_sep_join (n :: l)) by done.
  destruct (sep_join_stripped (n :: l)) as [Hs _]; [done..|].
  unfold Str.strip. simpl. by apply strip_id.
Qed.

Lemma merge_notes_short_run_witness :
  ([("seen" : str); ("by" : str); ("nurse" : str)] ≠ []
   ∧ Forall short [("seen" : str); ("by" : str); ("nurse" : str)]
   ∧ Forall (λ n, stripped n ∧ n ≠ [])
       [("seen" : str); ("by" : str); ("nurse" : str)])
  ∧ Notes.merge_notes [("seen" : str); ("by" : str); ("nurse" : str)]
    = [("seen by nurse" : str)].
Proof.
  assert ([("seen" : str); ("by" : str); ("nurse" : str)] ≠ []) as H1.
  { discriminate. }
  assert (Forall short [("seen" : str); ("by" : str); ("nurse" : str)]) as H2.
  { repeat constructor; vm_compute; lia. }
  assert (Forall (λ n, stripped n ∧ n ≠ [])
            [("seen" : str); ("by" : str); ("nurse" : str)]) as H3.
  { repeat constructor; try discriminate;
      intros c Hc; vm_compute in Hc; injection Hc as <-; reflexivity. }
  split; [exact (conj H1 (conj H2 H3))|].
  exact (merge_notes_short_run _ H1 H2 H3).
Defined.

(** ** The fold-score files found by step 1 *)

Lemma glob_match_iff (pre suf name : str) :
  Selector.glob_match pre suf name ↔ ∃ mid, name = pre ++ mid ++ suf.
Proof.
  unfold Selector.glob_match. split.
  - intros [[k ->] Hsuf]. rewrite drop_app_length in Hsuf.
    destruct Hsuf as [mid ->]. by exists mid.
  - intros [mid ->]. split; [by eexists|].
    rewrite drop_app_length. by exists mid.
Qed.

Lemma glob_NoDup (pre suf : str) (fs : gmap str Selector.file) :
  NoDup (Selector.glob pre suf fs).
Proof. unfold Selector.glob. apply NoDup_filter, NoDup_fst_map_to_list. Qed.

Global Instance str_le_antisymm : AntiSymm (=) Str.le.
Proof.
  intros a b Hab Hba. unfold Str.le in *.
  pose proof (anti_symm String.le _ _ Hab Hba) as Heq.
  apply (f_equal list_ascii_of_string) in Heq.
  by rewrite !list_ascii_of_string_of_list_ascii in Heq.
Qed.

(** X7: step 1 finds exactly the existing files named
    stacker_best_model_folds_<anything>.csv, each once, in increasing
    lexicographic order of their names. *)
Theorem fold_score_files_spec (fs : gmap str Selector.file) :
  (∀ f, f ∈ Selector.fold_score_files fs
        ↔ (∃ mid, f = "stacker_best_model_folds_" ++ mid ++ ".csv")
          ∧ is_Some (fs !! f))
  ∧ NoDup (Selector.fold_score_files fs)
  ∧ StronglySorted Str.le (Selector.fold_score_files fs).
Proof.
  unfold Selector.fold_score_files, Selector.sorted. split_and!.
  - intros f. rewrite merge_sort_Permutation, elem_of_glob.
    by rewrite glob_match_iff.
  - rewrite merge_sort_Permutation. apply glob_NoDup.
  - apply StronglySorted_merge_sort; apply _.
Qed.

(** ** The search for the iteration tag *)

Lemma take_digits_split s :
  ∃ r, s = Str.take_digits s ++ r ∧ ∀ c, head r = Some c → Str.isdigit c = false.
Proof.
  induction s as [|c s (r & Hs & Hr)]; simpl.
  - exists []. by split.
  - destruct (Str.isdigit c) eqn:Hc.
    + exists r. split; [simpl; congruence|done].
    + exists (c :: s). split; [done|]. by intros ? [= <-].
Qed.

Lemma take_digits_app ds (r : str) :
  Forall (λ c, Str.isdigit c = true) ds →
  (∀ c, head r = Some c → Str.isdigit c = false) →
  Str.take_digits (ds ++ r) = ds.
Proof.
  intros Hds Hr. induction Hds as [|d ds Hd _ IH]; simpl.
  - destruct r as [|c r]; [done|]. simpl. by rewrite (Hr c).
  - by rewrite Hd, IH.
Qed.

Lemma match_iter_Some s t :
  Selector.match_iter s = Some t →
  is_tag t ∧ ∃ r, s = t ++ r ∧ ∀ c, head r = Some c → Str.isdigit c = false.
Proof.
  intros Hm. split; [by eapply match_iter_is_tag|].
  unfold Selector.match_iter in Hm. case_bool_decide as Hp; [|done].
  destruct Hp as [k ->]. change (drop 4 ("iter" ++ k)) with k in Hm.
  destruct (take_digits_split k) as (r & Hk & Hr).
  destruct (Str.take_digits k) as [|d ds]; [done|].
  injection Hm as <-. exists r. split; [|done].
  rewrite Hk. reflexivity.
Qed.

Lemma match_iter_None s :
  Selector.match_iter s = None →
  ¬ ∃ d r, s = "iter" ++ d :: r ∧ Str.isdigit d = true.
Proof.
  intros Hm (d & r & -> & Hd). unfold Selector.match_iter in Hm.
  rewrite bool_decide_eq_true_2 in Hm by (by eexists).
  change (drop 4 ("iter" ++ d :: r)) with (d :: r) in Hm.
  simpl in Hm. by rewrite Hd in Hm.
Qed.

(** X8: the tag search returns the leftmost occurrence of "iter" followed
    by at least one digit, with all the digits that follow it, and finds
    nothing exactly when the name holds no such occurrence. *)
Theorem search_iter_spec s :
  (∀ t, Selector.search_iter s = Some t →
     is_tag t
     ∧ ∃ p r, s = p ++ t ++ r
         ∧ (∀ c, head r = Some c → Str.isdigit c = false)
         ∧ ∀ p' d r', s = p' ++ "iter" ++ d :: r' → Str.isdigit d = true →
                      length p ≤ length p')
  ∧ (Selector.search_iter s = None
     ↔ ¬ ∃ p d r, s = p ++ "iter" ++ d :: r ∧ Str.isdigit d = true).
Proof.
  induction s as [|c s [IHs IHn]].
  - cbn [Selector.search_iter].
    assert (Selector.match_iter [] = None) as -> by reflexivity.
    split; [done|]. split; [|done].
    intros _ (p & d & r & Heq & _). by destruct p.
  - cbn [Selector.search_iter].
    destruct (Selector.match_iter (c :: s)) as [t|] eqn:Hm.
    + split.
      * intros t' [= <-]. apply match_iter_Some in Hm as (Ht & r & Hs & Hr).
        split; [done|]. exists [], r. split_and!; [done..|].
        intros. simpl. lia.
      * split; [done|]. intros Hno. exfalso. apply Hno.
        apply match_iter_Some in Hm as ((ds & -> & Hne & Hds) & r & Hs & _).
        destruct ds as [|d ds]; [done|]. apply Forall_cons in Hds as [Hd _].
        exists [], d, (ds ++ r). split; [|done].
        rewrite Hs. reflexivity.
    + pose proof (match_iter_None _ Hm) as Hhere. split.
      * intros t Ht. destruct (IHs t Ht) as (Htag & p & r & -> & Hr & Hfirst).
        split; [done|]. exists (c :: p), r. split_and!; [done..|].
        intros [|c' p'] d r' Heq Hd.
        -- destruct Hhere. by exists d, r'.
        -- simpl in Heq. injection Heq as -> Heq. simpl.
           apply le_n_S. by apply (Hfirst p' d r').
      * rewrite IHn. split.
        -- intros Hno ([|c' p] & d & r & Heq & Hd).
           ++ apply Hhere. by exists d, r.
           ++ simpl in Heq. injection Heq as -> ->. apply Hno. by exists p, d, r.
        -- intros Hno (p & d & r & -> & Hd). apply Hno.
           by exists (c :: p), d, r.
Qed.

Lemma match_iter_tag t (r : str) :
  is_tag t → (∀ c, head r = Some c → Str.isdigit c = false) →
  Selector.match_iter (t ++ r) = Some t.
Proof.
  intros (ds & -> & Hne & Hds) Hr. unfold Selector.match_iter.
  rewrite bool_decide_eq_true_2 by (by exists (ds ++ r); rewrite <- (assoc_L (++))).
  replace (drop 4 (("iter" ++ ds) ++ r)) with (ds ++ r) by reflexivity.
  rewrite take_digits_app by done. by destruct ds.
Qed.
Lemma search_iter_folds_name t :
  is_tag t → Selector.search_iter (Selector.path (folds_name t)) = Some t.
Proof.
  intros Ht. pose proof (match_iter_tag t ".csv" Ht) as Hm.
  destruct Ht as (ds & -> & Hne & Hds). unfold Selector.path, folds_name.
  cbn [list_ascii_of_string app]. simpl.
  simpl in Hm. rewrite Hm; [done|]. by intros c [= <-].
Qed.

Lemma winner_files_not_nil fs best avg :
  winner fs = Selector.Ok (best, avg) → Selector.fold_score_files fs ≠ [].
Proof.
  unfold winner. intros H Hnil. rewrite Hnil in H. discriminate H.
Qed.

(** X9: when the winning file carries the conventional name
    stacker_best_model_folds_<tag>.csv, the selection succeeds with
    exactly that tag: a [ValueError] is impossible for such a name. *)
Theorem conventional_name_gives_its_tag fs t avg :
  is_tag t →
  winner fs = Selector.Ok (folds_name t, avg) →
  Selector.select fs = Selector.Ok (folds_name t, avg, t).
Proof.
  intros Ht Hw. rewrite select_eq.
  pose proof (winner_files_not_nil fs _ _ Hw) as Hne.
  destruct (Selector.fold_score_files fs); [done|].
  by rewrite Hw, search_iter_folds_name.
Qed.

Lemma conventional_name_gives_its_tag_witness :
  (is_tag "iter1"
   ∧ winner example_dir = Selector.Ok (folds_name "iter1", dec 625 3))
  ∧ Selector.select example_dir
    = Selector.Ok (folds_name "iter1", dec 625 3, ("iter1" : str)).
Proof.
  assert (is_tag "iter1") as H1.
  { exists ("1" : str). split_and!; [reflexivity|discriminate|].
    repeat constructor. }
  split; [exact (conj H1 example_dir_winner)|].
  exact (conventional_name_gives_its_tag example_dir _ _ H1 example_dir_winner).
Defined.

(** ** What a run writes *)

Lemma new_fname_is_destination (t f : str) :
  is_tag t → Selector.glob_match (metrics_pre t) ".csv" f →
  is_destination (Selector.new_fname t f).
Proof.
  intros Ht Hf. destruct (new_fname_metrics t f Ht Hf) as (rest & _ & ->).
  do 3 right. by eexists.
Qed.

Lemma run_writes_only_destinations_all (fs : gmap str Selector.file) (name : str) :
  (is_Some (fs !! name) → is_Some (Selector.dir (final fs) !! name))
  ∧ (¬ is_destination name → Selector.dir (final fs) !! name = fs !! name).
Proof.
  destruct (Selector.select fs) as [[[best avg] t]|e] eqn:Hsel.
  - destruct (final_Ok fs _ _ _ Hsel) as (_ & _ & ->).
    pose proof (select_tag fs _ _ _ Hsel) as Htag. split.
    + intros Hf. rewrite lookup_insert_is_Some.
      destruct (decide (Selector.output_model_card = name)); [by left|right].
      split; [done|]. by apply copy_artifacts_exists.
    + intros Hn. rewrite lookup_insert_ne by (intros <-; apply Hn; by do 2 right; left).
      apply dir_copy_artifacts_frame; [done| | |].
      * intros ->. apply Hn. by left.
      * intros ->. apply Hn. by right; left.
      * intros f Hf <-. apply Hn. by apply new_fname_is_destination.
  - unfold final. rewrite (main_Raise fs _ Hsel). by split.
Qed.


Lemma run_writes_only_destinations_aux (fs : gmap str Selector.file) (name : str) :
  ¬ is_destination name → Selector.dir (final fs) !! name = fs !! name.
Proof. apply run_writes_only_destinations_all. Qed.

(** X10: whatever the outcome, a run leaves every file in place; the only
    names it can create or overwrite are the two fixed model names, the
    model card and names beginning with
    stacker_binary_metrics_across_iterations: a file under any other name
    keeps its content. *)
Theorem run_writes_only_destinations (fs : gmap str Selector.file) (name : str) :
  (is_Some (fs !! name) → is_Some (Selector.dir (final fs) !! name))
  ∧ (¬ is_destination name → Selector.dir (final fs) !! name = fs !! name).
Proof. apply run_writes_only_destinations_all. Qed.

(** ** Running the selector again *)

Lemma folds_not_destination (f : str) :
  Selector.glob_match "stacker_best_model_folds_" ".csv" f → ¬ is_destination f.
Proof.
  intros [r ->]%glob_match_prefix.
  unfold is_destination, txt_dst, pkl_dst, Selector.output_model_card.
  intros [H|[H|[H|[k H]]]]; by name_clash H.
Qed.

Lemma iteration_scores_ext (fs fs' : gmap str Selector.file) files :
  (∀ f, f ∈ files → fs' !! f = fs !! f) →
  Selector.iteration_scores fs' files = Selector.iteration_scores fs files.
Proof.
  induction files as [|f files IH]; intros Hsame; [done|].
  cbn [Selector.iteration_scores]. unfold Selector.avg_f1, Selector.macro_f1.
  rewrite (Hsame f) by apply list_elem_of_here.
  rewrite IH; [done|]. intros g Hg. apply Hsame. by apply list_elem_of_further.
Qed.

Lemma fold_score_files_ext (fs fs' : gmap str Selector.file) :
  (∀ f, Selector.glob_match "stacker_best_model_folds_" ".csv" f →
        fs' !! f = fs !! f) →
  Selector.fold_score_files fs' = Selector.fold_score_files fs.
Proof.
  intros Hsame. unfold Selector.fold_score_files, Selector.sorted.
  apply (Sorted_unique Str.le).
  - apply Sorted_merge_sort, _.
  - apply Sorted_merge_sort, _.
  - rewrite !merge_sort_Permutation.
    apply NoDup_Permutation; [apply glob_NoDup..|].
    intros f. rewrite !elem_of_glob. split; intros [Hm Hf]; (split; [done|]).
    + by rewrite <- Hsame.
    + by rewrite Hsame.
Qed.

(** X11: the files a run writes do not change a later selection: run on
    the directory it left behind, the selector finds the same fold-score
    files and returns the same winner, average and tag, or the same
    error. *)
Theorem rerun_selects_the_same (fs : gmap str Selector.file) :
  Selector.fold_score_files (Selector.dir (final fs)) = Selector.fold_score_files fs
  ∧ Selector.select (Selector.dir (final fs)) = Selector.select fs.
Proof.
  assert (∀ f, Selector.glob_match "stacker_best_model_folds_" ".csv" f →
               Selector.dir (final fs) !! f = fs !! f) as Hsame.
  { intros f Hf. by apply run_writes_only_destinations_aux, folds_not_destination. }
  pose proof (fold_score_files_ext fs _ Hsame) as Hfiles.
  split; [done|]. unfold Selector.select. rewrite Hfiles.
  destruct (Selector.fold_score_files fs) as [|f files] eqn:Hfs; [done|].
  rewrite (iteration_scores_ext fs); [done|].
  intros g Hg. apply Hsame. rewrite <- Hfs in Hg.
  unfold Selector.fold_score_files, Selector.sorted in Hg.
  rewrite merge_sort_Permutation in Hg. by apply elem_of_glob in Hg as [? _].
Qed.

(** ** The model card *)

(** X12: after a successful run the model card names the winning tag and
    the mean of the winning file's Macro-F1 column, and lists, after the
    two fixed model names, the renamed name of every existing metrics file
    of the winning tag, each metrics file once; every metrics file so
    listed exists in the directory. *)
Theorem model_card_contents fs best avg t :
  Selector.select fs = Selector.Ok (best, avg, t) →
  Selector.avg_f1 fs best = Selector.Ok avg
  ∧ ∃ metrics,
      Selector.dir (final fs) !! Selector.output_model_card
      = Some (Selector.ModelCard t avg
                (txt_dst :: pkl_dst :: (Selector.new_fname t <$> metrics)))
      ∧ NoDup metrics
      ∧ (∀ m, m ∈ metrics
              ↔ Selector.glob_match (metrics_pre t) ".csv" m ∧ is_Some (fs !! m))
      ∧ ∀ m, m ∈ metrics →
             is_Some (Selector.dir (final fs) !! Selector.new_fname t m).
Proof.
  intros Hsel. pose proof (select_Ok fs _ _ _ Hsel) as (_ & Hw & _).
  pose proof (select_tag fs _ _ _ Hsel) as Htag.
  destruct (final_Ok fs _ _ _ Hsel) as (_ & _ & Hd). split.
  - apply winner_spec in Hw as (j & col & _ & Hcol & -> & _).
    apply avg_f1_Ok. by exists col.
  - set (metrics := Selector.metrics_files t
      (Selector.dir (Selector.copy_models t (Selector.State fs [])).1)) in *.
    assert (∀ m, m ∈ metrics
              ↔ Selector.glob_match (metrics_pre t) ".csv" m ∧ is_Some (fs !! m))
      as Hmem.
    { intros m. unfold metrics, Selector.metrics_files. fold (metrics_pre t).
      rewrite elem_of_glob, copy_models_eq by done. cbn [Selector.dir fst].
      split; intros [Hm Hf]; (split; [done|]);
        destruct (metrics_not_model_dst t m Hm) as (? & ? & _).
      - by rewrite !copied_model_ne in Hf.
      - by rewrite !copied_model_ne. }
    exists metrics. split_and!; [by rewrite Hd, lookup_insert_eq| |done|].
    + apply glob_NoDup.
    + intros m [Hm Hf]%Hmem. rewrite Hd, lookup_insert_is_Some.
      destruct (decide (Selector.output_model_card = Selector.new_fname t m));
        [by left|right]. split; [done|].
      destruct (metrics_copied fs t Htag m Hf Hm) as (_ & g & _ & _ & Hg & ->).
      done.
Qed.

Lemma model_card_contents_witness :
  Selector.select example_dir
  = Selector.Ok (folds_name "iter1", dec 625 3, ("iter1" : str))
  ∧ Selector.avg_f1 example_dir (folds_name "iter1") = Selector.Ok (dec 625 3)
  ∧ ∃ metrics,
      Selector.dir (final example_dir) !! Selector.output_model_card
      = Some (Selector.ModelCard "iter1" (dec 625 3)
                (txt_dst :: pkl_dst :: (Selector.new_fname "iter1" <$> metrics)))
      ∧ NoDup metrics
      ∧ (∀ m, m ∈ metrics
              ↔ Selector.glob_match (metrics_pre "iter1") ".csv" m
                ∧ is_Some (example_dir !! m))
      ∧ ∀ m, m ∈ metrics →
             is_Some (Selector.dir (final example_dir)
                        !! Selector.new_fname "iter1" m).
Proof.
  split; [exact example_dir_select|].
  exact (model_card_contents example_dir _ _ _ example_dir_select).
Defined.

(** ** The mean of a score column *)

Lemma add_zero_r x : same_value (F64.add x F64.zero) x.
Proof. destruct x as [[]|[]| |[] m e]; (by left) || (right; by eexists _, _). Qed.

Lemma add_same_value x x' y :
  same_value x x' → same_value (F64.add x y) (F64.add x' y).
Proof.
  intros [->|(s & s' & -> & ->)]; [by left|].
  destruct s, s', y as [[]|[]| |[] m e];
    (by left) || (right; by eexists _, _).
Qed.

Lemma div_same_value x x' y :
  same_value x x' → same_value (F64.div x y) (F64.div x' y).
Proof.
  intros [->|(s & s' & -> & ->)]; [by left|].
  destruct s, s', y as [[]|[]| |[] m e];
    (by left) || (right; by eexists _, _).
Qed.

Lemma same_value_trans x y z : same_value x y → same_value y z → same_value x z.
Proof.
  intros [->|(s & s' & -> & ->)] Hyz; [done|].
  destruct Hyz as [<-|(r & r' & _ & ->)]; right; by eexists _, _.
Qed.

Lemma foldl_add_same_value x x' l :
  same_value x x' → same_value (foldl F64.add x l) (foldl F64.add x' l).
Proof.
  revert x x'. induction l as [|y l IH]; intros x x' Hx; [done|].
  cbn [foldl]. by apply IH, add_same_value.
Qed.

(** Adding the cells with 0.0 in the place of every NaN gives the sum of
    the cells that are not NaN, up to the sign of a zero. *)
Lemma foldl_add_filled x col :
  same_value
    (foldl F64.add x ((λ x, if F64.is_nan x then F64.zero else x) <$> col))
    (foldl F64.add x (filter (λ x, F64.is_nan x = false) col)).
Proof.
  revert x. induction col as [|y col IH]; intros x; [by left|].
  rewrite filter_cons. cbn [fmap list_fmap foldl].
  destruct (F64.is_nan y) eqn:Hy.
  - rewrite decide_False by done.
    eapply same_value_trans; [|apply IH].
    apply foldl_add_same_value, add_zero_r.
  - rewrite decide_True by done. apply IH.
Qed.

(** X13: on a column of fewer than eight cells the mean that pandas
    computes is the arithmetic mean of the cells that are not NaN, added
    from left to right in binary64 arithmetic: exactly so when no cell is
    NaN, and up to the sign of a zero otherwise; and whatever its length,
    a column without any score has the mean NaN. *)
Theorem mean_of_short_column col :
  (length col < 8 →
     same_value (Selector.mean col)
       (arithmetic_mean (filter (λ x, F64.is_nan x = false) col))
     ∧ (Forall (λ x, F64.is_nan x = false) col →
        Selector.mean col = arithmetic_mean col))
  ∧ (Forall (λ x, F64.is_nan x = true) col → Selector.mean col = F64.nan).
Proof.
  split; [|apply mean_all_nan].
  intros Hlen. split; [|by apply mean_arithmetic].
  unfold Selector.mean.
  destruct (filter (λ x, F64.is_nan x = false) col) as [|s rest] eqn:Hfilter;
    [by left|].
  cbn [length Nat.eqb arithmetic_mean]. apply div_same_value.
  destruct col as [|c col]; [done|].
  cbn [fmap list_fmap Selector.np_sum].
  change ((if F64.is_nan c then F64.zero else c)
          :: ((λ x, if F64.is_nan x then F64.zero else x) <$> col))
    with ((λ x, if F64.is_nan x then F64.zero else x) <$> c :: col).
  rewrite pairwise_sum_block, sum_block_short
    by (rewrite length_fmap; simpl in *; lia).
  rewrite neg_zero_add.
  eapply same_value_trans; [apply foldl_add_filled|].
  rewrite Hfilter. cbn [foldl]. rewrite neg_zero_add. by left.
Qed.

Lemma mean_of_short_column_witness :
  (length [dec 5 1; dec 75 2] < 8
   ∧ Forall (λ x, F64.is_nan x = false) [dec 5 1; dec 75 2])
  ∧ Selector.mean [dec 5 1; dec 75 2] = arithmetic_mean [dec 5 1; dec 75 2]
  ∧ arithmetic_mean [dec 5 1; dec 75 2] = dec 625 3.
Proof.
  assert (length [dec 5 1; dec 75 2] < 8) as H1.
  { apply (bool_decide_unpack _). vm_compute. exact I. }
  assert (Forall (λ x, F64.is_nan x = false) [dec 5 1; dec 75 2]) as H2.
  { repeat constructor. }
  split; [exact (conj H1 H2)|]. split.
  - exact (proj2 (proj1 (mean_of_short_column [dec 5 1; dec 75 2]) H1) H2).
  - vm_compute. reflexivity.
Defined.

(** ** The resource logger with raising blocks and existing files *)

Lemma ResourceLogger_existing inv rows :
  Logger.ResourceLogger inv (Some rows)
  = Some (rows ++ (Logger.row <$> completed [inv])).
Proof.
  unfold Logger.ResourceLogger, completed. rewrite filter_cons, filter_nil.
  destruct (Logger.block_raised inv); simpl.
  - by rewrite (right_id_L [] (++)).
  - done.
Qed.

Lemma completed_cons inv invs :
  completed (inv :: invs) = completed [inv] ++ completed invs.
Proof. unfold completed. rewrite !filter_cons, filter_nil. by case_decide. Qed.

Lemma run_existing_general invs rows :
  Logger.run invs (Some rows) = Some (rows ++ (Logger.row <$> completed invs)).
Proof.
  revert rows. induction invs as [|inv invs IH]; intros rows.
  - simpl. by rewrite (right_id_L [] (++)).
  - unfold Logger.run in *. cbn [foldl]. rewrite ResourceLogger_existing, IH.
    by rewrite (completed_cons inv invs), fmap_app, (assoc_L (++)).
Qed.

(** X14: for any sequence of invocations, raising blocks included: on an
    existing log file the run appends the data records of the invocations
    whose block returned, in order, and never a header (an existing empty
    file stays without header); with no log file, the file stays absent
    when every block raised, and otherwise holds one header followed by
    those data records. *)
Theorem run_appends_completed invs :
  (∀ rows, Logger.run invs (Some rows)
           = Some (rows ++ (Logger.row <$> completed invs)))
  ∧ Logger.run invs None
    = match completed invs with
      | [] => None
      | cs => Some (Logger.Header :: (Logger.row <$> cs))
      end.
Proof.
  split; [intros rows; apply run_existing_general|].
  induction invs as [|inv invs IH]; [done|].
  unfold Logger.run in *. cbn [foldl]. rewrite (completed_cons inv invs).
  unfold Logger.ResourceLogger at 2, completed at 1.
  rewrite filter_cons, filter_nil.
  destruct (Logger.block_raised inv); simpl.
  - exact IH.
  - apply (run_existing_general invs [Logger.Header; Logger.row inv]).
Qed.

(** ** Two metrics files, one destination *)

Lemma replace_sep_tag t new (rest : str) :
  is_tag t →
  Str.replace t new ("_" ++ t ++ rest) = "_" ++ new ++ Str.replace t new rest.
Proof.
  intros (ds & -> & _ & _).
  change (Str.replace ("iter" ++ ds) new)
    with (Str.replace_from ("iter" ++ ds) new 0).
  cbn [list_ascii_of_string app].
  rewrite replace_from_miss by (intros [k Hk]; simplify_eq/=).
  f_equal.
  exact (replace_from_hit ("i"%char :: "t"%char :: "e"%char :: "r"%char :: ds)
           new "i"%char ("t"%char :: "e"%char :: "r"%char :: ds) rest eq_refl).
Qed.

Lemma replace_sep_literal t new (rest : str) :
  is_tag t →
  Str.replace t new ("_across_iterations" ++ rest)
  = "_across_iterations" ++ Str.replace t new rest.
Proof.
  intros (ds & -> & Hne & Hds).
  destruct ds as [|d ds]; [done|]. apply Forall_cons in Hds as [Hd _].
  change (Str.replace ("iter" ++ d :: ds) new)
    with (Str.replace_from ("iter" ++ d :: ds) new 0).
  cbn [list_ascii_of_string app].
  do 18 (rewrite replace_from_miss by (intros [k Hk]; simplify_eq/=)).
  reflexivity.
Qed.

(** X16: the renaming of metrics files is not one to one.  For every
    tag, the two distinct metrics files
    stacker_binary_metrics_<tag>_<tag><mid>.csv and
    stacker_binary_metrics_<tag>_across_iterations<mid>.csv both match the
    pattern of the tag and are renamed to the same destination, so that
    the copy made later overwrites the earlier one. *)
Theorem renamed_names_can_collide t (mid : str) :
  is_tag t →
  Selector.glob_match (metrics_pre t) ".csv" (metrics_pre t ++ t ++ mid ++ ".csv")
  ∧ Selector.glob_match (metrics_pre t) ".csv"
      (metrics_pre t ++ Selector.across_iterations ++ mid ++ ".csv")
  ∧ metrics_pre t ++ t ++ mid ++ ".csv"
    ≠ metrics_pre t ++ Selector.across_iterations ++ mid ++ ".csv"
  ∧ Selector.new_fname t (metrics_pre t ++ t ++ mid ++ ".csv")
    = Selector.new_fname t
        (metrics_pre t ++ Selector.across_iterations ++ mid ++ ".csv").
Proof.
  intros Ht. split_and!.
  - apply glob_match_iff. exists (t ++ mid). by rewrite <- !(assoc_L (++)).
  - apply glob_match_iff. exists (Selector.across_iterations ++ mid).
    by rewrite <- !(assoc_L (++)).
  - intros Heq. apply (inj (app _)) in Heq.
    destruct Ht as (ds & -> & _). by name_clash Heq.
  - unfold Selector.new_fname, metrics_pre. rewrite <- !(assoc_L (++)).
    rewrite !replace_tag by done.
    rewrite (replace_sep_tag t _ _ Ht).
    change ("_" ++ Selector.across_iterations ++ mid ++ ".csv")
      with ("_across_iterations" ++ mid ++ ".csv").
    by rewrite (replace_sep_literal t _ _ Ht).
Qed.

Lemma renamed_names_can_collide_witness :
  is_tag "iter1"
  ∧ ("stacker_binary_metrics_iter1_iter1_val.csv" : str)
    ≠ ("stacker_binary_metrics_iter1_across_iterations_val.csv" : str)
  ∧ Selector.new_fname "iter1" "stacker_binary_metrics_iter1_iter1_val.csv"
    = Selector.new_fname "iter1"
        "stacker_binary_metrics_iter1_across_iterations_val.csv".
Proof.
  assert (is_tag "iter1") as H1.
  { exists ("1" : str). split_and!; [reflexivity|discriminate|].
    repeat constructor. }
  split; [exact H1|].
  exact (proj2 (proj2 (renamed_names_can_collide "iter1" "_val" H1))).
Defined.

(** ** Rows without a timestamp *)

(** X17: whether or not the timestamps parse, the note list of an
    admission holds the texts of the admission's cleaned rows in the order
    of [sort_values]: rows with a timestamp by non-decreasing timestamp,
    followed by the rows whose timestamp is missing (NaT). *)
Theorem admission_notes_nat_last df s h note_list :
  lookup2 s h (Notes.grouped df) = Some note_list →
  ∃ ns, ns ≡ₚ admission s h (Notes.cleaned df)
      ∧ note_list = Notes.text <$> ns
      ∧ StronglySorted Notes.time_le (Notes.charttime <$> ns)
      ∧ ∀ i j a b, i < j → ns !! i = Some a → ns !! j = Some b →
                   Notes.charttime a = None → Notes.charttime b = None.
Proof.
  intros Hget. unfold Notes.grouped in Hget. apply lookup2_notes_grouped in Hget.
  set (ns := admission s h (Notes.sort_values (Notes.cleaned df))) in *.
  assert (StronglySorted Notes.time_le (Notes.charttime <$> ns)) as Hsorted.
  { apply admission_sorted, sort_values_sorted. }
  exists ns. split_and!; [|done|done|].
  - unfold ns, admission. by rewrite sort_values_Permutation.
  - intros i j a b Hij Ha Hb Hnone.
    assert (Notes.time_le (Notes.charttime a) (Notes.charttime b)) as Hle.
    { assert (Reflexive Notes.time_le) as Hrefl.
      { intros [x|]; simpl; [lia|done]. }
      apply (StronglySorted_lookup Notes.time_le (Notes.charttime <$> ns) i j);
        [done|lia|by rewrite list_lookup_fmap, Ha|by rewrite list_lookup_fmap, Hb]. }
    rewrite Hnone in Hle. by destruct (Notes.charttime b).
Qed.

Lemma admission_notes_nat_last_witness :
  lookup2 7 3 (Notes.grouped undated_table)
    = Some [("dated note" : str); ("undated note" : str)]
  ∧ ∃ ns, ns ≡ₚ admission 7 3 (Notes.cleaned undated_table)
      ∧ [("dated note" : str); ("undated note" : str)] = Notes.text <$> ns
      ∧ StronglySorted Notes.time_le (Notes.charttime <$> ns)
      ∧ ∀ i j a b, i < j → ns !! i = Some a → ns !! j = Some b →
                   Notes.charttime a = None → Notes.charttime b = None.
Proof.
  assert (lookup2 7 3 (Notes.grouped undated_table)
          = Some [("dated note" : str); ("undated note" : str)]) as H1.
  { vm_compute. reflexivity. }
  split; [exact H1|].
  exact (admission_notes_nat_last undated_table 7 3 _ H1).
Defined.

(** ** Rows with equal sort keys *)

Lemma filter_insert_row k n df :
  filter (same_key k) (Notes.insert_row n df) = filter (same_key k) (n :: df).
Proof.
  induction df as [|m df IH]; [done|]. cbn [Notes.insert_row].
  destruct (decide (Notes.key_le n m)) as [Hnm|Hnm]; [done|].
  rewrite (filter_cons _ m), IH, !(filter_cons _ n), (filter_cons _ m).
  destruct (decide (same_key k n)) as [[Hkn Hnk]|]; [|done].
  destruct (decide (same_key k m)) as [[Hkm Hmk]|]; [|done].
  destruct Hnm. by etrans.
Qed.

Lemma same_key_admission s h t n :
  same_key (Notes.Note s h t [] []) n
  ↔ (Notes.subj n = s ∧ Notes.hadm n = h) ∧ Notes.charttime n = t.
Proof.
  unfold same_key, Notes.key_le. simpl. split.
  - intros [[?|[? [?|[? H1]]]] [?|[? [?|[? H2]]]]]; try lia.
    split; [done|]. destruct t as [x|], (Notes.charttime n) as [y|];
      simpl in *; try done. f_equal. lia.
  - intros [[<- <-] <-]. assert (Notes.time_le (Notes.charttime n) (Notes.charttime n)).
    { destruct (Notes.charttime n); simpl; [lia|done]. }
    split; right; (split; [done|]); right; done.
Qed.

Lemma filter_time_admission s h t l :
  filter (λ n, Notes.charttime n = t) (admission s h l)
  = filter (same_key (Notes.Note s h t [] [])) l.
Proof.
  unfold admission. rewrite list_filter_filter. apply list_filter_iff.
  intros n. rewrite same_key_admission. tauto.
Qed.

(** X18: the sort is stable.  Rows with the same patient, admission and
    timestamp keep the order of the table: for every key, the rows with
    that key stand in the sorted table as they stand in the table, and
    the note list of an admission holds, for every timestamp (NaT
    included), the texts of the admission's cleaned rows with that
    timestamp in the order of the table. *)
Theorem sort_values_stable df :
  (∀ k l, filter (same_key k) (Notes.sort_values l) = filter (same_key k) l)
  ∧ ∀ s h note_list,
      lookup2 s h (Notes.grouped df) = Some note_list →
      ∃ ns, note_list = Notes.text <$> ns
        ∧ ns ≡ₚ admission s h (Notes.cleaned df)
        ∧ ∀ t, filter (λ n, Notes.charttime n = t) ns
               = filter (λ n, Notes.charttime n = t)
                   (admission s h (Notes.cleaned df)).
Proof.
  assert (∀ k l, filter (same_key k) (Notes.sort_values l) = filter (same_key k) l)
    as Hstable.
  { intros k l. induction l as [|n l IH]; [done|]. cbn [Notes.sort_values foldr].
    fold (Notes.sort_values l). by rewrite filter_insert_row, !filter_cons, IH. }
  split; [done|]. intros s h note_list Hget.
  unfold Notes.grouped in Hget. apply lookup2_notes_grouped in Hget.
  exists (admission s h (Notes.sort_values (Notes.cleaned df))).
  split_and!; [done|unfold admission; by rewrite sort_values_Permutation|].
  intros t. by rewrite !filter_time_admission.
Qed.
